(** * Session storage container of realworld_dummy_server.py

    A shallow embedding of the in-memory storage core of
    [src/realworld_dummy_server.py]: the two bounded collections
    ([InMemoryModel], [InMemoryLinks]), the per-session aggregate
    ([InMemoryStorage]) and the session container ([_StorageContainer]) with
    its indexed min-heap, its per-address session lists and its token table,
    followed by the properties established about them.

    Conventions of the embedding
    - Python [int] is [Z]; list positions and lengths are [nat].
    - A [dict] is a [gmap]; a [list] is a [list]; [None]-or-value is [option].
    - A method that mutates [self] and may raise is a function
      [state -> result * state]: the state component is the object as the
      exception (or the return) leaves it.
    - [time_ns()] and [uuid.uuid4()] are inputs of the call that reads them.
    - Logging ([log_structured]) has no effect on the modelled state and is
      left out. *)

From Stdlib Require Import ZArith Lia Ascii String.
From stdpp Require Import base tactics option numbers list strings gmap pretty.

Local Open Scope string_scope.
Local Open Scope list_scope.
Local Open Scope Z_scope.

(** ** Exceptions and the state-and-exception monad *)

Inductive exn : Type :=
| ValueError (msg : string)
| KeyError
| IndexError
| TypeError
| AttributeError.

Inductive result (A : Type) : Type :=
| Ok (a : A)
| Raise (e : exn).
Arguments Ok {A} a.
Arguments Raise {A} e.

Definition M (S A : Type) : Type := S -> result A * S.

Definition ret {S A : Type} (a : A) : M S A := fun s => (Ok a, s).

Definition raise {S A : Type} (e : exn) : M S A := fun s => (Raise e, s).

Definition bindM {S A B : Type} (m : M S A) (k : A -> M S B) : M S B :=
  fun s =>
    match m s with
    | (Ok a, s') => k a s'
    | (Raise e, s') => (Raise e, s')
    end.

Definition modify {S : Type} (f : S -> S) : M S unit := fun s => (Ok tt, f s).

Definition gets {S A : Type} (f : S -> A) : M S A := fun s => (Ok (f s), s).

Notation "'let*' x ':=' m 'in' k" := (bindM m (fun x => k))
  (at level 10, x binder, m at level 100, k at level 200).
Notation "m1 ';;' m2" := (bindM m1 (fun _ => m2))
  (at level 100, m2 at level 200, right associativity).

(** The state an operation leaves behind, whether it returned or raised. *)
Definition state_after {S A : Type} (r : result A * S) : S := snd r.

Definition is_ok {A : Type} (r : result A) : bool :=
  match r with Ok _ => true | Raise _ => false end.

(** ** Python values that reach [normalize_id] *)

Inductive pyval : Type :=
| PyInt (z : Z)
| PyStr (s : string)
| PyOther.

(** Python's [str(n)] for an [int]: the decimal rendering, with a leading
    minus sign for a negative number. *)
Definition str_of_int (z : Z) : string := pretty z.

(** Python truthiness of an optional string: [None] and the empty string
    are falsy. *)
Definition truthy (o : option string) : bool :=
  match o with
  | Some s => negb (String.eqb s "")
  | None => false
  end.

(** [normalize_id(value)], lines 382-389. *)
Definition normalize_id (MAX_ID_LEN : Z) (value : pyval) : result string :=
  let value := match value with PyInt z => PyStr (str_of_int z) | v => v end in
  match value with
  | PyStr s =>
      if Z.of_nat (String.length s) >? MAX_ID_LEN
      then Raise (ValueError "id is too long")
      else Ok s
  | _ => Raise (ValueError "id must be an int or an str")
  end.

(** ** Insertion-ordered dictionaries

    [InMemoryModel.objects] is iterated ([values()]), so its order is kept:
    a Python [dict] as the list of its items in insertion order. *)

Definition dict (V : Type) : Type := list (string * V).

Fixpoint dict_get {V : Type} (k : string) (d : dict V) : option V :=
  match d with
  | [] => None
  | (k', v) :: d' => if decide (k' = k) then Some v else dict_get k d'
  end.

(** [d[k] = v]: an existing key keeps its place, a new key goes last. *)
Fixpoint dict_set {V : Type} (k : string) (v : V) (d : dict V) : dict V :=
  match d with
  | [] => [(k, v)]
  | (k', v') :: d' =>
      if decide (k' = k) then (k, v) :: d' else (k', v') :: dict_set k v d'
  end.

(** [del d[k]] for a key that is present. *)
Fixpoint dict_del {V : Type} (k : string) (d : dict V) : dict V :=
  match d with
  | [] => []
  | (k', v') :: d' => if decide (k' = k) then d' else (k', v') :: dict_del k d'
  end.

Definition dict_keys {V : Type} (d : dict V) : list string := d.*1.

Definition dict_values {V : Type} (d : dict V) : list V := d.*2.

(** ** InMemoryModel: the bounded object store *)

(** A stored record is a Python [dict] with string fields, read by field
    name only. *)
Abbreviation obj := (gmap string string).

Module InMemoryModel.

Record t : Type := Build {
  max_count : Z;
  objects : dict obj;
  last_accessed_ids : list string;
  current_id_counter : Z
}.

(** [__init__], lines 398-404. *)
Definition init (max_count : Z) : result t :=
  if max_count <=? 0 then Raise (ValueError "invalid value for max_count")
  else Ok (Build max_count [] [] 1).

(** [add], lines 406-435.  The returned record is the stored one, with its
    ["id"] field set. *)
Definition add (MAX_ID_LEN : Z) (o : obj) : M t obj := fun self =>
  let new_id := str_of_int (current_id_counter self) in
  if Z.of_nat (String.length new_id) >? MAX_ID_LEN
  then (Raise (ValueError "cannot allocate id: we reached MAX_ID_LEN limit"), self)
  else
    let o' := <["id" := new_id]> o in
    let objects1 := dict_set new_id o' (objects self) in
    let counter1 := current_id_counter self + 1 in
    if Z.of_nat (length objects1) >? max_count self then
      match last_accessed_ids self with
      | [] =>
          (Raise IndexError,
           Build (max_count self) objects1 (last_accessed_ids self) counter1)
      | evicted_id :: rest =>
          match dict_get evicted_id objects1 with
          | None =>
              (Raise KeyError,
               Build (max_count self) objects1 (last_accessed_ids self) counter1)
          | Some _ =>
              (Ok o',
               Build (max_count self) (dict_del evicted_id objects1)
                     (rest ++ [new_id]) counter1)
          end
      end
    else
      (Ok o',
       Build (max_count self) objects1 (last_accessed_ids self ++ [new_id]) counter1).

(** [get], lines 437-448. *)
Definition get (MAX_ID_LEN : Z) (_id : pyval) : M t (option obj) := fun self =>
  match normalize_id MAX_ID_LEN _id with
  | Raise e => (Raise e, self)
  | Ok _id =>
      match dict_get _id (objects self) with
      | None => (Ok None, self)
      | Some o =>
          (Ok (Some o),
           Build (max_count self) (objects self)
                 (filter (fun e => e ≠ _id) (last_accessed_ids self) ++ [_id])
                 (current_id_counter self))
      end
  end.

(** [delete], lines 459-481. *)
Definition delete (MAX_ID_LEN : Z) (_id : pyval) : M t bool := fun self =>
  match normalize_id MAX_ID_LEN _id with
  | Raise e => (Raise e, self)
  | Ok _id =>
      match dict_get _id (objects self) with
      | Some _ =>
          (Ok true,
           Build (max_count self) (dict_del _id (objects self))
                 (filter (fun cid => cid ≠ _id) (last_accessed_ids self))
                 (current_id_counter self))
      | None => (Ok false, self)
      end
  end.

End InMemoryModel.

(** ** InMemoryLinks: the bounded relation store *)

Module InMemoryLinks.

Record t : Type := Build {
  max_count : Z;
  links : list (string * string)
}.

(** [__init__], lines 485-487: no check on [max_count]. *)
Definition init (max_count : Z) : t := Build max_count [].

(** [self.links.index(x)] for an [x] known to be in the list: the position
    of its first occurrence. *)
Fixpoint index_of (x : string * string) (l : list (string * string)) : option nat :=
  match l with
  | [] => None
  | y :: l' => if decide (y = x) then Some 0%nat else S <$> index_of x l'
  end.

(** [add], lines 489-509. *)
Definition add (MAX_ID_LEN : Z) (source target : pyval) : M t unit := fun self =>
  match normalize_id MAX_ID_LEN source with
  | Raise e => (Raise e, self)
  | Ok source =>
      match normalize_id MAX_ID_LEN target with
      | Raise e => (Raise e, self)
      | Ok target =>
          if max_count self =? 0 then (Ok tt, self)
          else
            match index_of (source, target) (links self) with
            | Some _index =>
                (Ok tt,
                 Build (max_count self)
                       (take _index (links self) ++ drop (S _index) (links self)
                        ++ [(source, target)]))
            | None =>
                if Z.of_nat (length (links self)) >=? max_count self
                then (Ok tt, Build (max_count self)
                                   (drop 1 (links self) ++ [(source, target)]))
                else (Ok tt, Build (max_count self)
                                   (links self ++ [(source, target)]))
            end
      end
  end.

(** [remove], lines 511-515. *)
Definition remove (MAX_ID_LEN : Z) (source target : pyval) : M t unit := fun self =>
  match normalize_id MAX_ID_LEN source with
  | Raise e => (Raise e, self)
  | Ok source =>
      match normalize_id MAX_ID_LEN target with
      | Raise e => (Raise e, self)
      | Ok target =>
          match index_of (source, target) (links self) with
          | Some _index =>
              (Ok tt,
               Build (max_count self)
                     (take _index (links self) ++ drop (S _index) (links self)))
          | None => (Ok tt, self)
          end
      end
  end.

(** [is_linked], lines 517-519. *)
Definition is_linked (MAX_ID_LEN : Z) (source target : pyval) (self : t) : result bool :=
  match normalize_id MAX_ID_LEN source with
  | Raise e => Raise e
  | Ok source =>
      match normalize_id MAX_ID_LEN target with
      | Raise e => Raise e
      | Ok target => Ok (bool_decide ((source, target) ∈ links self))
      end
  end.

(** [delete_source], lines 527-528.  [normalize_id] is evaluated once per
    element of the comprehension, so an empty list never raises. *)
Definition delete_source (MAX_ID_LEN : Z) (source_to_delete : pyval) : M t unit := fun self =>
  match links self with
  | [] => (Ok tt, self)
  | _ :: _ =>
      match normalize_id MAX_ID_LEN source_to_delete with
      | Raise e => (Raise e, self)
      | Ok s =>
          (Ok tt, Build (max_count self) (filter (fun st => st.1 ≠ s) (links self)))
      end
  end.

(** [delete_target], lines 530-531. *)
Definition delete_target (MAX_ID_LEN : Z) (target_to_delete : pyval) : M t unit := fun self =>
  match links self with
  | [] => (Ok tt, self)
  | _ :: _ =>
      match normalize_id MAX_ID_LEN target_to_delete with
      | Raise e => (Raise e, self)
      | Ok s =>
          (Ok tt, Build (max_count self) (filter (fun st => st.2 ≠ s) (links self)))
      end
  end.

End InMemoryLinks.

(** ** Module-level configuration

    The constants the storage core reads from the environment (lines 74-92).
    [POPULATE_DEMO_DATA] is taken at its default, [False]. *)

Record config : Type := Config {
  MAX_SESSIONS_PER_IP : Z;
  MAX_ID_LEN : Z;
  MAX_USERS_PER_SESSION : Z;
  MAX_ARTICLES_PER_SESSION : Z;
  MAX_COMMENTS_PER_SESSION : Z;
  MAX_FOLLOWS_PER_SESSION : Z;
  MAX_FAVORITES_PER_SESSION : Z
}.

(** The defaults of lines 75-92. *)
Definition default_config : config := Config 30 64 60 20 20 100 100.

(** ** InMemoryStorage: one session's data *)

Record InMemoryStorage : Type := BuildStorage {
  users : InMemoryModel.t;
  articles : InMemoryModel.t;
  comments : InMemoryModel.t;
  follows : InMemoryLinks.t;
  favorites : InMemoryLinks.t
}.

(** [InMemoryStorage.__init__], lines 537-544. *)
Definition InMemoryStorage_init (cfg : config) : result InMemoryStorage :=
  match InMemoryModel.init (MAX_USERS_PER_SESSION cfg) with
  | Raise e => Raise e
  | Ok u =>
      match InMemoryModel.init (MAX_ARTICLES_PER_SESSION cfg) with
      | Raise e => Raise e
      | Ok a =>
          match InMemoryModel.init (MAX_COMMENTS_PER_SESSION cfg) with
          | Raise e => Raise e
          | Ok c =>
              Ok (BuildStorage u a c
                    (InMemoryLinks.init (MAX_FOLLOWS_PER_SESSION cfg))
                    (InMemoryLinks.init (MAX_FAVORITES_PER_SESSION cfg)))
          end
      end
  end.

(** ** String helpers used by the address normalisation *)

(** [s.endswith(suffix)]. *)
Definition ends_with (suffix s : string) : bool :=
  let n := String.length suffix in
  let m := String.length s in
  (n <=? m)%nat && String.eqb (substring (m - n) n s) suffix.

(** [c in s] for a one-character [c]. *)
Fixpoint contains_char (c : ascii) (s : string) : bool :=
  match s with
  | EmptyString => false
  | String c' s' => Ascii.eqb c' c || contains_char c s'
  end.

(** [s.split(c)] for a one-character separator. *)
Fixpoint split_on (c : ascii) (s : string) : list string :=
  match s with
  | EmptyString => [""]
  | String c' s' =>
      if Ascii.eqb c' c then "" :: split_on c s'
      else
        match split_on c s' with
        | w :: ws => String c' w :: ws
        | [] => [String c' ""]
        end
  end.

(** [sep.join(parts)]. *)
Fixpoint join (sep : string) (parts : list string) : string :=
  match parts with
  | [] => ""
  | [x] => x
  | x :: rest => x +:+ sep +:+ join sep rest
  end.

(** [_normalize_ip_for_limiting], lines 641-648. *)
Definition _normalize_ip_for_limiting (ip : string) : string :=
  if ends_with "/64" ip then ip
  else if contains_char ":"%char ip then
    let parts := split_on ":"%char ip in
    if (4 <=? length parts)%nat then join ":" (take 4 parts) +:+ "::/64"
    else ip +:+ "/64"
  else ip.

(** ** The session container: state *)

(** A reference to an [InMemoryStorage] object: its position in [mem]. *)
Abbreviation loc := nat.

(** A heap entry, the list [[priority, obj_id, data, index, client_ip]] of
    line 574. *)
Record item : Type := Item {
  it_priority : Z;
  it_obj_id : string;
  it_data : option loc;
  it_index : nat;
  it_client_ip : option string
}.

(** The attributes of [_StorageContainer] (lines 558-565), together with
    [mem], the [InMemoryStorage] objects allocated so far: entries hold them
    by reference, so two entries may share one.  In isolation-disabled mode
    the source keeps its single storage in [heap[0]]; here it is the field
    [shared], and [heap] holds the session entries only.  So [heap] is the
    array of the source exactly when [shared] is [None]: with the storage in
    [heap[0]] the source's [_pop] raises [TypeError] at line 585, and the
    statements below about [pop] and [save_data] are made for containers
    with [shared = None]. *)
Record container : Type := Container {
  DISABLE_ISOLATION_MODE : bool;
  MAX_SESSIONS : Z;
  heap : list item;
  index_map : gmap string nat;
  jwt_to_session : gmap string string;
  jwt_to_session_order : list string;
  ip_to_sessions : gmap string (list string);
  shared : option loc;
  mem : list InMemoryStorage
}.

Definition set_heap (h : list item) (c : container) : container :=
  Container (DISABLE_ISOLATION_MODE c) (MAX_SESSIONS c) h (index_map c)
    (jwt_to_session c) (jwt_to_session_order c) (ip_to_sessions c) (shared c) (mem c).

Definition set_index_map (im : gmap string nat) (c : container) : container :=
  Container (DISABLE_ISOLATION_MODE c) (MAX_SESSIONS c) (heap c) im
    (jwt_to_session c) (jwt_to_session_order c) (ip_to_sessions c) (shared c) (mem c).

Definition set_jwt_to_session (j : gmap string string) (c : container) : container :=
  Container (DISABLE_ISOLATION_MODE c) (MAX_SESSIONS c) (heap c) (index_map c)
    j (jwt_to_session_order c) (ip_to_sessions c) (shared c) (mem c).

Definition set_jwt_to_session_order (o : list string) (c : container) : container :=
  Container (DISABLE_ISOLATION_MODE c) (MAX_SESSIONS c) (heap c) (index_map c)
    (jwt_to_session c) o (ip_to_sessions c) (shared c) (mem c).

Definition set_ip_to_sessions (m : gmap string (list string)) (c : container) : container :=
  Container (DISABLE_ISOLATION_MODE c) (MAX_SESSIONS c) (heap c) (index_map c)
    (jwt_to_session c) (jwt_to_session_order c) m (shared c) (mem c).

Definition set_shared (s : option loc) (c : container) : container :=
  Container (DISABLE_ISOLATION_MODE c) (MAX_SESSIONS c) (heap c) (index_map c)
    (jwt_to_session c) (jwt_to_session_order c) (ip_to_sessions c) s (mem c).

Definition set_mem (m : list InMemoryStorage) (c : container) : container :=
  Container (DISABLE_ISOLATION_MODE c) (MAX_SESSIONS c) (heap c) (index_map c)
    (jwt_to_session c) (jwt_to_session_order c) (ip_to_sessions c) (shared c) m.

Definition set_priority (p : Z) (x : item) : item :=
  Item p (it_obj_id x) (it_data x) (it_index x) (it_client_ip x).

Definition set_index (i : nat) (x : item) : item :=
  Item (it_priority x) (it_obj_id x) (it_data x) i (it_client_ip x).

Definition set_client_ip (ip : option string) (x : item) : item :=
  Item (it_priority x) (it_obj_id x) (it_data x) (it_index x) ip.

(** [_StorageContainer.__init__], lines 558-567. *)
Definition init (cfg : config) (disable_isolation_mode : bool) (max_sessions : Z)
  : result container :=
  if MAX_SESSIONS_PER_IP cfg <? 1
  then Raise (ValueError "MAX_SESSIONS_PER_IP: you need at least one")
  else Ok (Container disable_isolation_mode max_sessions [] ∅ ∅ [] ∅ None []).

(** A container as [__init__] leaves it. *)
Definition fresh (disable_isolation_mode : bool) (max_sessions : Z) : container :=
  Container disable_isolation_mode max_sessions [] ∅ ∅ [] ∅ None [].

(** ** The indexed min-heap (lines 571-637) *)

(** [self.heap[k][0]].  Read only at positions inside the array. *)
Definition prio_at (h : list item) (k : nat) : Z :=
  match h !! k with
  | Some x => it_priority x
  | None => 0
  end.

(** [_swap], lines 633-637: the index map is written first ([heap[i]]'s id,
    then [heap[j]]'s), then the entries' own index fields, then the array. *)
Definition _swap (i j : nat) (c : container) : container :=
  match heap c !! i, heap c !! j with
  | Some a, Some b =>
      let im := <[it_obj_id b := i]> (<[it_obj_id a := j]> (index_map c)) in
      let h := <[j := set_index j a]> (<[i := set_index i b]> (heap c)) in
      set_heap h (set_index_map im c)
  | _, _ => c
  end.

(** The loop of [_sift_up], lines 610-616.  [index] strictly decreases, so
    [fuel = index] iterations suffice; with no fuel left [index] is 0 and
    the loop condition fails. *)
Fixpoint _sift_up_loop (fuel : nat) (index : nat) (c : container) : container :=
  match fuel with
  | O => c
  | S fuel' =>
      if (0 <? index)%nat then
        let parent_index := ((index - 1) / 2)%nat in
        if prio_at (heap c) index >=? prio_at (heap c) parent_index then c
        else _sift_up_loop fuel' parent_index (_swap index parent_index c)
      else c
  end.

Definition _sift_up (index : nat) (c : container) : container :=
  _sift_up_loop index index c.

(** The choice of [smallest] in [_sift_down], lines 621-627. *)
Definition smallest_of (h : list item) (index : nat) : nat :=
  let smallest := index in
  let left_child := (2 * index + 1)%nat in
  let right_child := (2 * index + 2)%nat in
  let smallest :=
    if (left_child <? length h)%nat && (prio_at h left_child <? prio_at h smallest)
    then left_child else smallest in
  let smallest :=
    if (right_child <? length h)%nat && (prio_at h right_child <? prio_at h smallest)
    then right_child else smallest in
  smallest.

(** The loop of [_sift_down], lines 618-631.  [index] strictly increases and
    stays inside the array, so [length heap - index] iterations suffice. *)
Fixpoint _sift_down_loop (fuel : nat) (index : nat) (c : container) : container :=
  match fuel with
  | O => c
  | S fuel' =>
      let smallest := smallest_of (heap c) index in
      if (smallest =? index)%nat then c
      else _sift_down_loop fuel' smallest (_swap index smallest c)
  end.

Definition _sift_down (index : nat) (c : container) : container :=
  _sift_down_loop (length (heap c) - index) index c.

(** [_push], lines 571-577. *)
Definition _push (priority : Z) (obj_id : string) (data : option loc)
    (client_ip : option string) (c : container) : container :=
  let index := length (heap c) in
  let item := Item priority obj_id data index client_ip in
  _sift_up index
    (set_index_map (<[obj_id := index]> (index_map c))
       (set_heap (heap c ++ [item]) c)).

(** [_pop], lines 579-594. *)
Definition _pop : M container (option item) := fun c =>
  match heap c with
  | [] => (Ok None, c)
  | root_item :: _ =>
      match index_map c !! it_obj_id root_item with
      | None => (Raise KeyError, c)
      | Some _ =>
          let c1 := set_index_map (delete (it_obj_id root_item) (index_map c)) c in
          if (length (heap c) =? 1)%nat then (Ok (Some root_item), set_heap [] c1)
          else
            match last (heap c) with
            | None => (Ok None, c)
            | Some last_item =>
                let h := take (length (heap c) - 1) (heap c) in
                let h := <[0%nat := set_index 0 last_item]> h in
                let im := <[it_obj_id last_item := 0%nat]> (index_map c1) in
                (Ok (Some root_item),
                 _sift_down 0 (set_index_map im (set_heap h c1)))
            end
      end
  end.

(** [_update_priority], lines 596-606. *)
Definition _update_priority (obj_id : string) (new_priority : Z) : M container unit :=
  fun c =>
  match index_map c !! obj_id with
  | None => (Raise (ValueError "Object not found in heap"), c)
  | Some index =>
      match heap c !! index with
      | None => (Raise IndexError, c)
      | Some x =>
          let old_priority := it_priority x in
          let c1 := set_heap (<[index := set_priority new_priority x]> (heap c)) c in
          if new_priority <? old_priority then (Ok tt, _sift_up index c1)
          else if new_priority >? old_priority then (Ok tt, _sift_down index c1)
          else (Ok tt, c1)
      end
  end.

(** ** Per-address session lists (lines 650-841) *)

(** The value of an optional string known to be truthy. *)
Definition str_of (o : option string) : string := default "" o.

(** [_handle_client_ip_and_session_eviction], lines 650-695. *)
Definition _handle_client_ip_and_session_eviction (identifier : string)
    (client_ip : option string) : M container unit := fun c =>
  if negb (truthy client_ip) then (Ok tt, c)
  else
    let normalized_ip := _normalize_ip_for_limiting (str_of client_ip) in
    match ip_to_sessions c !! normalized_ip with
    | Some l =>
        let l' := filter (fun e => e ≠ identifier) l in
        match l' with
        | [] => (Ok tt, set_ip_to_sessions (delete normalized_ip (ip_to_sessions c)) c)
        | _ :: _ =>
            (Ok tt, set_ip_to_sessions (<[normalized_ip := l']> (ip_to_sessions c)) c)
        end
    | None => (Ok tt, c)
    end.

(** The loop of lines 722-727, written a second time at lines 823-827: while
    the address's list is over the cap, give its first session priority 0,
    pop the heap's root and drop the list's head.  Each pass that does not
    raise shortens the list by one, so [length list + 1] passes suffice. *)
Fixpoint evict_over_cap (cfg : config) (fuel : nat) (normalized_ip : string)
  : M container unit := fun c =>
  match fuel with
  | O => (Ok tt, c)
  | S fuel' =>
      match ip_to_sessions c !! normalized_ip with
      | None => (Raise KeyError, c)
      | Some l =>
          if Z.of_nat (length l) >? MAX_SESSIONS_PER_IP cfg then
            match l with
            | [] => (Raise IndexError, c)
            | session_id_to_remove :: _ =>
                (_update_priority session_id_to_remove 0 ;;
                 _pop ;;
                 (fun c' =>
                    match ip_to_sessions c' !! normalized_ip with
                    | None => (Raise KeyError, c')
                    | Some l' =>
                        (Ok tt,
                         set_ip_to_sessions
                           (<[normalized_ip := drop 1 l']> (ip_to_sessions c')) c')
                    end) ;;
                 evict_over_cap cfg fuel' normalized_ip) c
            end
          else (Ok tt, c)
      end
  end.

(** [_handle_client_ip_and_session_addition], lines 697-738. *)
Definition _handle_client_ip_and_session_addition (cfg : config)
    (identifier : string) (client_ip : option string) : M container unit := fun c =>
  if negb (truthy client_ip) then (Ok tt, c)
  else
    let normalized_ip := _normalize_ip_for_limiting (str_of client_ip) in
    match ip_to_sessions c !! normalized_ip with
    | None =>
        (Ok tt, set_ip_to_sessions (<[normalized_ip := [identifier]]> (ip_to_sessions c)) c)
    | Some l =>
        let l1 := l ++ [identifier] in
        evict_over_cap cfg (S (length l1)) normalized_ip
          (set_ip_to_sessions (<[normalized_ip := l1]> (ip_to_sessions c)) c)
    end.

(** [_handle_client_ip_and_session_reattribution], lines 794-841.
    [normalized_saved_ip] is the address recorded in the entry, as the caller
    read it. *)
Definition _handle_client_ip_and_session_reattribution (cfg : config)
    (session_id : string) (normalized_saved_ip : option string)
    (normalized_client_ip : string) : M container unit := fun c =>
  match index_map c !! session_id with
  | None => (Raise KeyError, c)
  | Some i =>
      match heap c !! i with
      | None => (Raise IndexError, c)
      | Some x =>
          let c1 := set_heap (<[i := set_client_ip (Some normalized_client_ip) x]> (heap c)) c in
          let ips1 :=
            if truthy normalized_saved_ip then
              match ip_to_sessions c1 !! str_of normalized_saved_ip with
              | Some l =>
                  match filter (fun e => e ≠ session_id) l with
                  | [] => delete (str_of normalized_saved_ip) (ip_to_sessions c1)
                  | l' => <[str_of normalized_saved_ip := l']> (ip_to_sessions c1)
                  end
              | None => ip_to_sessions c1
              end
            else ip_to_sessions c1 in
          let l2 :=
            filter (fun e => e ≠ session_id) (default [] (ips1 !! normalized_client_ip))
            ++ [session_id] in
          evict_over_cap cfg (S (length l2)) normalized_client_ip
            (set_ip_to_sessions (<[normalized_client_ip := l2]> ips1) c1)
      end
  end.

(** [_handle_client_ip_and_session_priority], lines 740-792. *)
Definition _handle_client_ip_and_session_priority (cfg : config)
    (session_id : string) (client_ip : option string) : M container unit := fun c =>
  if negb (truthy client_ip) then (Ok tt, c)
  else
    let normalized_ip := _normalize_ip_for_limiting (str_of client_ip) in
    match index_map c !! session_id with
    | None => (Raise KeyError, c)
    | Some i =>
        match heap c !! i with
        | None => (Raise IndexError, c)
        | Some x =>
            let saved_client_ip := it_client_ip x in
            if bool_decide (saved_client_ip = Some normalized_ip) then
              match ip_to_sessions c !! normalized_ip with
              | None =>
                  (Ok tt,
                   set_ip_to_sessions (<[normalized_ip := [session_id]]> (ip_to_sessions c)) c)
              | Some l =>
                  (Ok tt,
                   set_ip_to_sessions
                     (<[normalized_ip := filter (fun e => e ≠ session_id) l ++ [session_id]]>
                        (ip_to_sessions c)) c)
              end
            else
              _handle_client_ip_and_session_reattribution cfg session_id
                saved_client_ip normalized_ip c
        end
    end.

(** ** The container's public operations (lines 845-958) *)

(** [push], lines 845-848. *)
Definition push (cfg : config) (priority : Z) (session_id : string)
    (data : option loc) (client_ip : option string) : M container unit :=
  modify (_push priority session_id data client_ip) ;;
  _handle_client_ip_and_session_addition cfg session_id client_ip.

(** [pop], lines 850-857. *)
Definition pop : M container (option item) :=
  let* root_item := _pop in
  match root_item with
  | None => ret None
  | Some x =>
      _handle_client_ip_and_session_eviction (it_obj_id x) (it_client_ip x) ;;
      ret (Some x)
  end.

(** [update_priority], lines 859-862. *)
Definition update_priority (cfg : config) (obj_id : string) (new_priority : Z)
    (client_ip : option string) : M container unit :=
  _update_priority obj_id new_priority ;;
  _handle_client_ip_and_session_priority cfg obj_id client_ip.

(** [InMemoryStorage()] as an allocation: the new object's reference. *)
Definition new_storage (cfg : config) : M container loc := fun c =>
  match InMemoryStorage_init cfg with
  | Raise e => (Raise e, c)
  | Ok st => (Ok (length (mem c)), set_mem (mem c ++ [st]) c)
  end.

(** The first half of [get_storage], lines 869-878: the session id the call
    is about.  The cookie's id if there is one; else the id bound to the
    token, taken only if it is in the index map, in which case the order list
    is rewritten; else [uuid], the string [str(uuid.uuid4())] returns. *)
Definition resolve_target (session_id_from_cookie jwt_token : option string)
    (uuid : string) (c : container) : string * container :=
  let '(target_session_id, c) :=
    if negb (truthy session_id_from_cookie) && truthy jwt_token then
      match jwt_to_session c !! str_of jwt_token with
      | Some session_id_from_token =>
          if truthy (Some session_id_from_token)
             && bool_decide (is_Some (index_map c !! session_id_from_token))
          then
            (Some session_id_from_token,
             set_jwt_to_session_order
               (filter (fun e => e ≠ session_id_from_token) (jwt_to_session_order c)
                ++ [str_of jwt_token]) c)
          else (session_id_from_cookie, c)
      | None => (session_id_from_cookie, c)
      end
    else (session_id_from_cookie, c) in
  (if truthy target_session_id then str_of target_session_id else uuid, c).

(** The second half of [get_storage], lines 879-914: create the session
    [target_session_id] if the index map does not have it, touch it if it
    does.  [now] is the value [time_ns()] returns in this call. *)
Definition get_or_create (cfg : config) (target_session_id : string)
    (client_ip : option string) (now : Z)
  : M container (option string * option loc) := fun c =>
  match index_map c !! target_session_id with
  | None =>
      ((if Z.of_nat (size (index_map c)) >=? MAX_SESSIONS c
        then pop ;; ret tt else ret tt) ;;
       let* st := new_storage cfg in
       push cfg now target_session_id (Some st) client_ip ;;
       (fun c' =>
          match index_map c' !! target_session_id with
          | None => (Raise TypeError, c')
          | Some i =>
              match heap c' !! i with
              | None => (Raise IndexError, c')
              | Some x => (Ok (Some target_session_id, it_data x), c')
              end
          end)) c
  | Some storage_container_index =>
      match heap c !! storage_container_index with
      | None => (Raise IndexError, c)
      | Some x =>
          let r := it_data x in
          (update_priority cfg target_session_id now client_ip ;;
           ret (Some target_session_id, r)) c
      end
  end.

(** [get_storage], lines 864-914. *)
Definition get_storage (cfg : config) (session_id_from_cookie : option string)
    (client_ip : option string) (jwt_token : option string) (now : Z) (uuid : string)
  : M container (option string * option loc) := fun c =>
  if DISABLE_ISOLATION_MODE c then
    match shared c with
    | Some l => (Ok (None, Some l), c)
    | None =>
        (let* l := new_storage cfg in
         modify (set_shared (Some l)) ;;
         ret (None, Some l)) c
    end
  else
    let '(target_session_id, c1) :=
      resolve_target session_id_from_cookie jwt_token uuid c in
    get_or_create cfg target_session_id client_ip now c1.

(** The test of line 929 on one user record; a missing field is a
    [KeyError]. *)
Definition user_matches (email hashed_password : string) (user : obj) : result bool :=
  match user !! "email" with
  | None => Raise KeyError
  | Some e =>
      if String.eqb e email then
        match user !! "password" with
        | None => Raise KeyError
        | Some p => Ok (String.eqb p hashed_password)
        end
      else Ok false
  end.

(** The inner loop of [find_session_by_credentials], lines 928-938: does some
    user of the store match?  On a match the log call of line 930 reads
    [user["id"]] before the function returns. *)
Fixpoint any_user_matches (email hashed_password : string) (us : list obj)
  : result bool :=
  match us with
  | [] => Ok false
  | u :: us' =>
      match user_matches email hashed_password u with
      | Raise e => Raise e
      | Ok true =>
          match u !! "id" with
          | None => Raise KeyError
          | Some _ => Ok true
          end
      | Ok false => any_user_matches email hashed_password us'
      end
  end.

(** The outer loop of [find_session_by_credentials], lines 925-939, over the
    heap array in array order. *)
Fixpoint find_in_items (m : list InMemoryStorage) (email hashed_password : string)
    (items : list item) : result (option (string * loc)) :=
  match items with
  | [] => Ok None
  | heap_item :: rest =>
      match it_data heap_item with
      | None => Raise AttributeError
      | Some l =>
          match m !! l with
          | None => Raise AttributeError
          | Some storage =>
              match any_user_matches email hashed_password
                      (dict_values (InMemoryModel.objects (users storage))) with
              | Raise e => Raise e
              | Ok true => Ok (Some (it_obj_id heap_item, l))
              | Ok false => find_in_items m email hashed_password rest
              end
          end
      end
  end.

(** [find_session_by_credentials], lines 916-939.  [None] stands for the
    pair [(None, None)]. *)
Definition find_session_by_credentials (email hashed_password : string)
    (c : container) : result (option (string * loc)) :=
  if DISABLE_ISOLATION_MODE c then Ok None
  else find_in_items (mem c) email hashed_password (heap c).

(** The set [jwt_tokens_to_remove] of lines 950-952. *)
Definition jwt_tokens_to_remove (jwt_token session_id : string) (c : container)
  : result (gset string) :=
  let by_key : gset string :=
    dom (filter (fun ts => ts.1 = jwt_token ∨ ts.2 = session_id) (jwt_to_session c)) in
  if Z.of_nat (length (jwt_to_session_order c)) >=? MAX_SESSIONS c then
    match jwt_to_session_order c with
    | [] => Raise IndexError
    | oldest :: _ => Ok (by_key ∪ {[oldest]})
    end
  else Ok by_key.

(** [bind_jwt_to_session_id], lines 941-958.  When a token to delete is not a
    key of [jwt_to_session] the [del] of line 955 raises; the order list has
    been rewritten by then, and the state recorded here is the one after the
    other deletions (the set is visited in no fixed order). *)
Definition bind_jwt_to_session_id (jwt_token session_id : string) : M container unit :=
  fun c =>
  if DISABLE_ISOLATION_MODE c then (Ok tt, c)
  else
    match jwt_tokens_to_remove jwt_token session_id c with
    | Raise e => (Raise e, c)
    | Ok to_remove =>
        let order := filter (fun t => t ∉ to_remove) (jwt_to_session_order c) in
        let table := filter (fun ts => ts.1 ∉ to_remove) (jwt_to_session c) in
        if bool_decide (to_remove ⊆ dom (jwt_to_session c)) then
          (Ok tt,
           set_jwt_to_session_order (order ++ [jwt_token])
             (set_jwt_to_session (<[jwt_token := session_id]> table) c))
        else
          (Raise KeyError,
           set_jwt_to_session_order order (set_jwt_to_session table c))
    end.

(** ** Snapshot (lines 964-1032) *)

(** What [save_data] keeps of a popped entry (line 987). *)
Record saved_item : Type := Saved {
  sv_priority : Z;
  sv_session_id : string;
  sv_storage : option loc;
  sv_client_ip : option string
}.

Definition saved_of (x : item) : saved_item :=
  Saved (it_priority x) (it_obj_id x) (it_data x) (it_client_ip x).

(** The loop of lines 983-1008: pop until the heap is empty, recording each
    entry and the contents of its storage under its session id.  Each pop
    that returns shortens the heap by one, so [length heap] passes suffice. *)
Fixpoint drain (fuel : nat) (saved_items : list saved_item)
    (data : gmap string InMemoryStorage)
  : M container (list saved_item * gmap string InMemoryStorage) := fun c =>
  match fuel with
  | O => (Ok (saved_items, data), c)
  | S fuel' =>
      match heap c with
      | [] => (Ok (saved_items, data), c)
      | _ :: _ =>
          (let* heap_item := pop in
           match heap_item with
           | None => drain fuel' saved_items data
           | Some x =>
               fun c' =>
                 match it_data x with
                 | None => (Raise AttributeError, c')
                 | Some l =>
                     match mem c' !! l with
                     | None => (Raise AttributeError, c')
                     | Some storage =>
                         drain fuel' (saved_items ++ [saved_of x])
                           (<[it_obj_id x := storage]> data) c'
                     end
                 end
           end) c
      end
  end.

(** The loop of lines 1009-1010. *)
Fixpoint repush (cfg : config) (saved_items : list saved_item) : M container unit :=
  match saved_items with
  | [] => ret tt
  | s :: rest =>
      push cfg (sv_priority s) (sv_session_id s) (sv_storage s) (sv_client_ip s) ;;
      repush cfg rest
  end.

(** [save_data], lines 964-1032, on the container it is given.
    [data_file_path] tells whether [DATA_FILE_PATH] is configured and
    [write_ok] whether opening and writing the file succeeds.  The result is
    the returned flag and, when the write succeeded, what was written. *)
Definition save_data (cfg : config) (data_file_path : bool) (write_ok : bool)
  : M container (bool * option (gmap string InMemoryStorage)) :=
  if negb data_file_path then ret (false, None)
  else
    fun c =>
      (let* drained := drain (length (heap c)) [] ∅ in
       repush cfg drained.1 ;;
       if write_ok then ret (true, Some drained.2) else ret (false, None)) c.

(** ** Sequences of calls on the bounded stores *)

(** A call on an [InMemoryLinks] object. *)
Inductive link_op : Type :=
| LAdd (source target : pyval)
| LRemove (source target : pyval)
| LDeleteSource (source : pyval)
| LDeleteTarget (target : pyval).

Definition run_link_op (max_id_len : Z) (op : link_op) : M InMemoryLinks.t unit :=
  match op with
  | LAdd s t => InMemoryLinks.add max_id_len s t
  | LRemove s t => InMemoryLinks.remove max_id_len s t
  | LDeleteSource s => InMemoryLinks.delete_source max_id_len s
  | LDeleteTarget t => InMemoryLinks.delete_target max_id_len t
  end.

(** The object after a sequence of calls; a call that raises leaves the
    object as it is at the exception and the next call goes on from there. *)
Fixpoint run_link_ops (max_id_len : Z) (ops : list link_op) (self : InMemoryLinks.t)
  : InMemoryLinks.t :=
  match ops with
  | [] => self
  | op :: ops' => run_link_ops max_id_len ops' (state_after (run_link_op max_id_len op self))
  end.

(** [add] called on each record in turn, stopping at the first exception;
    the result lists the records as [add] returned them. *)
Fixpoint add_all (max_id_len : Z) (os : list obj) : M InMemoryModel.t (list obj) :=
  match os with
  | [] => ret []
  | o :: os' =>
      let* r := InMemoryModel.add max_id_len o in
      let* rs := add_all max_id_len os' in
      ret (r :: rs)
  end.

(** An [InMemoryModel] as [__init__] leaves it. *)
Definition fresh_model (max_count : Z) : InMemoryModel.t :=
  InMemoryModel.Build max_count [] [] 1.

(** The ["id"] field of a record [add] returned. *)
Definition id_of (o : obj) : option string := o !! "id".

(** The store holds exactly the ids of the counter values [lo], ...,
    [lo + w - 1], oldest first, and the counter stands at [lo + w]. *)
Definition window (st : InMemoryModel.t) (lo w : Z) : Prop :=
  dict_keys (InMemoryModel.objects st) = str_of_int <$> seqZ lo w
  /\ InMemoryModel.last_accessed_ids st = str_of_int <$> seqZ lo w
  /\ InMemoryModel.current_id_counter st = lo + w.

(** ** The token table: the binding operation as described

    [bind_as_specified] follows the wording of the specification: remove the
    bindings of the token and of the session, then, if the table is still at
    or over the cap, evict the oldest token that is left, then insert. *)
Definition bind_as_specified (jwt_token session_id : string) (c : container)
  : container :=
  let removed : gset string :=
    dom (filter (fun ts => ts.1 = jwt_token ∨ ts.2 = session_id) (jwt_to_session c)) in
  let table1 :=
    filter (fun ts => ¬ (ts.1 = jwt_token ∨ ts.2 = session_id)) (jwt_to_session c) in
  let order1 := filter (fun t => t ∉ removed) (jwt_to_session_order c) in
  let '(table2, order2) :=
    if Z.of_nat (size table1) >=? MAX_SESSIONS c then
      match order1 with
      | [] => (table1, order1)
      | oldest :: rest => (delete oldest table1, rest)
      end
    else (table1, order1) in
  set_jwt_to_session_order (order2 ++ [jwt_token])
    (set_jwt_to_session (<[jwt_token := session_id]> table2) c).

(** What [bind_jwt_to_session_id] removes: the bindings of the token and of
    the session ... *)
Definition bind_removes (jwt_token session_id : string) (c : container) (t : string)
  : Prop :=
  is_Some (jwt_to_session c !! t)
  ∧ (t = jwt_token ∨ jwt_to_session c !! t = Some session_id).

(** ... and the head of the order list when that list, as the call finds
    it, is at or over the cap. *)
Definition bind_evicts (c : container) (t : string) : Prop :=
  MAX_SESSIONS c ≤ Z.of_nat (length (jwt_to_session_order c))
  ∧ head (jwt_to_session_order c) = Some t.

#[global] Instance bind_removes_dec (jwt_token session_id : string) (c : container)
  (t : string) : Decision (bind_removes jwt_token session_id c t).
Proof. unfold bind_removes. apply _. Defined.

#[global] Instance bind_evicts_dec (c : container) (t : string) :
  Decision (bind_evicts c t).
Proof. unfold bind_evicts. apply _. Defined.

(** ** Invariants of the indexed heap *)

(** The min-heap order, in the form the tests check it
    ([_verify_heap_property]): an entry is no larger than its children. *)
Definition heap_ordered (h : list item) : Prop :=
  forall (i j : nat) (x y : item),
    h !! i = Some x -> h !! j = Some y ->
    (j = 2 * i + 1 \/ j = 2 * i + 2)%nat ->
    it_priority x <= it_priority y.

(** The index map and the entries' own index fields agree with the array
    ([_verify_index_consistency]): every entry is found through its id at
    its position, and the index map names nothing else. *)
Definition index_consistent (c : container) : Prop :=
  (forall (i : nat) (x : item),
     heap c !! i = Some x ->
     index_map c !! it_obj_id x = Some i /\ it_index x = i)
  /\ (forall (k : string) (i : nat),
        index_map c !! k = Some i ->
        exists x, heap c !! i = Some x /\ it_obj_id x = k).

Definition heap_inv (c : container) : Prop :=
  heap_ordered (heap c) /\ index_consistent c.

(** The order holds except between position [k] and its parent; the parent
    of [k] is no larger than the children of [k]. *)
Definition ordered_but_up (h : list item) (k : nat) : Prop :=
  (forall (i j : nat) (x y : item),
     h !! i = Some x -> h !! j = Some y ->
     (j = 2 * i + 1 \/ j = 2 * i + 2)%nat -> j ≠ k ->
     it_priority x <= it_priority y)
  /\ (forall (p j : nat) (x y : item),
        h !! p = Some x -> h !! j = Some y ->
        (k = 2 * p + 1 \/ k = 2 * p + 2)%nat ->
        (j = 2 * k + 1 \/ j = 2 * k + 2)%nat ->
        it_priority x <= it_priority y).

(** The order holds except between position [k] and its children; the
    parent of [k] is no larger than the children of [k]. *)
Definition ordered_but_down (h : list item) (k : nat) : Prop :=
  (forall (i j : nat) (x y : item),
     h !! i = Some x -> h !! j = Some y ->
     (j = 2 * i + 1 \/ j = 2 * i + 2)%nat -> i ≠ k ->
     it_priority x <= it_priority y)
  /\ (forall (p j : nat) (x y : item),
        h !! p = Some x -> h !! j = Some y ->
        (k = 2 * p + 1 \/ k = 2 * p + 2)%nat ->
        (j = 2 * k + 1 \/ j = 2 * k + 2)%nat ->
        it_priority x <= it_priority y).

(** The sessions a container holds, by id: priority, payload reference and
    client address of the entry the index map leads to. *)
Definition sessions (c : container) : gmap string saved_item :=
  omap (fun i => saved_of <$> heap c !! i) (index_map c).

(** The attributes no heap operation touches. *)
Definition same_frame (c c' : container) : Prop :=
  DISABLE_ISOLATION_MODE c' = DISABLE_ISOLATION_MODE c
  /\ MAX_SESSIONS c' = MAX_SESSIONS c
  /\ jwt_to_session c' = jwt_to_session c
  /\ jwt_to_session_order c' = jwt_to_session_order c
  /\ ip_to_sessions c' = ip_to_sessions c
  /\ shared c' = shared c
  /\ mem c' = mem c.

(** ** Sequences of queue operations *)

(** A call on the priority queue: the heap operations proper ([_push],
    [_pop], [_update_priority]) and the public ones built on them, which also
    keep the address lists. *)
Inductive pq_op : Type :=
| Op_push (priority : Z) (obj_id : string) (data : option loc) (client_ip : option string)
| Op_pop
| Op_update_priority (obj_id : string) (new_priority : Z)
| OpPush (priority : Z) (session_id : string) (data : option loc) (client_ip : option string)
| OpPop
| OpUpdatePriority (obj_id : string) (new_priority : Z) (client_ip : option string).

(** The container after a call, whether it returned or raised. *)
Definition run_pq_op (cfg : config) (op : pq_op) (c : container) : container :=
  match op with
  | Op_push p k d ip => _push p k d ip c
  | Op_pop => state_after (_pop c)
  | Op_update_priority k p => state_after (_update_priority k p c)
  | OpPush p k d ip => state_after (push cfg p k d ip c)
  | OpPop => state_after (pop c)
  | OpUpdatePriority k p ip => state_after (update_priority cfg k p ip c)
  end.

Fixpoint run_pq_ops (cfg : config) (ops : list pq_op) (c : container) : container :=
  match ops with
  | [] => c
  | op :: ops' => run_pq_ops cfg ops' (run_pq_op cfg op c)
  end.

(** A push is given an id the index map does not hold at that moment (the
    guard of [get_storage], line 880). *)
Definition pq_op_ok (op : pq_op) (c : container) : Prop :=
  match op with
  | Op_push _ k _ _ | OpPush _ k _ _ => index_map c !! k = None
  | _ => True
  end.

Fixpoint pushes_fresh (cfg : config) (ops : list pq_op) (c : container) : Prop :=
  match ops with
  | [] => True
  | op :: ops' => pq_op_ok op c /\ pushes_fresh cfg ops' (run_pq_op cfg op c)
  end.

(** A computation keeps a property of the container, also when it raises. *)
Definition preserves {A : Type} (P : container -> Prop) (m : M container A) : Prop :=
  forall c, P c -> P (state_after (m c)).

(** The attributes that neither the heap operations nor the address
    handlers touch. *)
Definition same_rest (c c' : container) : Prop :=
  DISABLE_ISOLATION_MODE c' = DISABLE_ISOLATION_MODE c
  /\ MAX_SESSIONS c' = MAX_SESSIONS c
  /\ jwt_to_session c' = jwt_to_session c
  /\ jwt_to_session_order c' = jwt_to_session_order c
  /\ shared c' = shared c
  /\ mem c' = mem c.

(** Reduce the projections of a container built by the setters. *)
Ltac proj_simpl :=
  cbn [heap index_map ip_to_sessions mem jwt_to_session jwt_to_session_order
       shared DISABLE_ISOLATION_MODE MAX_SESSIONS set_heap set_index_map
       set_ip_to_sessions set_mem set_jwt_to_session set_jwt_to_session_order
       set_shared fresh].

(** ** Users in a session's store *)

(** [storage.users.add(user)] on the storage object at reference [l], as the
    registration handler calls it (line 1517). *)
Definition add_user (cfg : config) (l : loc) (user : obj) : M container obj := fun c =>
  match mem c !! l with
  | None => (Raise AttributeError, c)
  | Some st =>
      let '(r, u') := InMemoryModel.add (MAX_ID_LEN cfg) user (users st) in
      (r, set_mem (<[l := BuildStorage u' (articles st) (comments st)
                            (follows st) (favorites st)]> (mem c)) c)
  end.

(** The store holds a user with these credentials. *)
Definition has_user (email hashed_password : string) (st : InMemoryStorage) : Prop :=
  exists u, u ∈ dict_values (InMemoryModel.objects (users st))
            /\ u !! "email" = Some email /\ u !! "password" = Some hashed_password.

(** Every user record of the store has the fields the scan reads. *)
Definition users_have_credentials (st : InMemoryStorage) : Prop :=
  forall u, u ∈ dict_values (InMemoryModel.objects (users st)) ->
            is_Some (u !! "email") /\ is_Some (u !! "password")
            /\ is_Some (u !! "id").

(** Every session carries a storage object, whose users have credentials. *)
Definition stores_ok (c : container) : Prop :=
  forall k s, sessions c !! k = Some s ->
    exists l st, sv_storage s = Some l /\ mem c !! l = Some st
                 /\ users_have_credentials st.

(** ** The address lists after an eviction *)

(** What [_handle_client_ip_and_session_eviction] makes of the address
    lists. *)
Definition ips_remove (identifier : string) (client_ip : option string)
    (ips : gmap string (list string)) : gmap string (list string) :=
  if negb (truthy client_ip) then ips
  else
    let normalized_ip := _normalize_ip_for_limiting (str_of client_ip) in
    match ips !! normalized_ip with
    | Some l =>
        match filter (fun e => e ≠ identifier) l with
        | [] => delete normalized_ip ips
        | l' => <[normalized_ip := l']> ips
        end
    | None => ips
    end.

(** ** The container as [save_data] expects it *)

(** The saved entries put back into a session map, the first one last. *)
Definition insert_all (saved_items : list saved_item) (m : gmap string saved_item)
  : gmap string saved_item :=
  foldr (fun s m => <[sv_session_id s := s]> m) m saved_items.

(** The length of the list kept for a normalized address, 0 without one. *)
Definition len_at (normalized_ip : string) (ips : gmap string (list string)) : nat :=
  length (default [] (ips !! normalized_ip)).

(** The entry counts against the list of this normalized address. *)
Definition in_class (normalized_ip : string) (client_ip : option string) : bool :=
  truthy client_ip
  && bool_decide (_normalize_ip_for_limiting (str_of client_ip) = normalized_ip).

Fixpoint class_count (normalized_ip : string) (saved_items : list saved_item) : nat :=
  match saved_items with
  | [] => 0
  | s :: rest =>
      ((if in_class normalized_ip (sv_client_ip s) then 1 else 0)
       + class_count normalized_ip rest)%nat
  end.

(** Every session carries a storage object (the payload [push] is given by
    [get_storage] and by the login handler). *)
Definition payloads_present (c : container) : Prop :=
  map_Forall (fun _ s => is_Some (sv_storage s ≫= fun l => mem c !! l)) (sessions c).

(** Every session with a client address is in the list kept for its
    normalized address. *)
Definition addresses_listed (c : container) : Prop :=
  map_Forall
    (fun k s =>
       truthy (sv_client_ip s) = true ->
       k ∈ default [] (ip_to_sessions c
                         !! _normalize_ip_for_limiting (str_of (sv_client_ip s))))
    (sessions c).

(** No address list is longer than [MAX_SESSIONS_PER_IP]. *)
Definition addresses_within (cfg : config) (c : container) : Prop :=
  map_Forall (fun _ l => Z.of_nat (length l) <= MAX_SESSIONS_PER_IP cfg)
    (ip_to_sessions c).

#[global] Instance payloads_present_dec (c : container) : Decision (payloads_present c).
Proof. unfold payloads_present. apply _. Defined.

#[global] Instance addresses_listed_dec (c : container) : Decision (addresses_listed c).
Proof. unfold addresses_listed. apply _. Defined.

#[global] Instance addresses_within_dec (cfg : config) (c : container) :
  Decision (addresses_within cfg c).
Proof. unfold addresses_within. apply _. Defined.

(** ** Sequences of calls on the object store *)

(** A call on an [InMemoryModel] object. *)
Inductive model_op : Type :=
| MAdd (o : obj)
| MGet (_id : pyval)
| MDelete (_id : pyval).

(** What such a call returns: the stored record, the record found or
    [None], or the flag of [delete]. *)
Inductive model_ret : Type :=
| RObj (o : obj)
| ROpt (o : option obj)
| RBool (b : bool).

Definition run_model_op (max_id_len : Z) (op : model_op)
  : M InMemoryModel.t model_ret :=
  match op with
  | MAdd o => let* r := InMemoryModel.add max_id_len o in ret (RObj r)
  | MGet _id => let* r := InMemoryModel.get max_id_len _id in ret (ROpt r)
  | MDelete _id => let* r := InMemoryModel.delete max_id_len _id in ret (RBool r)
  end.

(** The object after a sequence of calls; a call that raises leaves the
    object as it is at the exception and the next call goes on from there. *)
Fixpoint run_model_ops (max_id_len : Z) (ops : list model_op)
    (self : InMemoryModel.t) : InMemoryModel.t :=
  match ops with
  | [] => self
  | op :: ops' =>
      run_model_ops max_id_len ops' (state_after (run_model_op max_id_len op self))
  end.

(** The store is consistent: at most [max_count] records, each key once, the
    access-order list naming exactly the keys, and every key the decimal
    rendering of a counter value already passed. *)
Definition model_ok (self : InMemoryModel.t) : Prop :=
  0 < InMemoryModel.max_count self
  /\ 1 <= InMemoryModel.current_id_counter self
  /\ Z.of_nat (length (InMemoryModel.objects self)) <= InMemoryModel.max_count self
  /\ NoDup (dict_keys (InMemoryModel.objects self))
  /\ dict_keys (InMemoryModel.objects self) ≡ₚ InMemoryModel.last_accessed_ids self
  /\ forall k, k ∈ dict_keys (InMemoryModel.objects self) ->
               exists n, k = str_of_int n
                         /\ 1 <= n < InMemoryModel.current_id_counter self.

(** ** Queries on the relation store *)

(** [InMemoryLinks.targets_for_source], lines 521-522.  As in
    [delete_source], [normalize_id] is evaluated once per element of the
    comprehension, so an empty list never raises. *)
Definition targets_for_source (MAX_ID_LEN : Z) (wanted_source : pyval)
    (self : InMemoryLinks.t) : result (list string) :=
  match InMemoryLinks.links self with
  | [] => Ok []
  | _ :: _ =>
      match normalize_id MAX_ID_LEN wanted_source with
      | Raise e => Raise e
      | Ok s => Ok ((filter (fun st => st.1 = s) (InMemoryLinks.links self)).*2)
      end
  end.

(** [InMemoryLinks.sources_for_target], lines 524-525. *)
Definition sources_for_target (MAX_ID_LEN : Z) (wanted_target : pyval)
    (self : InMemoryLinks.t) : result (list string) :=
  match InMemoryLinks.links self with
  | [] => Ok []
  | _ :: _ =>
      match normalize_id MAX_ID_LEN wanted_target with
      | Raise e => Raise e
      | Ok s => Ok ((filter (fun st => st.2 = s) (InMemoryLinks.links self)).*1)
      end
  end.

(** The relation store is consistent: no link twice, at most [max_count]
    links. *)
Definition links_ok (self : InMemoryLinks.t) : Prop :=
  NoDup (InMemoryLinks.links self)
  /\ Z.of_nat (length (InMemoryLinks.links self)) <= InMemoryLinks.max_count self.

(** ** Sequences of [get_storage] calls *)

(** One request as the WSGI entry point hands it to [get_storage]
    (line 1243): the cookie's session id, the client address, the bearer
    token, and the values [time_ns()] and [str(uuid.uuid4())] return in this
    call. *)
Record gs_call : Type := GsCall {
  gs_cookie : option string;
  gs_client_ip : option string;
  gs_jwt_token : option string;
  gs_now : Z;
  gs_uuid : string
}.

Definition run_gs_call (cfg : config) (r : gs_call) (c : container) : container :=
  state_after (get_storage cfg (gs_cookie r) (gs_client_ip r) (gs_jwt_token r)
                 (gs_now r) (gs_uuid r) c).

(** The container after a sequence of calls; a call that raises leaves the
    container as it is at the exception and the next call goes on from
    there. *)
Fixpoint run_gs_calls (cfg : config) (rs : list gs_call) (c : container) : container :=
  match rs with
  | [] => c
  | r :: rs' => run_gs_calls cfg rs' (run_gs_call cfg r c)
  end.

(** The queue is a heap of at most [B] sessions, under the global cap [M]. *)
Definition sessions_at_most (B : nat) (M : Z) (c : container) : Prop :=
  heap_inv c /\ MAX_SESSIONS c = M /\ (size (sessions c) <= B)%nat.

(** The queue is a heap and no address is kept with an empty list. *)
Definition no_empty_list (c : container) : Prop :=
  heap_inv c /\ map_Forall (fun _ l => l ≠ []) (ip_to_sessions c).

(** ** The address quota, for addresses that are their own key *)

(** No address, or an address [_normalize_ip_for_limiting] leaves as it is
    (an IPv4 address). *)
Definition plain_ip (client_ip : option string) : Prop :=
  truthy client_ip = true ->
  _normalize_ip_for_limiting (str_of client_ip) = str_of client_ip.

(** What [_handle_client_ip_and_session_addition] makes of the address
    lists when the list has room. *)
Definition ips_add (identifier : string) (client_ip : option string)
    (ips : gmap string (list string)) : gmap string (list string) :=
  if negb (truthy client_ip) then ips
  else
    let normalized_ip := _normalize_ip_for_limiting (str_of client_ip) in
    <[normalized_ip := default [] (ips !! normalized_ip) ++ [identifier]]> ips.

(** The sessions [S] and the address lists [I] agree: priorities are
    positive and addresses plain; every list is non-empty, without repeats,
    within the cap, and names sessions of its address; and every session with
    an address is in the list of its address. *)
Definition quota_ok (cfg : config) (S : gmap string saved_item)
    (I : gmap string (list string)) : Prop :=
  (forall k s, S !! k = Some s -> 0 < sv_priority s /\ plain_ip (sv_client_ip s))
  /\ (forall N l, I !! N = Some l ->
        l ≠ [] /\ NoDup l /\ Z.of_nat (length l) <= MAX_SESSIONS_PER_IP cfg
        /\ forall k, k ∈ l ->
             exists s, S !! k = Some s /\ truthy (sv_client_ip s) = true
                       /\ str_of (sv_client_ip s) = N)
  /\ (forall k s, S !! k = Some s -> truthy (sv_client_ip s) = true ->
        k ∈ default [] (I !! str_of (sv_client_ip s))).

Definition quota_inv (cfg : config) (c : container) : Prop :=
  heap_inv c /\ quota_ok cfg (sessions c) (ip_to_sessions c).

(** What a call that handles the session [k] does to the sessions: [k] ends
    as [s2], no other session is changed (some may be gone), and the
    attributes outside the heap and the address lists are as before. *)
Definition touched (k : string) (s2 : saved_item) (c c' : container) : Prop :=
  sessions c' !! k = Some s2
  /\ (forall j s', j ≠ k -> sessions c' !! j = Some s' -> sessions c !! j = Some s')
  /\ same_rest c c'.

(** ** The token table under [bind_jwt_to_session_id] *)

(** The token table and its order list agree: the list has no repeats and
    holds exactly the bound tokens, no session has two tokens, and the list
    is within the global cap. *)
Definition tokens_ok (c : container) : Prop :=
  NoDup (jwt_to_session_order c)
  /\ (forall t, t ∈ jwt_to_session_order c <-> is_Some (jwt_to_session c !! t))
  /\ (forall t t' s, jwt_to_session c !! t = Some s ->
                     jwt_to_session c !! t' = Some s -> t = t')
  /\ Z.of_nat (length (jwt_to_session_order c)) <= MAX_SESSIONS c.

(** A sequence of [bind_jwt_to_session_id] calls, each given as the pair of
    its token and its session id. *)
Fixpoint run_binds (bs : list (string * string)) (c : container) : container :=
  match bs with
  | [] => c
  | (jwt_token, session_id) :: bs' =>
      run_binds bs' (state_after (bind_jwt_to_session_id jwt_token session_id c))
  end.

(** The container is in isolation mode and its heap holds session entries
    only, in heap order. *)
Definition iso_entries (c : container) : Prop :=
  heap_inv c /\ DISABLE_ISOLATION_MODE c = false /\ shared c = None.

(** * Properties *)

(** ** The bounded relation store with capacity 0 *)

Lemma links_add_zero_noop (max_id_len : Z) (source target : pyval)
    (self : InMemoryLinks.t) :
  InMemoryLinks.max_count self = 0 ->
  state_after (InMemoryLinks.add max_id_len source target self) = self.
Proof.
  intros Hz. unfold InMemoryLinks.add, state_after.
  destruct (normalize_id max_id_len source); [|reflexivity].
  destruct (normalize_id max_id_len target); [|reflexivity].
  rewrite Hz. reflexivity.
Qed.

Lemma run_link_op_empty (max_id_len : Z) (op : link_op) (self : InMemoryLinks.t) :
  InMemoryLinks.max_count self = 0 ->
  InMemoryLinks.links self = [] ->
  state_after (run_link_op max_id_len op self) = self.
Proof.
  intros Hz He. destruct op as [s t|s t|s|t]; simpl.
  - by apply links_add_zero_noop.
  - unfold InMemoryLinks.remove, state_after.
    destruct (normalize_id max_id_len s); [|reflexivity].
    destruct (normalize_id max_id_len t); [|reflexivity].
    rewrite He. reflexivity.
  - unfold InMemoryLinks.delete_source, state_after. rewrite He. reflexivity.
  - unfold InMemoryLinks.delete_target, state_after. rewrite He. reflexivity.
Qed.

Lemma run_link_ops_empty (max_id_len : Z) (ops : list link_op) (self : InMemoryLinks.t) :
  InMemoryLinks.max_count self = 0 ->
  InMemoryLinks.links self = [] ->
  run_link_ops max_id_len ops self = self.
Proof.
  intros Hz He. induction ops as [|op ops IH]; simpl; [reflexivity|].
  rewrite run_link_op_empty by assumption. exact IH.
Qed.

(** C9.  An [InMemoryLinks] built with capacity 0 ignores every [add]:
    whatever calls came before and whatever the arguments are (also ones
    [normalize_id] rejects), the call leaves the object as it found it, and
    the list of links is empty before and after. *)
Theorem links_capacity_zero_add_is_noop (max_id_len : Z) (ops : list link_op)
    (source target : pyval) :
  let self := run_link_ops max_id_len ops (InMemoryLinks.init 0) in
  let self' := state_after (InMemoryLinks.add max_id_len source target self) in
  self' = self /\ InMemoryLinks.links self = [] /\ InMemoryLinks.links self' = [].
Proof.
  intros self self'.
  assert (Hs : self = InMemoryLinks.init 0)
    by (apply run_link_ops_empty; reflexivity).
  assert (Hs' : self' = self).
  { apply links_add_zero_noop. rewrite Hs. reflexivity. }
  rewrite Hs', Hs. auto.
Qed.

(** ** Insertion-ordered dictionaries *)

Lemma dict_keys_set_fresh {V : Type} (k : string) (v : V) (d : dict V) :
  k ∉ dict_keys d -> dict_keys (dict_set k v d) = dict_keys d ++ [k].
Proof.
  unfold dict_keys. induction d as [|[k' v'] d IH]; simpl; intros Hk; [reflexivity|].
  rewrite not_elem_of_cons in Hk. destruct Hk as [Hne Hk].
  destruct (decide (k' = k)) as [->|_]; [done|].
  simpl. f_equal. by apply IH.
Qed.

Lemma dict_get_is_Some {V : Type} (k : string) (d : dict V) :
  k ∈ dict_keys d -> is_Some (dict_get k d).
Proof.
  unfold dict_keys. induction d as [|[k' v'] d IH]; simpl; intros Hk.
  - by apply elem_of_nil in Hk.
  - destruct (decide (k' = k)) as [->|Hne]; [eauto|].
    apply elem_of_cons in Hk. destruct Hk as [->|Hk]; [done|]. by apply IH.
Qed.

Lemma dict_keys_del_head {V : Type} (k : string) (ks : list string) (d : dict V) :
  dict_keys d = k :: ks -> dict_keys (dict_del k d) = ks.
Proof.
  unfold dict_keys. destruct d as [|[k' v'] d]; simpl; [done|].
  intros [= -> <-]. by rewrite decide_True.
Qed.

Lemma dict_keys_length {V : Type} (d : dict V) : length (dict_keys d) = length d.
Proof. unfold dict_keys. by rewrite length_fmap. Qed.

(** ** The bounded object store under a sequence of [add] calls *)

Lemma seqZ_one (m : Z) : seqZ m 1 = [m].
Proof. rewrite seqZ_cons by lia. rewrite seqZ_nil by lia. reflexivity. Qed.

Lemma seqZ_snoc (lo w : Z) : 0 <= w -> seqZ lo (w + 1) = seqZ lo w ++ [lo + w].
Proof. intros. rewrite seqZ_app by lia. by rewrite seqZ_one. Qed.

Lemma seqZ_tail_snoc (lo w : Z) :
  0 < w -> seqZ (Z.succ lo) (Z.pred w) ++ [lo + w] = seqZ (lo + 1) w.
Proof.
  intros. replace (seqZ (lo + 1) w) with (seqZ (lo + 1) (Z.pred w + 1)) by (f_equal; lia).
  rewrite seqZ_snoc by lia. replace (Z.succ lo) with (lo + 1) by lia.
  do 2 f_equal. lia.
Qed.

Lemma str_of_int_inj (a b : Z) : str_of_int a = str_of_int b -> a = b.
Proof. unfold str_of_int. apply (inj pretty). Qed.

Lemma add_window (max_id_len N : Z) (o : obj) (st : InMemoryModel.t) (lo w : Z) :
  0 < N -> 0 <= w <= N ->
  InMemoryModel.max_count st = N ->
  window st lo w ->
  Z.of_nat (String.length (str_of_int (lo + w))) <= max_id_len ->
  exists o' st',
    InMemoryModel.add max_id_len o st = (Ok o', st')
    /\ id_of o' = Some (str_of_int (lo + w))
    /\ InMemoryModel.max_count st' = N
    /\ window st' (if w =? N then lo + 1 else lo) (if w =? N then w else w + 1).
Proof.
  intros HN Hw Hmax (Hkeys & Hlast & Hctr) Hlen.
  unfold InMemoryModel.add. rewrite Hctr.
  destruct (Z.gtb_spec (Z.of_nat (String.length (str_of_int (lo + w)))) max_id_len) as [?|_];
    [lia|].
  set (new_id := str_of_int (lo + w)).
  set (o' := <["id" := new_id]> o).
  assert (Hfresh : new_id ∉ dict_keys (InMemoryModel.objects st)).
  { rewrite Hkeys. intros Hin. apply list_elem_of_fmap in Hin.
    destruct Hin as (k & Hk & Hin). apply str_of_int_inj in Hk. subst k.
    apply elem_of_seqZ in Hin. lia. }
  pose proof (dict_keys_set_fresh new_id o' _ Hfresh) as Hkeys1.
  assert (Hlen1 : Z.of_nat (length (dict_set new_id o' (InMemoryModel.objects st))) = w + 1).
  { rewrite <- dict_keys_length, Hkeys1, length_app, Hkeys, length_fmap, length_seqZ.
    simpl. lia. }
  rewrite Hlen1, Hmax.
  destruct (Z.eqb_spec w N) as [HwN|HwN].
  - destruct (Z.gtb_spec (w + 1) N) as [_|?]; [|lia].
    rewrite Hlast. rewrite (seqZ_cons lo w) by lia. simpl.
    assert (Hget : is_Some (dict_get (str_of_int lo) (dict_set new_id o' (InMemoryModel.objects st)))).
    { apply dict_get_is_Some. rewrite Hkeys1, Hkeys, (seqZ_cons lo w) by lia.
      simpl. apply elem_of_cons. by left. }
    destruct Hget as [x Hget]. rewrite Hget.
    eexists _, _. split; [reflexivity|]. split.
    { unfold id_of, o'. by rewrite lookup_insert_eq. }
    split; [reflexivity|]. unfold window; simpl.
    assert (Hseq : seqZ (Z.succ lo) (Z.pred w) ++ [lo + w] = seqZ (lo + 1) w)
      by (apply seqZ_tail_snoc; lia).
    split; [|split; [|lia]].
    + rewrite (dict_keys_del_head (str_of_int lo)
                 (str_of_int <$> seqZ (Z.succ lo) (Z.pred w) ++ [lo + w])).
      * by rewrite Hseq.
      * rewrite Hkeys1, Hkeys, (seqZ_cons lo w) by lia.
        simpl. rewrite fmap_app. reflexivity.
    + rewrite <- Hseq, fmap_app. reflexivity.
  - destruct (Z.gtb_spec (w + 1) N) as [?|_]; [lia|].
    eexists _, _. split; [reflexivity|]. split.
    { unfold id_of, o'. by rewrite lookup_insert_eq. }
    split; [reflexivity|]. unfold window; simpl.
    assert (Hseq : seqZ lo (w + 1) = seqZ lo w ++ [lo + w])
      by (apply seqZ_snoc; lia).
    rewrite Hseq, fmap_app. simpl.
    split; [|split; [|lia]].
    + by rewrite Hkeys1, Hkeys.
    + by rewrite Hlast.
Qed.

Lemma add_all_window (max_id_len N : Z) (os : list obj) :
  0 < N ->
  forall (st : InMemoryModel.t) (lo w : Z),
  0 <= w <= N ->
  InMemoryModel.max_count st = N ->
  window st lo w ->
  (forall k, lo + w <= k < lo + w + Z.of_nat (length os) ->
             Z.of_nat (String.length (str_of_int k)) <= max_id_len) ->
  exists rs st',
    add_all max_id_len os st = (Ok rs, st')
    /\ id_of <$> rs = (fun k => Some (str_of_int k)) <$> seqZ (lo + w) (Z.of_nat (length os))
    /\ InMemoryModel.max_count st' = N
    /\ window st' (lo + w + Z.of_nat (length os) - Z.min (w + Z.of_nat (length os)) N)
                  (Z.min (w + Z.of_nat (length os)) N).
Proof.
  intros HN. induction os as [|o os IH]; intros st lo w Hw Hmax Hwin Hlen.
  - exists [], st. split; [reflexivity|]. split; [reflexivity|].
    split; [assumption|]. change (Z.of_nat (length (@nil obj))) with 0.
    rewrite Z.min_l by lia.
    replace (lo + w + 0 - (w + 0)) with lo by lia.
    replace (w + 0) with w by lia. assumption.
  - destruct (add_window max_id_len N o st lo w HN Hw Hmax Hwin) as (o' & st1 & Hadd & Hid & Hmax1 & Hwin1).
    { apply Hlen. simpl. lia. }
    set (lo1 := if w =? N then lo + 1 else lo) in *.
    set (w1 := if w =? N then w else w + 1) in *.
    assert (Hsum : lo1 + w1 = lo + w + 1).
    { unfold lo1, w1. destruct (Z.eqb_spec w N); lia. }
    assert (Hw1 : 0 <= w1 <= N).
    { unfold w1. destruct (Z.eqb_spec w N); lia. }
    destruct (IH st1 lo1 w1 Hw1 Hmax1 Hwin1) as (rs & st2 & Hall & Hids & Hmax2 & Hwin2).
    { intros k Hk. apply Hlen. simpl length. lia. }
    exists (o' :: rs), st2. split.
    { simpl. unfold bindM at 1. rewrite Hadd. unfold bindM at 1. rewrite Hall. reflexivity. }
    split.
    { rewrite (seqZ_cons (lo + w)) by (simpl length; lia).
      rewrite !fmap_cons, Hid, Hids, Hsum. do 2 f_equal.
      f_equal; simpl length; lia. }
    split; [assumption|].
    replace (Z.min (w + Z.of_nat (length (o :: os))) N)
      with (Z.min (w1 + Z.of_nat (length os)) N).
    2:{ unfold w1. simpl length. destruct (Z.eqb_spec w N); lia. }
    replace (lo + w + Z.of_nat (length (o :: os))) with (lo1 + w1 + Z.of_nat (length os)).
    2:{ simpl length. lia. }
    assumption.
Qed.

(** C6.  On an [InMemoryModel] of capacity [N], [n] successive [add] calls
    from the empty store (each id within [MAX_ID_LEN]) all return; the k-th
    one assigns the decimal rendering of [k], so the ids follow the counter,
    strictly increasing, and no id is assigned twice, evictions or not; the
    store never holds more than [N] records; and it holds exactly the last
    [min n N] ids, its access-order list naming them oldest first: after
    [N + 1] calls the one id evicted is the first, and the list is
    [["2"; ...; str (N + 1)]]. *)
Theorem add_sequence_ids_capacity_eviction (max_id_len N : Z) (os : list obj) :
  0 < N ->
  (forall k, 1 <= k <= Z.of_nat (length os) ->
             Z.of_nat (String.length (str_of_int k)) <= max_id_len) ->
  let n := Z.of_nat (length os) in
  exists rs st,
    add_all max_id_len os (fresh_model N) = (Ok rs, st)
    /\ id_of <$> rs = (fun k => Some (str_of_int k)) <$> seqZ 1 n
    /\ NoDup (id_of <$> rs)
    /\ InMemoryModel.current_id_counter st = n + 1
    /\ Z.of_nat (length (InMemoryModel.objects st)) <= N
    /\ InMemoryModel.last_accessed_ids st
       = str_of_int <$> seqZ (n - Z.min n N + 1) (Z.min n N)
    /\ dict_keys (InMemoryModel.objects st) = InMemoryModel.last_accessed_ids st.
Proof.
  intros HN Hlen n.
  destruct (add_all_window max_id_len N os HN (fresh_model N) 1 0)
    as (rs & st & Hall & Hids & Hmax & Hkeys & Hlast & Hctr).
  - lia.
  - reflexivity.
  - unfold window. rewrite seqZ_nil by lia. repeat split; reflexivity.
  - intros k Hk. apply Hlen. lia.
  - fold n in Hids, Hkeys, Hlast, Hctr.
    replace (1 + 0) with 1 in Hids by lia.
    replace (1 + 0 + n - Z.min (0 + n) N) with (n - Z.min n N + 1) in * by lia.
    replace (0 + n) with n in * by lia.
    exists rs, st. split; [assumption|]. split; [assumption|]. split.
    { rewrite Hids. apply NoDup_fmap_2_strong; [|apply NoDup_seqZ].
      intros a b _ _ [= H]. by apply str_of_int_inj. }
    split; [lia|]. split.
    { rewrite <- dict_keys_length, Hkeys, length_fmap, length_seqZ. lia. }
    split; [assumption|]. by rewrite Hkeys, Hlast.
Qed.

(** The scenario of the specification: capacity 3, four records. *)
Lemma add_sequence_ids_capacity_eviction_witness :
  exists rs st,
    add_all 64 [∅; ∅; ∅; ∅] (fresh_model 3) = (Ok rs, st)
    /\ id_of <$> rs = (fun k => Some (str_of_int k)) <$> seqZ 1 4
    /\ NoDup (id_of <$> rs)
    /\ InMemoryModel.current_id_counter st = 4 + 1
    /\ Z.of_nat (length (InMemoryModel.objects st)) <= 3
    /\ InMemoryModel.last_accessed_ids st
       = str_of_int <$> seqZ (4 - Z.min 4 3 + 1) (Z.min 4 3)
    /\ dict_keys (InMemoryModel.objects st) = InMemoryModel.last_accessed_ids st.
Proof.
  apply (add_sequence_ids_capacity_eviction 64 3 [∅; ∅; ∅; ∅]).
  - lia.
  - intros k Hk. simpl in Hk.
    assert (Hc : k = 1 \/ k = 2 \/ k = 3 \/ k = 4) by lia.
    destruct Hc as [-> | [-> | [-> | ->]]]; vm_compute; discriminate.
Defined.

(** ** The token table: [bind_jwt_to_session_id] *)

Lemma jwt_tokens_to_remove_spec (jwt_token session_id : string) (c : container) :
  0 < MAX_SESSIONS c ->
  exists R : gset string,
    jwt_tokens_to_remove jwt_token session_id c = Ok R
    /\ forall t, t ∈ R <-> bind_removes jwt_token session_id c t \/ bind_evicts c t.
Proof.
  intros Hmax. unfold jwt_tokens_to_remove.
  set (by_key := dom (filter (fun ts : string * string => ts.1 = jwt_token ∨ ts.2 = session_id)
                        (jwt_to_session c))).
  assert (Hkey : forall t, t ∈ by_key <-> bind_removes jwt_token session_id c t).
  { intros t. unfold by_key, bind_removes. rewrite elem_of_dom. split.
    - intros [s Hs]. apply map_lookup_filter_Some in Hs. destruct Hs as [Hs HP].
      simpl in HP. split; [eauto|]. destruct HP as [->| ->]; auto.
    - intros [[s Hs] HP]. exists s. apply map_lookup_filter_Some. split; [done|].
      simpl. destruct HP as [->|HP]; [by left|]. right. congruence. }
  destruct (Z.geb_spec (Z.of_nat (length (jwt_to_session_order c))) (MAX_SESSIONS c)) as [Hge|Hlt].
  - destruct (jwt_to_session_order c) as [|oldest rest] eqn:Hord.
    { simpl in Hge. lia. }
    eexists. split; [reflexivity|]. intros t.
    rewrite elem_of_union, elem_of_singleton, Hkey. unfold bind_evicts.
    rewrite Hord. simpl head. split.
    + intros [?| ->]; [by left|]. right. split; [simpl in *; lia|done].
    + intros [?|[_ [= ->]]]; [by left|by right].
  - exists by_key. split; [reflexivity|]. intros t. rewrite Hkey.
    unfold bind_evicts. split; [by left|]. intros [?|[? _]]; [done|lia].
Qed.




(** ** Token resolution in [get_storage] *)

Lemma get_or_create_returns_target (cfg : config) (target : string)
    (client_ip : option string) (now : Z) (c c' : container)
    (sid : option string) (st : option loc) :
  get_or_create cfg target client_ip now c = (Ok (sid, st), c') -> sid = Some target.
Proof.
  unfold get_or_create, bindM, ret. intros H.
  repeat case_match; simplify_eq; reflexivity.
Qed.

(** C7.  In [get_storage] called with no cookie id and a bearer token
    (isolation enabled): when the token has no binding, or its bound session
    id is not in the index map, the lookup is a miss and not an error: the
    target is the freshly minted id, the container is untouched by the
    lookup, and the call goes on exactly as a call without a token does, so
    any id it returns is the minted one.  Conversely an id the call returns
    that is not the minted one is the token's bound id and was in the index
    map when the call was made. *)
Theorem token_binding_accepted_only_if_live (cfg : config) (c : container)
    (cookie client_ip : option string) (tok : string) (now : Z) (uuid : string) :
  DISABLE_ISOLATION_MODE c = false ->
  truthy cookie = false ->
  ((jwt_to_session c !! tok = None
    \/ exists sid, jwt_to_session c !! tok = Some sid /\ index_map c !! sid = None) ->
   resolve_target cookie (Some tok) uuid c = (uuid, c)
   /\ get_storage cfg cookie client_ip (Some tok) now uuid c
      = get_storage cfg cookie client_ip None now uuid c
   /\ forall sid st c',
        get_storage cfg cookie client_ip (Some tok) now uuid c = (Ok (sid, st), c') ->
        sid = Some uuid)
  /\ (forall sid st c',
        get_storage cfg cookie client_ip (Some tok) now uuid c = (Ok (Some sid, st), c') ->
        sid = uuid
        \/ (jwt_to_session c !! tok = Some sid /\ is_Some (index_map c !! sid))).
Proof.
  intros Hiso Hcookie. split.
  - intros Hmiss.
    assert (Hres : resolve_target cookie (Some tok) uuid c = (uuid, c)).
    { unfold resolve_target. rewrite Hcookie. simpl str_of.
      destruct (negb false && truthy (Some tok)); [|by rewrite Hcookie].
      destruct Hmiss as [Hnone|(sid & Hsome & Hdead)].
      - rewrite Hnone. by rewrite Hcookie.
      - rewrite Hsome, Hdead.
        rewrite (bool_decide_eq_false_2 (is_Some None)) by (by intros [? ?]).
        rewrite andb_false_r. by rewrite Hcookie. }
    assert (Hres0 : resolve_target cookie None uuid c = (uuid, c)).
    { unfold resolve_target. rewrite Hcookie. simpl. by rewrite Hcookie. }
    split; [exact Hres|]. split.
    + unfold get_storage. by rewrite Hiso, Hres, Hres0.
    + intros sid st c'. unfold get_storage. rewrite Hiso, Hres.
      apply get_or_create_returns_target.
  - intros sid st c'. unfold get_storage. rewrite Hiso.
    destruct (resolve_target cookie (Some tok) uuid c) as [t c1] eqn:Hres.
    intros Hrun. apply get_or_create_returns_target in Hrun. injection Hrun as ->.
    revert Hres. unfold resolve_target. rewrite Hcookie. simpl str_of.
    destruct (negb false && truthy (Some tok)).
    + destruct (jwt_to_session c !! tok) as [s|] eqn:Hs.
      * destruct (truthy (Some s) && bool_decide (is_Some (index_map c !! s))) eqn:Hlive.
        -- apply andb_true_iff in Hlive. destruct Hlive as [Ht Hlive].
           apply bool_decide_eq_true_1 in Hlive. rewrite Ht. simpl.
           intros [= <- _]. by right.
        -- rewrite Hcookie. intros [= <- _]. by left.
      * rewrite Hcookie. intros [= <- _]. by left.
    + rewrite Hcookie. intros [= <- _]. by left.
Qed.

(** A stale binding, as in [test_get_storage_with_jwt_token_nonexistent_session]. *)
Lemma token_binding_accepted_only_if_live_witness :
  let c := Container false 3000 [] ∅ {["test_jwt" := "nonexistent_session"]}
             ["test_jwt"] ∅ None [] in
  resolve_target None (Some "test_jwt") "fresh-uuid" c = ("fresh-uuid", c)
  /\ fst (get_storage default_config None None (Some "test_jwt") 1 "fresh-uuid" c)
     = Ok (Some "fresh-uuid", Some 0%nat).
Proof.
  intros c.
  destruct (token_binding_accepted_only_if_live default_config c None None
              "test_jwt" 1 "fresh-uuid") as [Hmiss _]; [reflexivity|reflexivity|].
  destruct Hmiss as (Hres & _ & _).
  { right. exists "nonexistent_session". split; vm_compute; reflexivity. }
  split; [exact Hres | vm_compute; reflexivity].
Defined.

(** ** The token order list under [get_storage] *)

(** C10, at the input where the code breaks it.  A session is created, a
    token is bound to it, and the session is then reached through the token.
    Before the last call the order list has no duplicate and names exactly
    the bound tokens; the call returns, and the order list now holds the
    token twice: line 875 filters the list of tokens by the session id, so
    the token is never taken out before it is appended again. *)
Theorem token_resolution_duplicates_order_entry :
  let c0 := fresh false 3000 in
  let c1 := state_after (get_storage default_config (Some "test_session") None None 1 "u1" c0) in
  let c2 := state_after (bind_jwt_to_session_id "test_jwt" "test_session" c1) in
  let r3 := get_storage default_config None None (Some "test_jwt") 2 "u2" c2 in
  NoDup (jwt_to_session_order c2)
  /\ jwt_to_session_order c2 = ["test_jwt"]
  /\ dom (jwt_to_session c2) = {["test_jwt"]}
  /\ fst r3 = Ok (Some "test_session", Some 0%nat)
  /\ jwt_to_session_order (state_after r3) = ["test_jwt"; "test_jwt"]
  /\ ~ NoDup (jwt_to_session_order (state_after r3)).
Proof.
  intros c0 c1 c2 r3.
  assert (H2 : jwt_to_session_order c2 = ["test_jwt"]) by (vm_compute; reflexivity).
  assert (H3 : jwt_to_session_order (state_after r3) = ["test_jwt"; "test_jwt"])
    by (vm_compute; reflexivity).
  split; [rewrite H2; apply NoDup_singleton|].
  split; [exact H2|].
  split; [vm_compute; reflexivity|].
  split; [vm_compute; reflexivity|].
  split; [exact H3|].
  rewrite H3. intros Hnd. apply NoDup_cons in Hnd. destruct Hnd as [Hnin _].
  apply Hnin. apply elem_of_cons. by left.
Qed.

(** ** Address lists under [get_storage] *)

(** C2, at the input where the code breaks it (cap 1).  A session [s] made
    from one IPv6 address and touched from another /64 stays listed under
    the first address, because the entry records the address as received
    while the lists are keyed by normalized address (lines 754-755, 807).
    A later session from the first address evicts [s] from the heap, which
    leaves [s] listed under the second address; the next session from there
    makes that list too long, the eviction of the dead [s] raises, and the
    list stays at two entries after every later call that returns. *)
Theorem address_list_exceeds_cap_after_reattribution :
  let cfg := Config 1 64 60 20 20 100 100 in
  let a1 := "1:1:1:1:1:1:1:1" in
  let a2 := "2:2:2:2:2:2:2:2" in
  let r1 := get_storage cfg (Some "s") (Some a1) None 1 "" (fresh false 3000) in
  let r2 := get_storage cfg (Some "s") (Some a2) None 2 "" (state_after r1) in
  let r3 := get_storage cfg (Some "u") (Some a1) None 3 "" (state_after r2) in
  let r4 := get_storage cfg (Some "v") (Some a2) None 4 "" (state_after r3) in
  let r5 := get_storage cfg (Some "w") (Some "10.0.0.1") None 5 "" (state_after r4) in
  is_ok (fst r1) = true /\ is_ok (fst r2) = true /\ is_ok (fst r3) = true
  /\ ip_to_sessions (state_after r2) !! "1:1:1:1::/64" = Some ["s"]
  /\ ip_to_sessions (state_after r2) !! "2:2:2:2::/64" = Some ["s"]
  /\ index_map (state_after r3) !! "s" = None
  /\ ip_to_sessions (state_after r3) !! "2:2:2:2::/64" = Some ["s"]
  /\ fst r4 = Raise (ValueError "Object not found in heap")
  /\ fst r5 = Ok (Some "w", Some 3%nat)
  /\ ip_to_sessions (state_after r5) !! "2:2:2:2::/64" = Some ["s"; "v"]
  /\ MAX_SESSIONS_PER_IP cfg = 1.
Proof.
  intros cfg a1 a2 r1 r2 r3 r4 r5.
  repeat split; vm_compute; reflexivity.
Qed.

(** ** The indexed heap: swapping two entries *)

Lemma same_frame_refl (c : container) : same_frame c c.
Proof. by repeat split. Qed.

Lemma same_frame_trans (c1 c2 c3 : container) :
  same_frame c1 c2 -> same_frame c2 c3 -> same_frame c1 c3.
Proof.
  unfold same_frame. intros (?&?&?&?&?&?&?) (?&?&?&?&?&?&?).
  repeat split; congruence.
Qed.

Lemma prio_at_lookup (h : list item) (k : nat) (x : item) :
  h !! k = Some x -> prio_at h k = it_priority x.
Proof. unfold prio_at. by intros ->. Qed.

Lemma swap_frame (i j : nat) (c : container) : same_frame c (_swap i j c).
Proof.
  unfold _swap. repeat case_match; by repeat split.
Qed.

Lemma swap_length (i j : nat) (c : container) :
  length (heap (_swap i j c)) = length (heap c).
Proof.
  unfold _swap. repeat case_match; simpl; by rewrite ?length_insert.
Qed.

Lemma swap_heap_lookup (i j n : nat) (c : container) (a b : item) :
  heap c !! i = Some a -> heap c !! j = Some b -> i ≠ j ->
  heap (_swap i j c) !! n =
    if decide (n = j) then Some (set_index j a)
    else if decide (n = i) then Some (set_index i b)
    else heap c !! n.
Proof.
  intros Ha Hb Hij. unfold _swap. rewrite Ha, Hb. simpl.
  pose proof (lookup_lt_Some _ _ _ Ha). pose proof (lookup_lt_Some _ _ _ Hb).
  destruct (decide (n = j)) as [->|Hnj].
  { rewrite list_lookup_insert_eq; [done|by rewrite length_insert]. }
  rewrite list_lookup_insert_ne by done.
  destruct (decide (n = i)) as [->|Hni].
  { by rewrite list_lookup_insert_eq. }
  by rewrite list_lookup_insert_ne.
Qed.

Lemma swap_index_map (i j : nat) (c : container) (a b : item) :
  heap c !! i = Some a -> heap c !! j = Some b ->
  index_map (_swap i j c) = <[it_obj_id b := i]> (<[it_obj_id a := j]> (index_map c)).
Proof. intros Ha Hb. unfold _swap. by rewrite Ha, Hb. Qed.

Lemma index_consistent_ids_inj (c : container) (i j : nat) (x y : item) :
  index_consistent c ->
  heap c !! i = Some x -> heap c !! j = Some y ->
  it_obj_id x = it_obj_id y -> i = j.
Proof.
  intros [Hc _] Hx Hy Hid.
  destruct (Hc _ _ Hx) as [Hix _]. destruct (Hc _ _ Hy) as [Hiy _].
  rewrite Hid in Hix. congruence.
Qed.

Lemma swap_index_consistent (i j : nat) (c : container) (a b : item) :
  heap c !! i = Some a -> heap c !! j = Some b -> i ≠ j ->
  index_consistent c -> index_consistent (_swap i j c).
Proof.
  intros Ha Hb Hij Hc.
  assert (Hab : it_obj_id a ≠ it_obj_id b).
  { intros Heq. apply Hij. eapply index_consistent_ids_inj; eauto. }
  split.
  - intros n x. rewrite (swap_heap_lookup i j n c a b), (swap_index_map i j c a b) by done.
    destruct (decide (n = j)) as [->|Hnj].
    { intros [= <-]. simpl. by rewrite lookup_insert_ne, lookup_insert_eq. }
    destruct (decide (n = i)) as [->|Hni].
    { intros [= <-]. simpl. by rewrite lookup_insert_eq. }
    intros Hx. destruct (proj1 Hc _ _ Hx) as [Him Hidx]. split; [|done].
    rewrite !lookup_insert_ne; [done| |].
    + intros Heq. apply Hni. symmetry. eapply index_consistent_ids_inj; eauto.
    + intros Heq. apply Hnj. symmetry. eapply index_consistent_ids_inj; eauto.
  - intros k n. rewrite (swap_index_map i j c a b) by done.
    destruct (decide (k = it_obj_id b)) as [->|Hkb].
    { rewrite lookup_insert_eq. intros [= <-]. exists (set_index i b).
      rewrite (swap_heap_lookup i j i c a b) by done.
      rewrite decide_False, decide_True by done. done. }
    rewrite lookup_insert_ne by done.
    destruct (decide (k = it_obj_id a)) as [->|Hka].
    { rewrite lookup_insert_eq. intros [= <-]. exists (set_index j a).
      rewrite (swap_heap_lookup i j j c a b) by done.
      by rewrite decide_True. }
    rewrite lookup_insert_ne by done. intros Hk.
    destruct (proj2 Hc _ _ Hk) as (x & Hx & Hid). exists x. split; [|done].
    rewrite (swap_heap_lookup i j n c a b) by done.
    rewrite !decide_False; [done| |]; intros ->; simplify_eq.
Qed.

Lemma sessions_lookup (c : container) (k : string) :
  sessions c !! k = index_map c !! k ≫= fun i => saved_of <$> heap c !! i.
Proof. unfold sessions. by rewrite lookup_omap. Qed.

Lemma sessions_lookup_item (c : container) (i : nat) (x : item) :
  index_consistent c -> heap c !! i = Some x ->
  sessions c !! it_obj_id x = Some (saved_of x).
Proof.
  intros [Hc _] Hx. rewrite sessions_lookup.
  destruct (Hc _ _ Hx) as [-> _]. simpl. by rewrite Hx.
Qed.

Lemma sessions_lookup_Some (c : container) (k : string) (s : saved_item) :
  index_consistent c -> sessions c !! k = Some s ->
  exists i x, index_map c !! k = Some i /\ heap c !! i = Some x
              /\ it_obj_id x = k /\ saved_of x = s.
Proof.
  intros [_ Hc]. rewrite sessions_lookup.
  destruct (index_map c !! k) as [i|] eqn:Hk; [|done]. simpl.
  destruct (Hc _ _ Hk) as (x & Hx & Hid). rewrite Hx. simpl.
  intros [= <-]. eauto 10.
Qed.

Lemma sessions_dom (c : container) :
  index_consistent c -> dom (sessions c) = dom (index_map c).
Proof.
  intros [_ Hc]. apply set_eq. intros k. rewrite !elem_of_dom, sessions_lookup.
  destruct (index_map c !! k) as [i|] eqn:Hk; simpl.
  - destruct (Hc _ _ Hk) as (x & -> & _). simpl. split; eauto.
  - split; intros [? ?]; done.
Qed.

Lemma swap_sessions (i j : nat) (c : container) (a b : item) :
  heap c !! i = Some a -> heap c !! j = Some b -> i ≠ j ->
  index_consistent c -> sessions (_swap i j c) = sessions c.
Proof.
  intros Ha Hb Hij Hc. apply map_eq. intros k.
  rewrite !sessions_lookup, (swap_index_map i j c a b) by done.
  assert (Hab : it_obj_id a ≠ it_obj_id b).
  { intros Heq. apply Hij. eapply index_consistent_ids_inj; eauto. }
  destruct (proj1 Hc _ _ Ha) as [Hia _]. destruct (proj1 Hc _ _ Hb) as [Hib _].
  destruct (decide (k = it_obj_id b)) as [->|Hkb].
  { rewrite lookup_insert_eq, Hib. simpl.
    rewrite (swap_heap_lookup i j i c a b) by done.
    rewrite decide_False, decide_True by done. by rewrite Hb. }
  rewrite lookup_insert_ne by done.
  destruct (decide (k = it_obj_id a)) as [->|Hka].
  { rewrite lookup_insert_eq, Hia. simpl.
    rewrite (swap_heap_lookup i j j c a b) by done.
    rewrite decide_True by done. by rewrite Ha. }
  rewrite lookup_insert_ne by done.
  destruct (index_map c !! k) as [n|] eqn:Hk; [|done]. simpl.
  rewrite (swap_heap_lookup i j n c a b) by done.
  destruct (proj2 Hc _ _ Hk) as (x & Hx & Hid).
  rewrite !decide_False; [done| |]; intros ->; simplify_eq.
Qed.

(** ** The indexed heap: sifting up *)

Lemma parent_child (k : nat) :
  (0 < k)%nat -> (k = 2 * ((k - 1) / 2) + 1 \/ k = 2 * ((k - 1) / 2) + 2)%nat.
Proof.
  intros. pose proof (Nat.div_mod_eq (k - 1) 2).
  pose proof (Nat.mod_upper_bound (k - 1) 2). lia.
Qed.

Lemma child_parent (k p : nat) :
  (k = 2 * p + 1 \/ k = 2 * p + 2)%nat -> p = ((k - 1) / 2)%nat.
Proof.
  intros. pose proof (Nat.div_mod_eq (k - 1) 2).
  pose proof (Nat.mod_upper_bound (k - 1) 2). lia.
Qed.

Lemma ordered_but_up_root (h : list item) : ordered_but_up h 0 -> heap_ordered h.
Proof.
  intros [Hord _] i j x y Hx Hy Hij. eapply Hord; eauto. lia.
Qed.

Lemma ordered_but_up_done (h : list item) (k : nat) (x p : item) :
  h !! k = Some x -> h !! ((k - 1) / 2)%nat = Some p ->
  it_priority p <= it_priority x ->
  ordered_but_up h k -> heap_ordered h.
Proof.
  intros Hx Hp Hle [Hord _] i j a b Ha Hb Hij.
  destruct (decide (j = k)) as [->|Hjk]; [|by eapply Hord].
  apply child_parent in Hij. subst i. by simplify_eq.
Qed.

Lemma swap_ordered_but_up (c : container) (k : nat) (x p : item) :
  (0 < k)%nat ->
  heap c !! k = Some x -> heap c !! ((k - 1) / 2)%nat = Some p ->
  it_priority x < it_priority p ->
  ordered_but_up (heap c) k ->
  ordered_but_up (heap (_swap k ((k - 1) / 2) c)) ((k - 1) / 2).
Proof.
  intros Hk Hx Hp Hlt [Hord Hgrand].
  pose proof (parent_child k Hk) as Hkq.
  set (q := ((k - 1) / 2)%nat) in *.
  assert (Hne : k ≠ q) by lia.
  split.
  - intros i j a b Ha Hb Hij Hjq.
    rewrite (swap_heap_lookup k q i c x p) in Ha by done.
    rewrite (swap_heap_lookup k q j c x p) in Hb by done.
    rewrite decide_False in Hb by done.
    destruct (decide (j = k)) as [->|Hjk].
    + assert (i = q) by lia. subst i. rewrite decide_True in Ha by done.
      simplify_eq. simpl. lia.
    + destruct (decide (i = q)) as [->|Hiq].
      * simplify_eq. simpl. pose proof (Hord q j p b Hp Hb Hij Hjk). lia.
      * destruct (decide (i = k)) as [->|Hik].
        -- simplify_eq. simpl. by eapply (Hgrand q j p b).
        -- by eapply Hord.
  - intros pp j a b Ha Hb Hq Hj.
    rewrite (swap_heap_lookup k q pp c x p) in Ha by done.
    rewrite (swap_heap_lookup k q j c x p) in Hb by done.
    rewrite !decide_False in Ha by lia.
    rewrite decide_False in Hb by lia.
    assert (Hpq : it_priority a <= it_priority p).
    { eapply (Hord pp q a p); eauto; lia. }
    destruct (decide (j = k)) as [->|Hjk].
    + simplify_eq. simpl. done.
    + pose proof (Hord q j p b Hp Hb Hj Hjk). lia.
Qed.

Lemma sift_up_loop_S (fuel index : nat) (c : container) :
  _sift_up_loop (S fuel) index c =
    if (0 <? index)%nat then
      if prio_at (heap c) index >=? prio_at (heap c) ((index - 1) / 2)%nat then c
      else _sift_up_loop fuel ((index - 1) / 2)%nat (_swap index ((index - 1) / 2) c)
    else c.
Proof. reflexivity. Qed.

Lemma sift_up_loop_spec (fuel : nat) :
  forall (index : nat) (c : container),
    (index <= fuel)%nat -> (index < length (heap c))%nat ->
    index_consistent c -> ordered_but_up (heap c) index ->
    heap_inv (_sift_up_loop fuel index c)
    /\ sessions (_sift_up_loop fuel index c) = sessions c
    /\ same_frame c (_sift_up_loop fuel index c)
    /\ length (heap (_sift_up_loop fuel index c)) = length (heap c).
Proof.
  induction fuel as [|fuel IH]; intros index c Hfuel Hlen Hcons Hord.
  - assert (index = 0)%nat by lia. subst index. simpl.
    split; [split; [by apply ordered_but_up_root|done]|].
    split; [done|]. split; [apply same_frame_refl|done].
  - rewrite sift_up_loop_S. destruct (Nat.ltb_spec 0 index) as [Hpos|Hzero].
    2:{ assert (index = 0)%nat by lia. subst index.
        split; [split; [by apply ordered_but_up_root|done]|].
        split; [done|]. split; [apply same_frame_refl|done]. }
    destruct (lookup_lt_is_Some_2 (heap c) index Hlen) as [x Hx].
    assert (Hqlen : ((index - 1) / 2 < length (heap c))%nat).
    { pose proof (parent_child index Hpos). lia. }
    destruct (lookup_lt_is_Some_2 (heap c) _ Hqlen) as [p Hp].
    rewrite (prio_at_lookup _ _ _ Hx), (prio_at_lookup _ _ _ Hp).
    destruct (Z.geb_spec (it_priority x) (it_priority p)) as [Hge|Hlt].
    + split; [split; [exact (ordered_but_up_done _ _ _ _ Hx Hp Hge Hord)|done]|].
      split; [done|]. split; [apply same_frame_refl|done].
    + pose proof (parent_child index Hpos) as Hpc.
      assert (Hne : index ≠ ((index - 1) / 2)%nat) by lia.
      destruct (IH ((index - 1) / 2)%nat (_swap index ((index - 1) / 2) c))
        as (Hinv & Hsess & Hframe & Hlen').
      * lia.
      * by rewrite swap_length.
      * by eapply swap_index_consistent.
      * by eapply swap_ordered_but_up.
      * split; [done|]. split.
        { rewrite Hsess. by eapply swap_sessions. }
        split.
        { eapply same_frame_trans; [apply swap_frame|done]. }
        by rewrite Hlen', swap_length.
Qed.

Lemma sift_up_spec (index : nat) (c : container) :
  (index < length (heap c))%nat ->
  index_consistent c -> ordered_but_up (heap c) index ->
  heap_inv (_sift_up index c)
  /\ sessions (_sift_up index c) = sessions c
  /\ same_frame c (_sift_up index c)
  /\ length (heap (_sift_up index c)) = length (heap c).
Proof. intros. by apply sift_up_loop_spec. Qed.

(** ** The indexed heap: sifting down *)

Lemma smallest_of_oob (h : list item) (k : nat) :
  (length h <= k)%nat -> smallest_of h k = k.
Proof.
  intros Hk. unfold smallest_of.
  destruct (Nat.ltb_spec (2 * k + 1) (length h)); [lia|].
  destruct (Nat.ltb_spec (2 * k + 2) (length h)); [lia|]. reflexivity.
Qed.

Lemma smallest_of_spec (h : list item) (k : nat) (x : item) :
  h !! k = Some x ->
  (smallest_of h k = k \/ smallest_of h k = (2 * k + 1)%nat
   \/ smallest_of h k = (2 * k + 2)%nat)
  /\ (smallest_of h k ≠ k ->
      (smallest_of h k < length h)%nat
      /\ prio_at h (smallest_of h k) < it_priority x)
  /\ (forall (j : nat) (y : item),
        h !! j = Some y -> (j = 2 * k + 1 \/ j = 2 * k + 2)%nat ->
        prio_at h (smallest_of h k) <= it_priority y)
  /\ prio_at h (smallest_of h k) <= it_priority x.
Proof.
  intros Hx. unfold smallest_of.
  pose proof (prio_at_lookup _ _ _ Hx) as Hpx.
  assert (Hj : forall (j : nat) (y : item), h !! j = Some y ->
                 (j < length h)%nat /\ it_priority y = prio_at h j).
  { intros j y Hy. split; [by eapply lookup_lt_Some|].
    symmetry. by apply prio_at_lookup. }
  cbv zeta.
  destruct ((2 * k + 1 <? length h)%nat && (prio_at h (2 * k + 1) <? prio_at h k)) eqn:E1;
    [destruct ((2 * k + 2 <? length h)%nat
               && (prio_at h (2 * k + 2) <? prio_at h (2 * k + 1))) eqn:E2
    |destruct ((2 * k + 2 <? length h)%nat
               && (prio_at h (2 * k + 2) <? prio_at h k)) eqn:E2];
    repeat match goal with
      | H : _ && _ = true |- _ => apply andb_true_iff in H; destruct H
      | H : _ && _ = false |- _ => apply andb_false_iff in H; destruct H
      | H : (_ <? _)%nat = true |- _ => apply Nat.ltb_lt in H
      | H : (_ <? _)%nat = false |- _ => apply Nat.ltb_ge in H
      | H : (_ <? _)%Z = true |- _ => apply Z.ltb_lt in H
      | H : (_ <? _)%Z = false |- _ => apply Z.ltb_ge in H
      end;
    (split; [lia|]); (split; [intros ?; lia|]);
    (split; [|lia]);
    intros j y Hy [-> | ->]; destruct (Hj _ _ Hy) as [? ->]; lia.
Qed.

Lemma ordered_but_down_oob (h : list item) (k : nat) :
  h !! k = None -> ordered_but_down h k -> heap_ordered h.
Proof.
  intros Hk [Hord _] i j x y Hx Hy Hij. eapply Hord; eauto.
  intros ->. congruence.
Qed.

Lemma ordered_but_down_done (h : list item) (k : nat) (x : item) :
  h !! k = Some x ->
  (forall (j : nat) (y : item),
     h !! j = Some y -> (j = 2 * k + 1 \/ j = 2 * k + 2)%nat ->
     it_priority x <= it_priority y) ->
  ordered_but_down h k -> heap_ordered h.
Proof.
  intros Hx Hle [Hord _] i j a b Ha Hb Hij.
  destruct (decide (i = k)) as [->|Hik]; [|by eapply Hord].
  simplify_eq. by eapply Hle.
Qed.

Lemma swap_ordered_but_down (c : container) (k m : nat) (x b : item) :
  heap c !! k = Some x -> heap c !! m = Some b ->
  (m = 2 * k + 1 \/ m = 2 * k + 2)%nat ->
  it_priority b < it_priority x ->
  (forall (j : nat) (y : item),
     heap c !! j = Some y -> (j = 2 * k + 1 \/ j = 2 * k + 2)%nat ->
     it_priority b <= it_priority y) ->
  ordered_but_down (heap c) k ->
  ordered_but_down (heap (_swap k m c)) m.
Proof.
  intros Hx Hb Hm Hlt Hmin [Hord Hgrand].
  assert (Hne : k ≠ m) by lia.
  split.
  - intros i j a y Ha Hy Hij Him.
    rewrite (swap_heap_lookup k m i c x b) in Ha by done.
    rewrite (swap_heap_lookup k m j c x b) in Hy by done.
    rewrite decide_False in Ha by done.
    destruct (decide (i = k)) as [->|Hik].
    + simplify_eq. simpl.
      destruct (decide (j = m)) as [->|Hjm].
      * simplify_eq. simpl. lia.
      * rewrite decide_False in Hy by lia. by eapply Hmin.
    + destruct (decide (j = m)) as [->|Hjm]; [lia|].
      destruct (decide (j = k)) as [->|Hjk].
      * simplify_eq. simpl. by eapply (Hgrand i m a b).
      * by eapply Hord.
  - intros p j a y Ha Hy Hp Hj.
    assert (p = k) by lia. subst p.
    rewrite (swap_heap_lookup k m k c x b) in Ha by done.
    rewrite (swap_heap_lookup k m j c x b) in Hy by done.
    rewrite decide_False, decide_True in Ha by done.
    rewrite !decide_False in Hy by lia.
    simplify_eq. simpl. eapply (Hord m j b y); eauto; lia.
Qed.

Lemma sift_down_loop_S (fuel index : nat) (c : container) :
  _sift_down_loop (S fuel) index c =
    if (smallest_of (heap c) index =? index)%nat then c
    else _sift_down_loop fuel (smallest_of (heap c) index)
           (_swap index (smallest_of (heap c) index) c).
Proof. reflexivity. Qed.

Lemma sift_down_loop_spec (fuel : nat) :
  forall (index : nat) (c : container),
    (length (heap c) - index <= fuel)%nat ->
    index_consistent c -> ordered_but_down (heap c) index ->
    heap_inv (_sift_down_loop fuel index c)
    /\ sessions (_sift_down_loop fuel index c) = sessions c
    /\ same_frame c (_sift_down_loop fuel index c)
    /\ length (heap (_sift_down_loop fuel index c)) = length (heap c).
Proof.
  induction fuel as [|fuel IH]; intros index c Hfuel Hcons Hord.
  - simpl. split; [split; [|done]|].
    { eapply ordered_but_down_oob; [|done]. apply lookup_ge_None. lia. }
    split; [done|]. split; [apply same_frame_refl|done].
  - rewrite sift_down_loop_S.
    destruct (heap c !! index) as [x|] eqn:Hx.
    2:{ rewrite smallest_of_oob by (by apply lookup_ge_None).
        rewrite Nat.eqb_refl. split; [split; [by eapply ordered_but_down_oob|done]|].
        split; [done|]. split; [apply same_frame_refl|done]. }
    destruct (smallest_of_spec (heap c) index x Hx) as (Hcases & Hsmall & Hmin & Hle).
    destruct (Nat.eqb_spec (smallest_of (heap c) index) index) as [Heq|Hneq].
    + split; [split; [|done]|].
      { eapply ordered_but_down_done; [done| |done].
        intros j y Hy Hj. rewrite Heq, (prio_at_lookup _ _ _ Hx) in Hmin.
        by eapply Hmin. }
      split; [done|]. split; [apply same_frame_refl|done].
    + set (m := smallest_of (heap c) index) in *.
      destruct (Hsmall Hneq) as [Hmlen Hmlt].
      destruct (lookup_lt_is_Some_2 (heap c) m Hmlen) as [b Hb].
      rewrite (prio_at_lookup _ _ _ Hb) in Hmlt, Hmin.
      assert (Hchild : (m = 2 * index + 1 \/ m = 2 * index + 2)%nat)
        by (destruct Hcases as [?|[?|?]]; [done|by left|by right]).
      assert (Hne : index ≠ m) by lia.
      destruct (IH m (_swap index m c)) as (Hinv & Hsess & Hframe & Hlen').
      * rewrite swap_length. lia.
      * by eapply swap_index_consistent.
      * by eapply swap_ordered_but_down.
      * split; [done|]. split.
        { rewrite Hsess. by eapply swap_sessions. }
        split.
        { eapply same_frame_trans; [apply swap_frame|done]. }
        by rewrite Hlen', swap_length.
Qed.

Lemma sift_down_spec (index : nat) (c : container) :
  index_consistent c -> ordered_but_down (heap c) index ->
  heap_inv (_sift_down index c)
  /\ sessions (_sift_down index c) = sessions c
  /\ same_frame c (_sift_down index c)
  /\ length (heap (_sift_down index c)) = length (heap c).
Proof. intros. by apply sift_down_loop_spec. Qed.

(** ** The indexed heap: updating an entry in place *)

Lemma heap_insert_lookup (h : list item) (i n : nat) (x x' : item) :
  h !! i = Some x ->
  <[i := x']> h !! n = if decide (n = i) then Some x' else h !! n.
Proof.
  intros Hx. destruct (decide (n = i)) as [->|Hne].
  - apply list_lookup_insert_eq. by eapply lookup_lt_Some.
  - by apply list_lookup_insert_ne.
Qed.

Lemma heap_insert_consistent (c : container) (i : nat) (x x' : item) :
  heap c !! i = Some x ->
  it_obj_id x' = it_obj_id x -> it_index x' = it_index x ->
  index_consistent c ->
  index_consistent (set_heap (<[i := x']> (heap c)) c).
Proof.
  intros Hx Hid Hidx [Hfw Hbw]. split; cbn [heap index_map set_heap].
  - intros n y. rewrite (heap_insert_lookup _ i n x x' Hx).
    destruct (decide (n = i)) as [->|Hne]; [|apply Hfw].
    intros [= <-]. rewrite Hid, Hidx. by apply Hfw.
  - intros k n Hk. rewrite (heap_insert_lookup _ i n x x' Hx).
    destruct (Hbw _ _ Hk) as (y & Hy & Hyid).
    destruct (decide (n = i)) as [->|Hne]; [|eauto].
    exists x'. split; [done|]. simplify_eq. done.
Qed.

Lemma heap_insert_sessions (c : container) (i : nat) (x x' : item) :
  heap c !! i = Some x ->
  it_obj_id x' = it_obj_id x ->
  index_consistent c ->
  sessions (set_heap (<[i := x']> (heap c)) c)
  = <[it_obj_id x := saved_of x']> (sessions c).
Proof.
  intros Hx Hid Hc. apply map_eq. intros k. rewrite sessions_lookup.
  cbn [heap index_map set_heap].
  destruct (decide (k = it_obj_id x)) as [->|Hk].
  - rewrite lookup_insert_eq. destruct (proj1 Hc _ _ Hx) as [-> _].
    cbn [mbind option_bind].
    rewrite (heap_insert_lookup _ i i x x' Hx). by rewrite decide_True.
  - rewrite lookup_insert_ne by done. rewrite sessions_lookup.
    destruct (index_map c !! k) as [n|] eqn:Hn; [|done]. cbn [mbind option_bind].
    rewrite (heap_insert_lookup _ i n x x' Hx).
    destruct (decide (n = i)) as [->|Hne]; [|done].
    destruct (proj2 Hc _ _ Hn) as (y & Hy & Hyid). simplify_eq.
Qed.

Lemma heap_insert_ordered (h : list item) (i : nat) (x x' : item) :
  h !! i = Some x ->
  it_priority x' = it_priority x ->
  heap_ordered h ->
  heap_ordered (<[i := x']> h).
Proof.
  intros Hx Hp Hord a b y z Hy Hz Hab.
  rewrite (heap_insert_lookup _ i a x x' Hx) in Hy.
  rewrite (heap_insert_lookup _ i b x x' Hx) in Hz.
  destruct (decide (a = i)) as [->|Ha]; destruct (decide (b = i)) as [->|Hb];
    simplify_eq; rewrite ?Hp; by eapply Hord.
Qed.

(** ** The indexed heap: [_push] *)

Lemma push_spec (priority : Z) (obj_id : string) (data : option loc)
    (client_ip : option string) (c : container) :
  heap_inv c -> index_map c !! obj_id = None ->
  heap_inv (_push priority obj_id data client_ip c)
  /\ sessions (_push priority obj_id data client_ip c)
     = <[obj_id := Saved priority obj_id data client_ip]> (sessions c)
  /\ same_frame c (_push priority obj_id data client_ip c)
  /\ length (heap (_push priority obj_id data client_ip c)) = S (length (heap c)).
Proof.
  intros [Hord Hcons] Hfresh. unfold _push.
  set (n := length (heap c)).
  set (x := Item priority obj_id data n client_ip).
  set (c1 := set_index_map (<[obj_id := n]> (index_map c)) (set_heap (heap c ++ [x]) c)).
  assert (Hh1 : heap c1 = heap c ++ [x]) by reflexivity.
  assert (Him1 : index_map c1 = <[obj_id := n]> (index_map c)) by reflexivity.
  assert (Hlast : heap c1 !! n = Some x).
  { rewrite Hh1. rewrite lookup_app_r by (unfold n; lia).
    by rewrite Nat.sub_diag. }
  assert (Hcons1 : index_consistent c1).
  { split.
    - intros i y Hy. rewrite Him1. destruct (decide (i = n)) as [->|Hin].
      + rewrite Hlast in Hy. injection Hy as <-. simpl. by rewrite lookup_insert_eq.
      + assert (Hi : (i < n)%nat).
        { apply lookup_lt_Some in Hy. rewrite Hh1, length_app in Hy.
          simpl in Hy. unfold n in *. lia. }
        rewrite Hh1, lookup_app_l in Hy by done.
        destruct (proj1 Hcons _ _ Hy) as [Him Hidx]. split; [|done].
        rewrite lookup_insert_ne; [done|]. intros Heq. rewrite Heq in Hfresh. congruence.
    - intros k i. rewrite Him1. destruct (decide (k = obj_id)) as [->|Hk].
      + rewrite lookup_insert_eq. intros [= <-]. by exists x.
      + rewrite lookup_insert_ne by done. intros Hi.
        destruct (proj2 Hcons _ _ Hi) as (y & Hy & Hyid). exists y. split; [|done].
        rewrite Hh1, lookup_app_l; [done|]. by eapply lookup_lt_Some. }
  assert (Hord1 : ordered_but_up (heap c1) n).
  { split.
    - intros i j a b Ha Hb Hij Hjn.
      assert (Hj : (j < n)%nat).
      { apply lookup_lt_Some in Hb. rewrite Hh1, length_app in Hb.
        simpl in Hb. unfold n in *. lia. }
      rewrite Hh1, lookup_app_l in Ha by lia.
      rewrite Hh1, lookup_app_l in Hb by lia. by eapply Hord.
    - intros p j a b Ha Hb Hp Hj. apply lookup_lt_Some in Hb.
      rewrite Hh1, length_app in Hb. simpl in Hb. unfold n in *. lia. }
  assert (Hsess1 : sessions c1 = <[obj_id := saved_of x]> (sessions c)).
  { apply map_eq. intros k. rewrite sessions_lookup, Him1.
    destruct (decide (k = obj_id)) as [->|Hk].
    - rewrite !lookup_insert_eq. cbn [mbind option_bind]. by rewrite Hlast.
    - rewrite !lookup_insert_ne by done. rewrite sessions_lookup.
      destruct (index_map c !! k) as [i|] eqn:Hi; [|done]. cbn [mbind option_bind].
      destruct (proj2 Hcons _ _ Hi) as (y & Hy & _).
      rewrite Hh1, lookup_app_l; [done|]. by eapply lookup_lt_Some. }
  destruct (sift_up_spec n c1) as (Hinv & Hsess & Hframe & Hlen); [| done | done |].
  { rewrite Hh1, length_app. simpl. unfold n. lia. }
  split; [done|]. split; [by rewrite Hsess, Hsess1|]. split.
  - eapply same_frame_trans; [|exact Hframe]. by repeat split.
  - rewrite Hlen, Hh1, length_app. simpl. unfold n. lia.
Qed.

(** ** The indexed heap: [_pop] *)

Lemma heap_root_minimal (h : list item) (root : item) :
  heap_ordered h -> h !! 0%nat = Some root ->
  forall (i : nat) (x : item), h !! i = Some x -> it_priority root <= it_priority x.
Proof.
  intros Hord Hroot i. induction (lt_wf i) as [i _ IH]. intros x Hx.
  destruct (decide (i = 0%nat)) as [->|Hi].
  { simplify_eq. lia. }
  assert (Hpos : (0 < i)%nat) by lia.
  pose proof (parent_child i Hpos) as Hpc.
  assert (Hplt : ((i - 1) / 2 < i)%nat) by lia.
  destruct (lookup_lt_is_Some_2 h ((i - 1) / 2)%nat) as [p Hp].
  { apply lookup_lt_Some in Hx. lia. }
  pose proof (IH _ Hplt p Hp). pose proof (Hord _ _ _ _ Hp Hx Hpc). lia.
Qed.

Lemma pop_empty (c : container) : heap c = [] -> _pop c = (Ok None, c).
Proof. intros H. unfold _pop. by rewrite H. Qed.

Lemma pop_spec (c : container) (root : item) :
  heap_inv c -> heap c !! 0%nat = Some root ->
  exists c',
    _pop c = (Ok (Some root), c')
    /\ heap_inv c'
    /\ sessions c' = delete (it_obj_id root) (sessions c)
    /\ same_frame c c'
    /\ S (length (heap c')) = length (heap c).
Proof.
  intros [Hord Hcons] Hroot. unfold _pop.
  destruct (heap c) as [|r rest] eqn:Hh; [done|].
  simpl in Hroot. injection Hroot as ->. rewrite <- Hh in Hord.
  assert (Hroot : heap c !! 0%nat = Some root) by (by rewrite Hh).
  destruct (proj1 Hcons _ _ Hroot) as [Himroot _]. rewrite Himroot.
  destruct (Nat.eqb_spec (length (root :: rest)) 1) as [Hone|Hmany].
  - eexists. split; [reflexivity|].
    assert (Hrest : rest = []) by (destruct rest; simpl in *; [done|lia]).
    split; [split|].
    + intros i j x y Hx. cbn [heap set_heap] in Hx. by rewrite lookup_nil in Hx.
    + split.
      * intros i x Hx. cbn [heap set_heap] in Hx. by rewrite lookup_nil in Hx.
      * intros k i Hk. cbn [index_map set_heap set_index_map] in Hk.
        apply lookup_delete_Some in Hk. destruct Hk as [Hne Hk].
        destruct (proj2 Hcons _ _ Hk) as (x & Hx & Hid).
        rewrite Hh, Hrest in Hx. destruct i; simpl in Hx; [|done].
        by simplify_eq.
    + split; [|split; [by repeat split|by rewrite Hrest]].
      apply map_eq. intros k. rewrite sessions_lookup.
      cbn [heap index_map set_heap set_index_map].
      transitivity (@None saved_item).
      { destruct (delete (it_obj_id root) (index_map c) !! k); [|done].
        cbn [mbind option_bind]. by rewrite lookup_nil. }
      symmetry. destruct (decide (k = it_obj_id root)) as [->|Hne].
      { by rewrite lookup_delete_eq. }
      rewrite lookup_delete_ne by done.
      destruct (sessions c !! k) as [s|] eqn:Hs; [|done].
      destruct (sessions_lookup_Some c k s Hcons Hs) as (i & x & _ & Hx & Hid & _).
      rewrite Hh, Hrest in Hx. destruct i; simpl in Hx; [|done]. by simplify_eq.
  - set (n := length (heap c)).
    assert (Hn : (2 <= n)%nat).
    { unfold n. rewrite Hh. simpl in *. lia. }
    rewrite <- Hh. rewrite last_lookup.
    destruct (lookup_lt_is_Some_2 (heap c) (pred n)) as [l Hl]; [lia|].
    fold n. rewrite Hl.
    set (h2 := <[0%nat := set_index 0 l]> (take (n - 1) (heap c))).
    set (im2 := <[it_obj_id l := 0%nat]>
                  (index_map (set_index_map (delete (it_obj_id root) (index_map c)) c))).
    set (c2 := set_index_map im2
                 (set_heap h2 (set_index_map (delete (it_obj_id root) (index_map c)) c))).
    assert (Hh2 : heap c2 = h2) by reflexivity.
    assert (Him2 : index_map c2
                   = <[it_obj_id l := 0%nat]> (delete (it_obj_id root) (index_map c)))
      by reflexivity.
    assert (Hlroot : it_obj_id l ≠ it_obj_id root).
    { intros Heq.
      pose proof (index_consistent_ids_inj c _ _ _ _ Hcons Hl Hroot Heq). lia. }
    assert (Hlook0 : h2 !! 0%nat = Some (set_index 0 l)).
    { unfold h2. apply list_lookup_insert_eq. rewrite length_take. lia. }
    assert (Hlook : forall i, (0 < i)%nat -> (i < n - 1)%nat -> h2 !! i = heap c !! i).
    { intros i Hi1 Hi2. unfold h2. rewrite list_lookup_insert_ne by lia.
      by rewrite lookup_take_lt. }
    assert (Hlen2 : length h2 = (n - 1)%nat).
    { unfold h2. rewrite length_insert, length_take. lia. }
    assert (Hcons2 : index_consistent c2).
    { split.
      - intros i y Hy. rewrite Hh2 in Hy. rewrite Him2.
        destruct (decide (i = 0%nat)) as [->|Hi].
        + rewrite Hlook0 in Hy. injection Hy as <-. simpl.
          by rewrite lookup_insert_eq.
        + pose proof (lookup_lt_Some _ _ _ Hy) as Hlt. rewrite Hlen2 in Hlt.
          rewrite Hlook in Hy by lia.
          destruct (proj1 Hcons _ _ Hy) as [Him Hidx]. split; [|done].
          rewrite lookup_insert_ne, lookup_delete_ne; [done| |].
          * intros Heq.
            pose proof (index_consistent_ids_inj c _ _ _ _ Hcons Hroot Hy Heq). lia.
          * intros Heq.
            pose proof (index_consistent_ids_inj c _ _ _ _ Hcons Hl Hy Heq). lia.
      - intros k i. rewrite Him2, Hh2.
        destruct (decide (k = it_obj_id l)) as [->|Hk].
        + rewrite lookup_insert_eq. intros [= <-]. by exists (set_index 0 l).
        + rewrite lookup_insert_ne by done. intros Hi.
          apply lookup_delete_Some in Hi. destruct Hi as [Hne Hi].
          destruct (proj2 Hcons _ _ Hi) as (y & Hy & Hyid). exists y. split; [|done].
          pose proof (lookup_lt_Some _ _ _ Hy) as Hlt. fold n in Hlt.
          rewrite Hlook; [done| |].
          * destruct (decide (i = 0%nat)) as [->|]; [|lia]. simplify_eq.
          * destruct (decide (i = pred n)) as [->|]; [|lia]. simplify_eq. }
    assert (Hord2 : ordered_but_down (heap c2) 0).
    { rewrite Hh2. split.
      - intros i j a b Ha Hb Hij Hi0.
        pose proof (lookup_lt_Some _ _ _ Ha) as Hlta.
        pose proof (lookup_lt_Some _ _ _ Hb) as Hltb. rewrite Hlen2 in Hlta, Hltb.
        rewrite Hlook in Ha by lia. rewrite Hlook in Hb by lia. by eapply Hord.
      - intros p j a b _ _ Hp. lia. }
    assert (Hsess2 : sessions c2 = delete (it_obj_id root) (sessions c)).
    { apply map_eq. intros k. rewrite sessions_lookup, Him2, Hh2.
      destruct (decide (k = it_obj_id root)) as [->|Hkr].
      { rewrite lookup_insert_ne by done. by rewrite !lookup_delete_eq. }
      rewrite (lookup_delete_ne (sessions c)) by done.
      destruct (decide (k = it_obj_id l)) as [->|Hkl].
      { rewrite lookup_insert_eq. cbn [mbind option_bind]. rewrite Hlook0.
        symmetry. by apply (sessions_lookup_item c (pred n)). }
      rewrite lookup_insert_ne, lookup_delete_ne by done. rewrite sessions_lookup.
      destruct (index_map c !! k) as [i|] eqn:Hi; [|done]. cbn [mbind option_bind].
      destruct (proj2 Hcons _ _ Hi) as (y & Hy & Hyid).
      pose proof (lookup_lt_Some _ _ _ Hy) as Hlt. fold n in Hlt.
      rewrite Hlook; [done| |].
      - destruct (decide (i = 0%nat)) as [->|]; [|lia]. simplify_eq.
      - destruct (decide (i = pred n)) as [->|]; [|lia]. simplify_eq. }
    destruct (sift_down_spec 0 c2 Hcons2 Hord2) as (Hinv & Hsess & Hframe & Hlen).
    eexists. split; [reflexivity|]. split; [exact Hinv|].
    split; [by rewrite Hsess|]. split.
    + eapply same_frame_trans; [|exact Hframe]. by repeat split.
    + rewrite Hlen, Hh2, Hlen2. lia.
Qed.

(** ** The indexed heap: [_update_priority] *)

Lemma update_priority_absent (obj_id : string) (new_priority : Z) (c : container) :
  index_map c !! obj_id = None ->
  _update_priority obj_id new_priority c
  = (Raise (ValueError "Object not found in heap"), c).
Proof. intros H. unfold _update_priority. by rewrite H. Qed.

Lemma update_priority_spec (obj_id : string) (new_priority : Z) (c : container)
    (s : saved_item) :
  heap_inv c -> sessions c !! obj_id = Some s ->
  exists c',
    _update_priority obj_id new_priority c = (Ok tt, c')
    /\ heap_inv c'
    /\ sessions c'
       = <[obj_id := Saved new_priority obj_id (sv_storage s) (sv_client_ip s)]>
           (sessions c)
    /\ same_frame c c'
    /\ length (heap c') = length (heap c).
Proof.
  intros [Hord Hcons] Hs.
  destruct (sessions_lookup_Some c obj_id s Hcons Hs) as (i & x & Hi & Hx & Hid & Hsx).
  unfold _update_priority. rewrite Hi, Hx.
  set (x' := set_priority new_priority x).
  set (c1 := set_heap (<[i := x']> (heap c)) c).
  assert (Hcons1 : index_consistent c1) by (by apply (heap_insert_consistent c i x x')).
  assert (Hsess1 : sessions c1
            = <[obj_id := Saved new_priority obj_id (sv_storage s) (sv_client_ip s)]>
                (sessions c)).
  { unfold c1. rewrite (heap_insert_sessions c i x x') by done.
    rewrite Hid. f_equal. subst s. unfold x', saved_of. simpl. by rewrite Hid. }
  assert (Hlook : forall n, heap c1 !! n = if decide (n = i) then Some x' else heap c !! n).
  { intros n. unfold c1. cbn [heap set_heap]. by apply (heap_insert_lookup _ i n x). }
  assert (Hlen1 : length (heap c1) = length (heap c)).
  { unfold c1. cbn [heap set_heap]. by rewrite length_insert. }
  assert (Hframe1 : same_frame c c1) by (by repeat split).
  assert (Hgrand : forall (p j : nat) (a b : item),
            heap c1 !! p = Some a -> heap c1 !! j = Some b ->
            (i = 2 * p + 1 \/ i = 2 * p + 2)%nat ->
            (j = 2 * i + 1 \/ j = 2 * i + 2)%nat ->
            it_priority a <= it_priority b).
  { intros p j a b Ha Hb Hp Hj. rewrite Hlook in Ha, Hb.
    rewrite decide_False in Ha by lia. rewrite decide_False in Hb by lia.
    pose proof (Hord _ _ _ _ Ha Hx Hp). pose proof (Hord _ _ _ _ Hx Hb Hj). lia. }
  destruct (Z.ltb_spec new_priority (it_priority x)) as [Hlt|Hge].
  - destruct (sift_up_spec i c1) as (Hinv & Hsess & Hframe & Hlen); [|done| |].
    + rewrite Hlen1. by eapply lookup_lt_Some.
    + split; [|exact Hgrand].
      intros a b y z Hy Hz Hab Hbi. rewrite Hlook in Hy, Hz.
      rewrite decide_False in Hz by done.
      destruct (decide (a = i)) as [->|Ha].
      * injection Hy as <-. simpl. pose proof (Hord _ _ _ _ Hx Hz Hab). lia.
      * by eapply Hord.
    + eexists. split; [reflexivity|]. split; [done|]. split; [by rewrite Hsess|].
      split; [by eapply same_frame_trans|lia].
  - destruct (Z.gtb_spec new_priority (it_priority x)) as [Hgt|Hle].
    + destruct (sift_down_spec i c1) as (Hinv & Hsess & Hframe & Hlen); [done| |].
      * split; [|exact Hgrand].
        intros a b y z Hy Hz Hab Hai. rewrite Hlook in Hy, Hz.
        rewrite decide_False in Hy by done.
        destruct (decide (b = i)) as [->|Hb].
        -- injection Hz as <-. simpl. pose proof (Hord _ _ _ _ Hy Hx Hab). lia.
        -- by eapply Hord.
      * eexists. split; [reflexivity|]. split; [done|]. split; [by rewrite Hsess|].
        split; [by eapply same_frame_trans|lia].
    + eexists. split; [reflexivity|]. split; [split; [|done]|done].
      unfold c1. cbn [heap set_heap]. apply (heap_insert_ordered _ i x x'); [done| |done].
      unfold x'. simpl. lia.
Qed.

(** ** The heap invariant under the container's operations *)

Lemma preserves_bind {A B : Type} (P : container -> Prop)
    (m : M container A) (k : A -> M container B) :
  preserves P m -> (forall a, preserves P (k a)) -> preserves P (bindM m k).
Proof.
  intros Hm Hk c Hc. unfold bindM, state_after.
  specialize (Hm c Hc). unfold state_after in Hm.
  destruct (m c) as [[a|e] c']; simpl in *; [|done]. by apply Hk.
Qed.

Lemma preserves_ret {A : Type} (P : container -> Prop) (a : A) : preserves P (ret a).
Proof. by intros c Hc. Qed.

Lemma heap_inv_ext (c c' : container) :
  heap c' = heap c -> index_map c' = index_map c -> heap_inv c -> heap_inv c'.
Proof.
  intros Hh Him [Hord [Hfw Hbw]]. split; [by rewrite Hh|].
  split.
  - intros i x. rewrite Hh, Him. apply Hfw.
  - intros k i. rewrite Hh, Him. apply Hbw.
Qed.

Lemma heap_inv_set_ip (m : gmap string (list string)) (c : container) :
  heap_inv c -> heap_inv (set_ip_to_sessions m c).
Proof. by apply heap_inv_ext. Qed.

Lemma heap_inv_fresh (d : bool) (m : Z) : heap_inv (fresh d m).
Proof.
  split.
  - intros i j x y Hx. simpl in Hx. by rewrite lookup_nil in Hx.
  - split.
    + intros i x Hx. simpl in Hx. by rewrite lookup_nil in Hx.
    + intros k i Hk. simpl in Hk. by rewrite lookup_empty in Hk.
Qed.

Lemma index_map_sessions_None (c : container) (k : string) :
  index_consistent c -> (index_map c !! k = None <-> sessions c !! k = None).
Proof.
  intros Hc. rewrite <- !not_elem_of_dom, sessions_dom by done. reflexivity.
Qed.

Lemma _pop_preserves_heap_inv : preserves heap_inv _pop.
Proof.
  intros c Hc. destruct (heap c) as [|root rest] eqn:Hh.
  - by rewrite pop_empty.
  - destruct (pop_spec c root Hc) as (c' & Hrun & Hinv & _); [by rewrite Hh|].
    by rewrite Hrun.
Qed.

Lemma _update_priority_preserves_heap_inv (obj_id : string) (new_priority : Z) :
  preserves heap_inv (_update_priority obj_id new_priority).
Proof.
  intros c Hc. destruct (sessions c !! obj_id) as [s|] eqn:Hs.
  - destruct (update_priority_spec obj_id new_priority c s Hc Hs) as (c' & Hrun & Hinv & _).
    by rewrite Hrun.
  - rewrite update_priority_absent; [done|].
    by apply (index_map_sessions_None c obj_id (proj2 Hc)).
Qed.

Lemma evict_over_cap_preserves_heap_inv (cfg : config) (fuel : nat)
    (normalized_ip : string) :
  preserves heap_inv (evict_over_cap cfg fuel normalized_ip).
Proof.
  induction fuel as [|fuel IH]; intros c Hc; [done|].
  simpl. destruct (ip_to_sessions c !! normalized_ip) as [l|]; [|done].
  destruct (Z.of_nat (length l) >? MAX_SESSIONS_PER_IP cfg); [|done].
  destruct l as [|first rest]; [done|].
  revert c Hc. apply preserves_bind; [apply _update_priority_preserves_heap_inv|].
  intros _. apply preserves_bind; [apply _pop_preserves_heap_inv|].
  intros _. apply preserves_bind; [|intros _; apply IH].
  intros c Hc. destruct (ip_to_sessions c !! normalized_ip); [|done].
  by apply heap_inv_set_ip.
Qed.

Lemma eviction_preserves_heap_inv (identifier : string) (client_ip : option string) :
  preserves heap_inv (_handle_client_ip_and_session_eviction identifier client_ip).
Proof.
  intros c Hc. unfold _handle_client_ip_and_session_eviction.
  repeat case_match; try done; by apply heap_inv_set_ip.
Qed.

Lemma addition_preserves_heap_inv (cfg : config) (identifier : string)
    (client_ip : option string) :
  preserves heap_inv (_handle_client_ip_and_session_addition cfg identifier client_ip).
Proof.
  intros c Hc. unfold _handle_client_ip_and_session_addition.
  destruct (negb (truthy client_ip)); [done|].
  destruct (ip_to_sessions c !! _); [|by apply heap_inv_set_ip].
  apply evict_over_cap_preserves_heap_inv. by apply heap_inv_set_ip.
Qed.

Lemma heap_inv_set_client_ip (c : container) (i : nat) (x : item) (ip : option string) :
  heap c !! i = Some x -> heap_inv c ->
  heap_inv (set_heap (<[i := set_client_ip ip x]> (heap c)) c).
Proof.
  intros Hx [Hord Hcons]. split.
  - by apply (heap_insert_ordered _ i x).
  - by apply (heap_insert_consistent c i x).
Qed.

Lemma reattribution_preserves_heap_inv (cfg : config) (session_id : string)
    (saved_ip : option string) (client_ip : string) :
  preserves heap_inv
    (_handle_client_ip_and_session_reattribution cfg session_id saved_ip client_ip).
Proof.
  intros c Hc. unfold _handle_client_ip_and_session_reattribution.
  destruct (index_map c !! session_id) as [i|]; [|done].
  destruct (heap c !! i) as [x|] eqn:Hx; [|done].
  apply evict_over_cap_preserves_heap_inv. apply heap_inv_set_ip.
  by apply heap_inv_set_client_ip.
Qed.

Lemma priority_preserves_heap_inv (cfg : config) (session_id : string)
    (client_ip : option string) :
  preserves heap_inv (_handle_client_ip_and_session_priority cfg session_id client_ip).
Proof.
  intros c Hc. unfold _handle_client_ip_and_session_priority.
  destruct (negb (truthy client_ip)); [done|].
  destruct (index_map c !! session_id) as [i|]; [|done].
  destruct (heap c !! i) as [x|] eqn:Hx; [|done].
  case_bool_decide.
  - destruct (ip_to_sessions c !! _); by apply heap_inv_set_ip.
  - by apply reattribution_preserves_heap_inv.
Qed.

Lemma pop_preserves_heap_inv : preserves heap_inv pop.
Proof.
  apply preserves_bind; [apply _pop_preserves_heap_inv|].
  intros [x|]; [|apply preserves_ret].
  apply preserves_bind; [apply eviction_preserves_heap_inv|].
  intros _. apply preserves_ret.
Qed.

Lemma update_priority_preserves_heap_inv (cfg : config) (obj_id : string)
    (new_priority : Z) (client_ip : option string) :
  preserves heap_inv (update_priority cfg obj_id new_priority client_ip).
Proof.
  apply preserves_bind; [apply _update_priority_preserves_heap_inv|].
  intros _. apply priority_preserves_heap_inv.
Qed.

Lemma push_keeps_heap_inv (cfg : config) (priority : Z) (session_id : string)
    (data : option loc) (client_ip : option string) (c : container) :
  heap_inv c -> index_map c !! session_id = None ->
  heap_inv (state_after (push cfg priority session_id data client_ip c)).
Proof.
  intros Hc Hfresh. unfold push, bindM, modify.
  apply (addition_preserves_heap_inv cfg session_id client_ip).
  by apply push_spec.
Qed.

Lemma run_pq_op_heap_inv (cfg : config) (op : pq_op) (c : container) :
  pq_op_ok op c -> heap_inv c -> heap_inv (run_pq_op cfg op c).
Proof.
  intros Hok Hc. destruct op; simpl in *.
  - by apply push_spec.
  - by apply _pop_preserves_heap_inv.
  - by apply _update_priority_preserves_heap_inv.
  - by apply push_keeps_heap_inv.
  - by apply pop_preserves_heap_inv.
  - by apply update_priority_preserves_heap_inv.
Qed.

Lemma run_pq_ops_heap_inv (cfg : config) (ops : list pq_op) (c : container) :
  pushes_fresh cfg ops c -> heap_inv c -> heap_inv (run_pq_ops cfg ops c).
Proof.
  revert c. induction ops as [|op ops IH]; intros c Hok Hc; [done|].
  destruct Hok as [Hop Hok]. simpl. apply IH; [done|].
  by apply run_pq_op_heap_inv.
Qed.

(** C1, as the code has it.  From a fresh container, after any sequence of
    pushes, pops and priority updates (the heap operations and the public
    ones, returning or raising) in which every push is given a session id the
    index map does not hold at that moment, the array is a min-heap: an entry
    is no larger than its children at positions 2i+1 and 2i+2; and every
    stored entry is found in the index map under its session id at its own
    position, which is also the position it records. *)
Theorem heap_invariant_after_operations (cfg : config) (disable : bool)
    (max_sessions : Z) (ops : list pq_op) :
  pushes_fresh cfg ops (fresh disable max_sessions) ->
  let c := run_pq_ops cfg ops (fresh disable max_sessions) in
  (forall (i j : nat) (x y : item),
     heap c !! i = Some x -> heap c !! j = Some y ->
     (j = 2 * i + 1 \/ j = 2 * i + 2)%nat ->
     it_priority x <= it_priority y)
  /\ (forall (i : nat) (x : item),
        heap c !! i = Some x ->
        index_map c !! it_obj_id x = Some i /\ it_index x = i).
Proof.
  intros Hok c.
  destruct (run_pq_ops_heap_inv cfg ops (fresh disable max_sessions) Hok
              (heap_inv_fresh disable max_sessions)) as [Hord [Hfw _]].
  split; [exact Hord|exact Hfw].
Qed.

(** A run of the heap operations and of the public ones, as in
    [test_mixed_operations_consistency]. *)
Lemma heap_invariant_after_operations_witness :
  let ops := [Op_push 10 "a" None None; Op_push 5 "b" None None;
              Op_push 15 "c" None None; Op_push 3 "d" None None;
              Op_pop; Op_update_priority "c" 1;
              OpPush 7 "e" None (Some "192.168.1.1");
              OpUpdatePriority "a" 20 (Some "192.168.1.2"); OpPop] in
  pushes_fresh default_config ops (fresh false 3000)
  /\ forall (i : nat) (x : item),
       heap (run_pq_ops default_config ops (fresh false 3000)) !! i = Some x ->
       index_map (run_pq_ops default_config ops (fresh false 3000)) !! it_obj_id x = Some i
       /\ it_index x = i.
Proof.
  intros ops.
  assert (Hok : pushes_fresh default_config ops (fresh false 3000))
    by (vm_compute; repeat split).
  split; [exact Hok|].
  exact (proj2 (heap_invariant_after_operations default_config false 3000 ops Hok)).
Defined.

(** Where C1 as worded fails: pushing the same session id twice.  The first
    entry stays in the array at position 0 while the index map sends its id
    to position 1. *)
Lemma duplicate_push_breaks_index_map :
  let c := run_pq_ops default_config
             [Op_push 1 "a" None None; Op_push 2 "a" None None] (fresh false 3000) in
  heap c !! 0%nat = Some (Item 1 "a" None 0 None)
  /\ index_map c !! "a" = Some 1%nat
  /\ ~ (forall (i : nat) (x : item),
          heap c !! i = Some x ->
          index_map c !! it_obj_id x = Some i /\ it_index x = i).
Proof.
  intros c.
  assert (H0 : heap c !! 0%nat = Some (Item 1 "a" None 0 None)) by (vm_compute; reflexivity).
  assert (H1 : index_map c !! "a" = Some 1%nat) by (vm_compute; reflexivity).
  split; [exact H0|]. split; [exact H1|].
  intros Hall. destruct (Hall _ _ H0) as [Him _]. cbn [it_obj_id] in Him.
  rewrite H1 in Him. discriminate.
Qed.

(** ** Effects of the operations on the sessions and the address lists *)

Lemma same_frame_rest (c c' : container) :
  same_frame c c' <-> same_rest c c' /\ ip_to_sessions c' = ip_to_sessions c.
Proof.
  unfold same_frame, same_rest.
  split; [intros (?&?&?&?&?&?&?)|intros [(?&?&?&?&?&?) ?]]; repeat split; done.
Qed.

Lemma same_rest_refl (c : container) : same_rest c c.
Proof. by repeat split. Qed.

Lemma same_rest_trans (c1 c2 c3 : container) :
  same_rest c1 c2 -> same_rest c2 c3 -> same_rest c1 c3.
Proof.
  unfold same_rest. intros (?&?&?&?&?&?) (?&?&?&?&?&?). repeat split; congruence.
Qed.

Lemma same_rest_set_ip (m : gmap string (list string)) (c : container) :
  same_rest c (set_ip_to_sessions m c).
Proof. by repeat split. Qed.

Lemma sessions_set_ip (m : gmap string (list string)) (c : container) :
  sessions (set_ip_to_sessions m c) = sessions c.
Proof. reflexivity. Qed.

Lemma heap_nonempty_of_session (c : container) (k : string) (s : saved_item) :
  index_consistent c -> sessions c !! k = Some s ->
  exists root, heap c !! 0%nat = Some root.
Proof.
  intros Hc Hs. destruct (sessions_lookup_Some c k s Hc Hs) as (i & x & _ & Hx & _).
  apply lookup_lt_is_Some_2. apply lookup_lt_Some in Hx. lia.
Qed.

Lemma evict_over_cap_within (cfg : config) (fuel : nat) (normalized_ip : string)
    (c : container) (l : list string) :
  ip_to_sessions c !! normalized_ip = Some l ->
  Z.of_nat (length l) <= MAX_SESSIONS_PER_IP cfg ->
  evict_over_cap cfg (S fuel) normalized_ip c = (Ok tt, c).
Proof.
  intros Hl Hlen. simpl. rewrite Hl.
  destruct (Z.gtb_spec (Z.of_nat (length l)) (MAX_SESSIONS_PER_IP cfg)); [lia|done].
Qed.

(** One forced eviction: the head of the address's list is alive and every
    other session has a positive priority, so giving it priority 0 brings it
    to the root and the pop removes it. *)
Lemma evict_over_cap_one (cfg : config) (fuel : nat) (normalized_ip : string)
    (c : container) (first : string) (rest : list string) (s : saved_item) :
  heap_inv c ->
  ip_to_sessions c !! normalized_ip = Some (first :: rest) ->
  Z.of_nat (length rest) = MAX_SESSIONS_PER_IP cfg ->
  sessions c !! first = Some s ->
  (forall k s', k ≠ first -> sessions c !! k = Some s' -> 0 < sv_priority s') ->
  exists c',
    evict_over_cap cfg (S (S fuel)) normalized_ip c = (Ok tt, c')
    /\ heap_inv c'
    /\ sessions c' = delete first (sessions c)
    /\ ip_to_sessions c' = <[normalized_ip := rest]> (ip_to_sessions c)
    /\ same_rest c c'.
Proof.
  intros Hinv Hl Hlen Hs Hpos.
  destruct (update_priority_spec first 0 c s Hinv Hs)
    as (c1 & Hrun1 & Hinv1 & Hsess1 & Hframe1 & _).
  assert (Hs1 : sessions c1 !! first
                = Some (Saved 0 first (sv_storage s) (sv_client_ip s))).
  { by rewrite Hsess1, lookup_insert_eq. }
  destruct (heap_nonempty_of_session c1 first _ (proj2 Hinv1) Hs1) as [root Hroot].
  destruct (pop_spec c1 root Hinv1 Hroot) as (c2 & Hrun2 & Hinv2 & Hsess2 & Hframe2 & _).
  assert (Hrootid : it_obj_id root = first).
  { destruct (decide (it_obj_id root = first)) as [|Hne]; [done|exfalso].
    destruct (sessions_lookup_Some c1 first _ (proj2 Hinv1) Hs1)
      as (i & x & _ & Hx & _ & Hsx).
    pose proof (heap_root_minimal _ _ (proj1 Hinv1) Hroot i x Hx) as Hmin.
    assert (Hpx : it_priority x = 0)
      by (apply (f_equal sv_priority) in Hsx; exact Hsx).
    pose proof (sessions_lookup_item c1 0 root (proj2 Hinv1) Hroot) as Hsr.
    rewrite Hsess1, lookup_insert_ne in Hsr by done.
    pose proof (Hpos _ _ Hne Hsr) as Hp. simpl in Hp. lia. }
  apply same_frame_rest in Hframe1, Hframe2.
  destruct Hframe1 as [Hrest1 Hip1]. destruct Hframe2 as [Hrest2 Hip2].
  assert (Hl2 : ip_to_sessions c2 !! normalized_ip = Some (first :: rest))
    by (by rewrite Hip2, Hip1).
  set (c3 := set_ip_to_sessions (<[normalized_ip := rest]> (ip_to_sessions c2)) c2).
  exists c3. split.
  { change (evict_over_cap cfg (S (S fuel)) normalized_ip c) with
      (match ip_to_sessions c !! normalized_ip with
       | None => (Raise KeyError, c)
       | Some l =>
           if Z.of_nat (length l) >? MAX_SESSIONS_PER_IP cfg then
             match l with
             | [] => (Raise IndexError, c)
             | session_id_to_remove :: _ =>
                 (_update_priority session_id_to_remove 0 ;;
                  _pop ;;
                  (fun c' =>
                     match ip_to_sessions c' !! normalized_ip with
                     | None => (Raise KeyError, c')
                     | Some l' =>
                         (Ok tt,
                          set_ip_to_sessions
                            (<[normalized_ip := drop 1 l']> (ip_to_sessions c')) c')
                     end) ;;
                  evict_over_cap cfg (S fuel) normalized_ip) c
             end
           else (Ok tt, c)
       end).
    rewrite Hl.
    destruct (Z.gtb_spec (Z.of_nat (length (first :: rest))) (MAX_SESSIONS_PER_IP cfg))
      as [_|Hle]; [|simpl in Hle; lia].
    unfold bindM at 1. rewrite Hrun1. unfold bindM at 1. rewrite Hrun2.
    unfold bindM at 1. rewrite Hl2. simpl drop. fold c3.
    apply (evict_over_cap_within cfg fuel normalized_ip c3 rest).
    - unfold c3. simpl. by rewrite lookup_insert_eq.
    - lia. }
  split; [by apply heap_inv_set_ip|]. split.
  { unfold c3. rewrite sessions_set_ip, Hsess2, Hrootid, Hsess1.
    by rewrite delete_insert_eq. }
  split.
  { unfold c3. simpl. by rewrite Hip2, Hip1. }
  eapply same_rest_trans; [exact Hrest1|].
  eapply same_rest_trans; [exact Hrest2|]. apply same_rest_set_ip.
Qed.

Lemma addition_falsy (cfg : config) (identifier : string) (client_ip : option string)
    (c : container) :
  truthy client_ip = false ->
  _handle_client_ip_and_session_addition cfg identifier client_ip c = (Ok tt, c).
Proof. intros H. unfold _handle_client_ip_and_session_addition. by rewrite H. Qed.

Lemma addition_new_list (cfg : config) (identifier : string) (client_ip : option string)
    (c : container) :
  truthy client_ip = true ->
  ip_to_sessions c !! _normalize_ip_for_limiting (str_of client_ip) = None ->
  _handle_client_ip_and_session_addition cfg identifier client_ip c
  = (Ok tt,
     set_ip_to_sessions
       (<[_normalize_ip_for_limiting (str_of client_ip) := [identifier]]>
          (ip_to_sessions c)) c).
Proof.
  intros H Hl. unfold _handle_client_ip_and_session_addition. by rewrite H, Hl.
Qed.

Lemma addition_append (cfg : config) (identifier : string) (client_ip : option string)
    (c : container) (l : list string) :
  truthy client_ip = true ->
  ip_to_sessions c !! _normalize_ip_for_limiting (str_of client_ip) = Some l ->
  Z.of_nat (length l) < MAX_SESSIONS_PER_IP cfg ->
  _handle_client_ip_and_session_addition cfg identifier client_ip c
  = (Ok tt,
     set_ip_to_sessions
       (<[_normalize_ip_for_limiting (str_of client_ip) := l ++ [identifier]]>
          (ip_to_sessions c)) c).
Proof.
  intros H Hl Hlen. unfold _handle_client_ip_and_session_addition.
  rewrite H, Hl. cbn [negb].
  apply (evict_over_cap_within cfg _ _ _ (l ++ [identifier])).
  - simpl. by rewrite lookup_insert_eq.
  - rewrite length_app. simpl. lia.
Qed.

Lemma addition_evict_one (cfg : config) (identifier : string)
    (client_ip : option string) (c : container) (first : string)
    (rest : list string) (s : saved_item) :
  truthy client_ip = true ->
  ip_to_sessions c !! _normalize_ip_for_limiting (str_of client_ip)
    = Some (first :: rest) ->
  Z.of_nat (length (first :: rest)) = MAX_SESSIONS_PER_IP cfg ->
  heap_inv c ->
  sessions c !! first = Some s ->
  (forall k s', k ≠ first -> sessions c !! k = Some s' -> 0 < sv_priority s') ->
  exists c',
    _handle_client_ip_and_session_addition cfg identifier client_ip c = (Ok tt, c')
    /\ heap_inv c'
    /\ sessions c' = delete first (sessions c)
    /\ ip_to_sessions c'
       = <[_normalize_ip_for_limiting (str_of client_ip) := rest ++ [identifier]]>
           (ip_to_sessions c)
    /\ same_rest c c'.
Proof.
  intros H Hl Hlen Hinv Hs Hpos.
  set (n_ip := _normalize_ip_for_limiting (str_of client_ip)) in *.
  set (c1 := set_ip_to_sessions
               (<[n_ip := (first :: rest) ++ [identifier]]> (ip_to_sessions c)) c).
  destruct (evict_over_cap_one cfg (length (rest ++ [identifier])) n_ip c1 first
              (rest ++ [identifier]) s)
    as (c' & Hrun & Hinv' & Hsess' & Hip' & Hrest').
  - by apply heap_inv_set_ip.
  - unfold c1. simpl. by rewrite lookup_insert_eq.
  - rewrite length_app. simpl in *. lia.
  - done.
  - done.
  - exists c'. split.
    { unfold _handle_client_ip_and_session_addition. fold n_ip. rewrite H, Hl.
      cbn [negb]. fold c1. exact Hrun. }
    split; [done|]. split; [done|]. split.
    + rewrite Hip'. unfold c1. simpl. by rewrite insert_insert_eq.
    + eapply same_rest_trans; [|exact Hrest']. apply same_rest_set_ip.
Qed.

Lemma size_index_map (c : container) :
  index_consistent c -> size (index_map c) = size (sessions c).
Proof. intros Hc. by rewrite <- !size_dom, sessions_dom. Qed.

Lemma sessions_fresh (d : bool) (m : Z) : sessions (fresh d m) = ∅.
Proof. unfold sessions. simpl. apply omap_empty. Qed.

(** The last step of a creation in [get_or_create] (line 903), when the new
    session is in the heap. *)
Lemma created_session_lookup (c : container) (target : string) (s : saved_item) :
  heap_inv c -> sessions c !! target = Some s ->
  match index_map c !! target with
  | None => (Raise TypeError, c)
  | Some i =>
      match heap c !! i with
      | None => (Raise IndexError, c)
      | Some x => (Ok (Some target, it_data x), c)
      end
  end = (Ok (Some target, sv_storage s), c).
Proof.
  intros Hinv Hs.
  destruct (sessions_lookup_Some c target s (proj2 Hinv) Hs) as (i & x & -> & -> & _ & <-).
  reflexivity.
Qed.

(** [get_or_create] on an id the container does not hold, below the global
    cap: a storage is allocated and the session pushed. *)
Lemma get_or_create_create (cfg : config) (target : string)
    (client_ip : option string) (now : Z) (c : container) (st : InMemoryStorage) :
  index_map c !! target = None ->
  Z.of_nat (size (index_map c)) < MAX_SESSIONS c ->
  InMemoryStorage_init cfg = Ok st ->
  get_or_create cfg target client_ip now c
  = (push cfg now target (Some (length (mem c))) client_ip ;;
     (fun c' =>
        match index_map c' !! target with
        | None => (Raise TypeError, c')
        | Some i =>
            match heap c' !! i with
            | None => (Raise IndexError, c')
            | Some x => (Ok (Some target, it_data x), c')
            end
        end)) (set_mem (mem c ++ [st]) c).
Proof.
  intros Hnew Hsize Hst. unfold get_or_create. rewrite Hnew.
  destruct (Z.geb_spec (Z.of_nat (size (index_map c))) (MAX_SESSIONS c)); [lia|].
  unfold bindM at 1. unfold ret at 1. unfold bindM at 1.
  unfold new_storage at 1. rewrite Hst. reflexivity.
Qed.

Lemma heap_inv_set_mem (m : list InMemoryStorage) (c : container) :
  heap_inv c -> heap_inv (set_mem m c).
Proof. by apply heap_inv_ext. Qed.

Lemma truthy_Some (s : string) : s ≠ "" -> truthy (Some s) = true.
Proof. intros H. unfold truthy. apply negb_true_iff. by apply String.eqb_neq. Qed.

Lemma push_unfold (cfg : config) (priority : Z) (session_id : string)
    (data : option loc) (client_ip : option string) (c : container) :
  push cfg priority session_id data client_ip c
  = _handle_client_ip_and_session_addition cfg session_id client_ip
      (_push priority session_id data client_ip c).
Proof. reflexivity. Qed.

Lemma get_storage_cookie (cfg : config) (sid : string) (client_ip jwt_token : option string)
    (now : Z) (uuid : string) (c : container) :
  DISABLE_ISOLATION_MODE c = false -> sid ≠ "" ->
  get_storage cfg (Some sid) client_ip jwt_token now uuid c
  = get_or_create cfg sid client_ip now c.
Proof.
  intros Hiso Hsid. unfold get_storage, resolve_target.
  rewrite Hiso, (truthy_Some sid Hsid). cbn [negb andb].
  rewrite (truthy_Some sid Hsid). reflexivity.
Qed.

(** ** Three sessions from one address under a cap of two *)

(** C5.  With the per-address cap at 2 (and room under the global cap), the
    sessions [s1], [s2], [s3] created in that order from one address: all
    three calls return; [s1] is still in the index map after the second; the
    third evicts it, so that afterwards [s1] is in neither the index map nor
    the address's list, and that list is exactly [[s2; s3]]. *)
Theorem third_session_from_address_evicts_first (cfg : config) (max_sessions : Z)
    (s1 s2 s3 ip : string) (t1 t2 t3 : Z) (u1 u2 u3 : string) :
  MAX_SESSIONS_PER_IP cfg = 2 ->
  is_ok (InMemoryStorage_init cfg) = true ->
  3 <= max_sessions ->
  s1 ≠ "" -> s2 ≠ "" -> s3 ≠ "" -> s1 ≠ s2 -> s1 ≠ s3 -> s2 ≠ s3 ->
  ip ≠ "" ->
  0 < t2 -> 0 < t3 ->
  let r1 := get_storage cfg (Some s1) (Some ip) None t1 u1 (fresh false max_sessions) in
  let r2 := get_storage cfg (Some s2) (Some ip) None t2 u2 (state_after r1) in
  let r3 := get_storage cfg (Some s3) (Some ip) None t3 u3 (state_after r2) in
  fst r1 = Ok (Some s1, Some 0%nat)
  /\ fst r2 = Ok (Some s2, Some 1%nat)
  /\ fst r3 = Ok (Some s3, Some 2%nat)
  /\ is_Some (index_map (state_after r2) !! s1)
  /\ index_map (state_after r3) !! s1 = None
  /\ is_Some (index_map (state_after r3) !! s2)
  /\ is_Some (index_map (state_after r3) !! s3)
  /\ ip_to_sessions (state_after r3) !! _normalize_ip_for_limiting ip = Some [s2; s3]
  /\ s1 ∉ [s2; s3].
Proof.
  intros Hcap Hinit Hmax Hs1 Hs2 Hs3 H12 H13 H23 Hip Ht2 Ht3.
  destruct (InMemoryStorage_init cfg) as [st|] eqn:Hst; [|done]. clear Hinit.
  assert (Htip : truthy (Some ip) = true) by (by apply truthy_Some).
  set (n_ip := _normalize_ip_for_limiting ip).
  set (c0 := fresh false max_sessions).
  (* first call *)
  set (m0 := set_mem (mem c0 ++ [st]) c0).
  destruct (push_spec t1 s1 (Some 0%nat) (Some ip) m0) as (Hinv1 & Hsess1 & Hfr1 & _);
    [apply heap_inv_set_mem, heap_inv_fresh|reflexivity|].
  set (p1 := _push t1 s1 (Some 0%nat) (Some ip) m0) in *.
  apply same_frame_rest in Hfr1. destruct Hfr1 as [Hrest1 Hips1].
  set (c1 := set_ip_to_sessions (<[n_ip := [s1]]> (ip_to_sessions p1)) p1).
  assert (Hr1 : get_storage cfg (Some s1) (Some ip) None t1 u1 c0
                = (Ok (Some s1, Some 0%nat), c1)).
  { rewrite get_storage_cookie by done.
    rewrite (get_or_create_create cfg s1 (Some ip) t1 c0 st); [|done| |done].
    2:{ change (index_map c0) with (∅ : gmap string nat).
        rewrite map_size_empty. simpl. lia. }
    unfold bindM. rewrite push_unfold. fold m0. change (length (mem c0)) with 0%nat.
    fold p1. rewrite addition_new_list; [|done|by rewrite Hips1].
    fold n_ip. fold c1.
    apply (created_session_lookup c1 s1 (Saved t1 s1 (Some 0%nat) (Some ip))).
    - by apply heap_inv_set_ip.
    - unfold c1. rewrite sessions_set_ip, Hsess1. by rewrite lookup_insert_eq. }
  assert (Hinv_c1 : heap_inv c1) by (by apply heap_inv_set_ip).
  assert (Hsess_c1 : sessions c1 = <[s1 := Saved t1 s1 (Some 0%nat) (Some ip)]> ∅).
  { unfold c1. rewrite sessions_set_ip, Hsess1. reflexivity. }
  assert (Hips_c1 : ip_to_sessions c1 = <[n_ip := [s1]]> ∅).
  { unfold c1. proj_simpl. by rewrite Hips1. }
  assert (Hmem_c1 : mem c1 = [st]).
  { unfold c1. proj_simpl. by rewrite (proj2 (proj2 (proj2 (proj2 (proj2 Hrest1))))). }
  assert (Hiso_c1 : DISABLE_ISOLATION_MODE c1 = false).
  { unfold c1. proj_simpl. by rewrite (proj1 Hrest1). }
  assert (Hmax_c1 : MAX_SESSIONS c1 = max_sessions).
  { unfold c1. proj_simpl. by rewrite (proj1 (proj2 Hrest1)). }
  clearbody c1. clear Hrest1 Hips1 Hsess1 Hinv1. clearbody p1. clear p1 m0.
  (* second call *)
  set (m1 := set_mem (mem c1 ++ [st]) c1).
  assert (Hnew2 : index_map c1 !! s2 = None).
  { apply (index_map_sessions_None c1 s2 (proj2 Hinv_c1)).
    rewrite Hsess_c1. by rewrite lookup_insert_ne, lookup_empty. }
  destruct (push_spec t2 s2 (Some 1%nat) (Some ip) m1) as (Hinv2 & Hsess2 & Hfr2 & _);
    [by apply heap_inv_set_mem|done|].
  set (p2 := _push t2 s2 (Some 1%nat) (Some ip) m1) in *.
  apply same_frame_rest in Hfr2. destruct Hfr2 as [Hrest2 Hips2].
  set (c2 := set_ip_to_sessions (<[n_ip := [s1] ++ [s2]]> (ip_to_sessions p2)) p2).
  assert (Hr2 : get_storage cfg (Some s2) (Some ip) None t2 u2 c1
                = (Ok (Some s2, Some 1%nat), c2)).
  { rewrite get_storage_cookie by done.
    rewrite (get_or_create_create cfg s2 (Some ip) t2 c1 st); [|done| |done].
    2:{ rewrite size_index_map, Hsess_c1 by apply Hinv_c1.
        rewrite map_size_insert_None, map_size_empty by apply lookup_empty. lia. }
    unfold bindM. rewrite push_unfold. fold m1. rewrite Hmem_c1.
    change (length [st]) with 1%nat. fold p2.
    rewrite (addition_append cfg s2 (Some ip) p2 [s1]); [|done| |simpl; lia].
    2:{ rewrite Hips2. unfold m1. proj_simpl. rewrite Hips_c1. by rewrite lookup_insert_eq. }
    fold n_ip. fold c2.
    apply (created_session_lookup c2 s2 (Saved t2 s2 (Some 1%nat) (Some ip))).
    - by apply heap_inv_set_ip.
    - unfold c2. rewrite sessions_set_ip, Hsess2. by rewrite lookup_insert_eq. }
  assert (Hinv_c2 : heap_inv c2) by (by apply heap_inv_set_ip).
  assert (Hsess_c2 : sessions c2
            = <[s2 := Saved t2 s2 (Some 1%nat) (Some ip)]>
                (<[s1 := Saved t1 s1 (Some 0%nat) (Some ip)]> ∅)).
  { unfold c2. rewrite sessions_set_ip, Hsess2. unfold m1. by rewrite <- Hsess_c1. }
  assert (Hips_c2 : ip_to_sessions c2 !! n_ip = Some [s1; s2]).
  { unfold c2. proj_simpl. by rewrite lookup_insert_eq. }
  assert (Hmem_c2 : mem c2 = [st; st]).
  { unfold c2. proj_simpl. rewrite (proj2 (proj2 (proj2 (proj2 (proj2 Hrest2))))).
    unfold m1. proj_simpl. by rewrite Hmem_c1. }
  assert (Hiso_c2 : DISABLE_ISOLATION_MODE c2 = false).
  { unfold c2. proj_simpl. rewrite (proj1 Hrest2). exact Hiso_c1. }
  assert (Hmax_c2 : MAX_SESSIONS c2 = max_sessions).
  { unfold c2. proj_simpl. rewrite (proj1 (proj2 Hrest2)). exact Hmax_c1. }
  clearbody c2. clear Hrest2 Hips2 Hsess2 Hinv2. clearbody p2. clear p2 m1.
  (* third call *)
  set (m2 := set_mem (mem c2 ++ [st]) c2).
  assert (Hnew3 : index_map c2 !! s3 = None).
  { apply (index_map_sessions_None c2 s3 (proj2 Hinv_c2)).
    rewrite Hsess_c2. by rewrite !lookup_insert_ne, lookup_empty. }
  destruct (push_spec t3 s3 (Some 2%nat) (Some ip) m2) as (Hinv3 & Hsess3 & Hfr3 & _);
    [by apply heap_inv_set_mem|done|].
  set (p3 := _push t3 s3 (Some 2%nat) (Some ip) m2) in *.
  apply same_frame_rest in Hfr3. destruct Hfr3 as [Hrest3 Hips3].
  assert (Hsess_p3 : sessions p3
            = <[s3 := Saved t3 s3 (Some 2%nat) (Some ip)]>
                (<[s2 := Saved t2 s2 (Some 1%nat) (Some ip)]>
                   (<[s1 := Saved t1 s1 (Some 0%nat) (Some ip)]> ∅))).
  { rewrite Hsess3. unfold m2. by rewrite <- Hsess_c2. }
  destruct (addition_evict_one cfg s3 (Some ip) p3 s1 [s2]
              (Saved t1 s1 (Some 0%nat) (Some ip)))
    as (c3 & Hrun3 & Hinv_c3 & Hsess_c3 & Hips_c3 & Hrest_c3).
  { done. }
  { rewrite Hips3. unfold m2. proj_simpl. exact Hips_c2. }
  { simpl. lia. }
  { done. }
  { rewrite Hsess_p3. do 2 (rewrite lookup_insert_ne by done).
    by rewrite lookup_insert_eq. }
  { intros k s' Hk. rewrite Hsess_p3.
    destruct (decide (k = s3)) as [->|Hk3].
    { rewrite lookup_insert_eq. by intros [= <-]. }
    rewrite lookup_insert_ne by done.
    destruct (decide (k = s2)) as [->|Hk2].
    { rewrite lookup_insert_eq. by intros [= <-]. }
    rewrite lookup_insert_ne by done.
    rewrite lookup_insert_ne by done. by rewrite lookup_empty. }
  assert (Hr3 : get_storage cfg (Some s3) (Some ip) None t3 u3 c2
                = (Ok (Some s3, Some 2%nat), c3)).
  { rewrite get_storage_cookie by done.
    rewrite (get_or_create_create cfg s3 (Some ip) t3 c2 st); [|done| |done].
    2:{ rewrite size_index_map, Hsess_c2 by apply Hinv_c2.
        rewrite !map_size_insert_None, map_size_empty;
          [lia|apply lookup_empty|by rewrite lookup_insert_ne, lookup_empty]. }
    unfold bindM. rewrite push_unfold. fold m2. rewrite Hmem_c2.
    change (length [st; st]) with 2%nat. fold p3. rewrite Hrun3.
    apply (created_session_lookup c3 s3 (Saved t3 s3 (Some 2%nat) (Some ip))); [done|].
    rewrite Hsess_c3, Hsess_p3.
    by rewrite lookup_delete_ne, lookup_insert_eq. }
  intros r1 r2 r3.
  assert (E1 : r1 = (Ok (Some s1, Some 0%nat), c1)) by exact Hr1.
  assert (E2 : r2 = (Ok (Some s2, Some 1%nat), c2)).
  { unfold r2. rewrite E1. exact Hr2. }
  assert (E3 : r3 = (Ok (Some s3, Some 2%nat), c3)).
  { unfold r3. rewrite E2. exact Hr3. }
  rewrite E1, E2, E3. unfold state_after. simpl fst. simpl snd.
  assert (Hlive : forall k, is_Some (sessions c3 !! k) -> is_Some (index_map c3 !! k)).
  { intros k Hk. apply elem_of_dom. rewrite <- (sessions_dom c3 (proj2 Hinv_c3)).
    by apply elem_of_dom. }
  split; [done|]. split; [done|]. split; [done|]. split.
  { apply elem_of_dom. rewrite <- (sessions_dom c2 (proj2 Hinv_c2)).
    apply elem_of_dom. rewrite Hsess_c2.
    by rewrite lookup_insert_ne, lookup_insert_eq. }
  split.
  { apply (index_map_sessions_None c3 s1 (proj2 Hinv_c3)).
    rewrite Hsess_c3. apply lookup_delete_eq. }
  split.
  { apply Hlive. rewrite Hsess_c3, Hsess_p3.
    by rewrite lookup_delete_ne, lookup_insert_ne, lookup_insert_eq. }
  split.
  { apply Hlive. rewrite Hsess_c3, Hsess_p3.
    by rewrite lookup_delete_ne, lookup_insert_eq. }
  split.
  { rewrite Hips_c3. by rewrite lookup_insert_eq. }
  intros Hin. apply elem_of_cons in Hin. destruct Hin as [?|Hin]; [done|].
  apply list_elem_of_singleton in Hin. done.
Qed.

(** The scenario of the specification, with the cap set to 2. *)
Lemma third_session_from_address_evicts_first_witness :
  let cfg := Config 2 64 60 20 20 100 100 in
  let r1 := get_storage cfg (Some "s1") (Some "192.168.1.1") None 1 "" (fresh false 3000) in
  let r2 := get_storage cfg (Some "s2") (Some "192.168.1.1") None 2 "" (state_after r1) in
  let r3 := get_storage cfg (Some "s3") (Some "192.168.1.1") None 3 "" (state_after r2) in
  index_map (state_after r3) !! "s1" = None
  /\ ip_to_sessions (state_after r3) !! "192.168.1.1" = Some ["s2"; "s3"].
Proof.
  intros cfg r1 r2 r3.
  destruct (third_session_from_address_evicts_first cfg 3000 "s1" "s2" "s3"
              "192.168.1.1" 1 2 3 "" "" "")
    as (_ & _ & _ & _ & Hgone & _ & _ & Hlist & _);
    [reflexivity|reflexivity|lia|done|done|done|done|done|done|done|lia|lia|].
  split; [exact Hgone|exact Hlist].
Defined.

(** ** The public [pop] *)

Lemma eviction_effect (identifier : string) (client_ip : option string) (c : container) :
  _handle_client_ip_and_session_eviction identifier client_ip c
  = (Ok tt, set_ip_to_sessions (ips_remove identifier client_ip (ip_to_sessions c)) c).
Proof.
  unfold _handle_client_ip_and_session_eviction, ips_remove.
  destruct c as [d m h im j jo ips sh me]. proj_simpl.
  destruct (negb (truthy client_ip)); [done|].
  destruct (ips !! _) as [l|]; [|done].
  by destruct (filter _ l).
Qed.

Lemma pop_effect (c : container) (root : item) :
  heap_inv c -> heap c !! 0%nat = Some root ->
  exists c',
    pop c = (Ok (Some root), c')
    /\ heap_inv c'
    /\ sessions c' = delete (it_obj_id root) (sessions c)
    /\ ip_to_sessions c'
       = ips_remove (it_obj_id root) (it_client_ip root) (ip_to_sessions c)
    /\ same_rest c c'
    /\ S (length (heap c')) = length (heap c).
Proof.
  intros Hinv Hroot.
  destruct (pop_spec c root Hinv Hroot) as (c1 & Hrun & Hinv1 & Hsess1 & Hfr1 & Hlen1).
  apply same_frame_rest in Hfr1. destruct Hfr1 as [Hrest1 Hips1].
  eexists. split.
  { unfold pop, bindM. rewrite Hrun. rewrite eviction_effect. reflexivity. }
  split; [by apply heap_inv_set_ip|]. split; [done|].
  split; [proj_simpl; by rewrite Hips1|].
  split; [|done].
  eapply same_rest_trans; [exact Hrest1|apply same_rest_set_ip].
Qed.

(** ** Credential lookup *)

Lemma user_matches_spec (email hashed_password : string) (u : obj) :
  is_Some (u !! "email") -> is_Some (u !! "password") ->
  exists b, user_matches email hashed_password u = Ok b
            /\ (b = true <-> u !! "email" = Some email
                             /\ u !! "password" = Some hashed_password).
Proof.
  intros [e He] [p Hp]. unfold user_matches. rewrite He, Hp.
  destruct (String.eqb_spec e email) as [->|Hne].
  - destruct (String.eqb_spec p hashed_password) as [->|Hne].
    + by exists true.
    + exists false. split; [done|]. split; [done|]. intros [_ ?]. congruence.
  - exists false. split; [done|]. split; [done|]. intros [? _]. congruence.
Qed.

Lemma any_user_matches_spec (email hashed_password : string) (us : list obj) :
  (forall u, u ∈ us ->
     is_Some (u !! "email") /\ is_Some (u !! "password") /\ is_Some (u !! "id")) ->
  exists b, any_user_matches email hashed_password us = Ok b
            /\ (b = true <-> exists u, u ∈ us /\ u !! "email" = Some email
                                       /\ u !! "password" = Some hashed_password).
Proof.
  induction us as [|u us IH]; intros Hok.
  - exists false. split; [done|]. split; [done|].
    intros (u & Hu & _). by apply elem_of_nil in Hu.
  - destruct (Hok u) as (He & Hp & [i Hi]); [left|].
    destruct (user_matches_spec email hashed_password u He Hp) as (b & Hb & Hiff).
    simpl. rewrite Hb. destruct b.
    + rewrite Hi. exists true. split; [done|]. split; [|done].
      intros _. exists u. split; [left|]. by apply Hiff.
    + destruct IH as (b & Hb' & Hiff'); [intros; apply Hok; by right|].
      exists b. split; [done|]. rewrite Hiff'. split.
      * intros (v & Hv & Hm). exists v. split; [by right|done].
      * intros (v & Hv & Hm). apply elem_of_cons in Hv as [->|Hv].
        -- apply Hiff in Hm. done.
        -- by exists v.
Qed.

(** The scan over the entries returns the first entry whose store holds a
    matching user, or nothing when no store does. *)
Lemma find_in_items_spec (m : list InMemoryStorage) (email hashed_password : string)
    (items : list item) :
  (forall x, x ∈ items ->
     exists l st, it_data x = Some l /\ m !! l = Some st /\ users_have_credentials st) ->
  (exists x l st, x ∈ items /\ it_data x = Some l /\ m !! l = Some st
                  /\ has_user email hashed_password st
                  /\ find_in_items m email hashed_password items
                     = Ok (Some (it_obj_id x, l)))
  \/ (find_in_items m email hashed_password items = Ok None
      /\ forall x l st, x ∈ items -> it_data x = Some l -> m !! l = Some st ->
                        ~ has_user email hashed_password st).
Proof.
  induction items as [|x items IH]; intros Hok.
  - right. split; [done|]. intros x l st Hx. by apply elem_of_nil in Hx.
  - destruct (Hok x) as (l & st & Hd & Hm & Hu); [left|].
    destruct (any_user_matches_spec email hashed_password _ Hu) as (b & Hb & Hiff).
    simpl. rewrite Hd, Hm, Hb. destruct b.
    + left. exists x, l, st. split; [left|]. do 2 (split; [done|]).
      split; [|done]. by apply Hiff.
    + destruct IH as [(y & l' & st' & Hy & Hd' & Hm' & Hh & Hf)|[Hf Hno]].
      { intros; apply Hok; by right. }
      * left. exists y, l', st'. split; [by right|done].
      * right. split; [done|]. intros y l' st' Hy Hd' Hm' Hh.
        apply elem_of_cons in Hy as [->|Hy]; [|by eapply Hno].
        assert (l' = l) by congruence. subst l'.
        assert (st' = st) by congruence. subst st'.
        apply Hiff in Hh. done.
Qed.

(** ** [get_storage] keeps the heap invariant *)

Lemma pop_keeps_absent (target : string) :
  preserves (fun c => heap_inv c /\ index_map c !! target = None) pop.
Proof.
  intros c [Hinv Hnone]. destruct (heap c) as [|root rest] eqn:Hh.
  - unfold pop, bindM. rewrite (pop_empty c Hh). done.
  - destruct (pop_effect c root Hinv) as (c' & Hrun & Hinv' & Hsess & _);
      [by rewrite Hh|].
    rewrite Hrun. split; [done|].
    apply (index_map_sessions_None c' target (proj2 Hinv')).
    rewrite Hsess. apply lookup_delete_None. right.
    by apply (index_map_sessions_None c target (proj2 Hinv)).
Qed.

Lemma get_or_create_preserves_heap_inv (cfg : config) (target : string)
    (client_ip : option string) (now : Z) :
  preserves heap_inv (get_or_create cfg target client_ip now).
Proof.
  intros c Hinv. unfold get_or_create.
  destruct (index_map c !! target) as [i|] eqn:Ht.
  - destruct (heap c !! i); [|done].
    refine (preserves_bind heap_inv _ _ _ _ c Hinv).
    + apply update_priority_preserves_heap_inv.
    + intros _. apply preserves_ret.
  - set (m1 := if Z.of_nat (size (index_map c)) >=? MAX_SESSIONS c
               then pop ;; ret tt else ret tt).
    assert (H1 : preserves (fun c => heap_inv c /\ index_map c !! target = None) m1).
    { unfold m1. destruct (_ >=? _); [|apply preserves_ret].
      apply preserves_bind; [apply pop_keeps_absent|intros ?; apply preserves_ret]. }
    specialize (H1 c (conj Hinv Ht)). unfold bindM, state_after in *.
    destruct (m1 c) as [[[]|e] c1]; simpl in H1; [|by destruct H1].
    destruct H1 as [Hinv1 Ht1]. unfold new_storage.
    destruct (InMemoryStorage_init cfg) as [st|e]; [|done].
    pose proof (push_keeps_heap_inv cfg now target (Some (length (mem c1))) client_ip
                  (set_mem (mem c1 ++ [st]) c1)
                  (heap_inv_set_mem _ _ Hinv1) Ht1) as H2.
    unfold state_after in H2.
    destruct (push cfg now target _ client_ip _) as [[[]|e] c2]; simpl in *; [|done].
    repeat case_match; done.
Qed.

Lemma get_storage_preserves_heap_inv (cfg : config)
    (session_id_from_cookie client_ip jwt_token : option string) (now : Z)
    (uuid : string) :
  preserves heap_inv
    (get_storage cfg session_id_from_cookie client_ip jwt_token now uuid).
Proof.
  intros c Hinv. unfold get_storage.
  destruct (DISABLE_ISOLATION_MODE c).
  - destruct (shared c); [done|].
    unfold bindM, new_storage, modify, ret.
    destruct (InMemoryStorage_init cfg); [|done]. simpl.
    by apply (heap_inv_ext c).
  - destruct (resolve_target _ _ _ c) as [target c1] eqn:Hr.
    apply get_or_create_preserves_heap_inv.
    unfold resolve_target in Hr.
    repeat case_match; simplify_eq; try done; by apply (heap_inv_ext c).
Qed.

(** C4, as the code has it.  The lookup scans the entries of the priority
    queue only.  When the session evicted by [pop] held, in its store, a user
    with the given email and hashed password, and another session still in
    the queue refers to the same store object, the lookup after the eviction
    returns a session that is in the queue, other than the evicted one,
    together with its store, which holds a user with these credentials; the
    stores are as before the eviction; and when no other store of the queue
    holds such a user, the returned store is the store of the evicted
    session, unchanged. *)
Theorem credential_lookup_after_eviction (c : container) (root : item) (l : loc)
    (st : InMemoryStorage) (email hashed_password : string)
    (k : string) (s : saved_item) :
  DISABLE_ISOLATION_MODE c = false ->
  heap_inv c -> stores_ok c ->
  heap c !! 0%nat = Some root -> it_data root = Some l ->
  mem c !! l = Some st -> has_user email hashed_password st ->
  k ≠ it_obj_id root -> sessions c !! k = Some s -> sv_storage s = Some l ->
  exists c',
    pop c = (Ok (Some root), c')
    /\ mem c' = mem c
    /\ sessions c' !! it_obj_id root = None
    /\ exists sid l' st',
         find_session_by_credentials email hashed_password c' = Ok (Some (sid, l'))
         /\ sid ≠ it_obj_id root
         /\ (exists s', sessions c' !! sid = Some s' /\ sv_storage s' = Some l')
         /\ mem c' !! l' = Some st'
         /\ has_user email hashed_password st'
         /\ ((forall k2 s2 l2 st2,
                sessions c !! k2 = Some s2 -> sv_storage s2 = Some l2 ->
                mem c !! l2 = Some st2 -> has_user email hashed_password st2 ->
                l2 = l)
             -> l' = l /\ st' = st).
Proof.
  intros Hiso Hinv Hok Hroot Hdata Hmem Huser Hk Hs Hsl.
  destruct (pop_effect c root Hinv Hroot)
    as (c' & Hpop & Hinv' & Hsess & _ & Hrest & _).
  destruct Hrest as (Hiso' & _ & _ & _ & _ & Hmem').
  exists c'. split; [done|]. split; [done|].
  split; [rewrite Hsess; apply lookup_delete_eq|].
  assert (Hitems : forall x, x ∈ heap c' ->
            sessions c !! it_obj_id x = Some (saved_of x)
            /\ it_obj_id x ≠ it_obj_id root).
  { intros x Hx. apply list_elem_of_lookup in Hx as [i Hi].
    pose proof (sessions_lookup_item c' i x (proj2 Hinv') Hi) as Hx.
    rewrite Hsess in Hx. apply lookup_delete_Some in Hx as [Hne Hx]. done. }
  destruct (find_in_items_spec (mem c') email hashed_password (heap c'))
    as [(x & l' & st' & Hx & Hd & Hm & Hh & Hf)|[_ Hno]].
  - intros x Hx. destruct (Hitems x Hx) as [Hsx _].
    destruct (Hok _ _ Hsx) as (l0 & st0 & Hl0 & Hm0 & Hu0).
    exists l0, st0. by rewrite Hmem'.
  - destruct (Hitems x Hx) as [Hsx Hne].
    exists (it_obj_id x), l', st'. split.
    { unfold find_session_by_credentials. by rewrite Hiso', Hiso. }
    split; [done|]. split.
    { exists (saved_of x). split; [|done].
      rewrite Hsess, lookup_delete_ne by done. done. }
    split; [done|]. split; [done|].
    intros Honly. rewrite Hmem' in Hm.
    assert (l' = l) by (eapply Honly; eauto). subst l'.
    split; [done|congruence].
  - exfalso.
    assert (Hs' : sessions c' !! k = Some s)
      by (rewrite Hsess, lookup_delete_ne by done; done).
    destruct (sessions_lookup_Some c' k s (proj2 Hinv') Hs')
      as (i & x & _ & Hx & _ & Hsx).
    apply (Hno x l st); [by eapply list_elem_of_lookup_2| |by rewrite Hmem'|done].
    rewrite <- Hsx in Hsl. done.
Qed.

Lemma add_user_preserves_heap_inv (cfg : config) (l : loc) (user : obj) :
  preserves heap_inv (add_user cfg l user).
Proof.
  intros c Hinv. unfold add_user. destruct (mem c !! l) as [st|]; [|done].
  destruct (InMemoryModel.add _ _ _) as [r u']. by apply heap_inv_set_mem.
Qed.

(** Two sessions sharing one store, as after a login from a second client
    (line 1556): the older one is evicted, the lookup finds the other one. *)
Lemma credential_lookup_after_eviction_witness :
  let cfg := default_config in
  let c1 := state_after (get_storage cfg (Some "s1") (Some "10.0.0.1") None 1 ""
                           (fresh false 3000)) in
  let user : obj := {[ "email" := "a@b.c"; "password" := "h"; "username" := "alice" ]} in
  let c2 := state_after (add_user cfg 0%nat user c1) in
  let c3 := state_after (push cfg 2 "s2" (Some 0%nat) (Some "10.0.0.2") c2) in
  exists sid l' st',
    find_session_by_credentials "a@b.c" "h" (state_after (pop c3)) = Ok (Some (sid, l'))
    /\ mem c3 !! l' = Some st'
    /\ has_user "a@b.c" "h" st'.
Proof.
  intros cfg c1 user c2 c3.
  assert (Hinv1 : heap_inv c1).
  { apply get_storage_preserves_heap_inv, heap_inv_fresh. }
  assert (Hinv2 : heap_inv c2) by (by apply add_user_preserves_heap_inv).
  assert (Hinv3 : heap_inv c3) by (by apply push_keeps_heap_inv).
  destruct (mem c3 !! 0%nat) as [st|] eqn:Hst; [|by vm_compute in Hst].
  assert (Hcred : users_have_credentials st /\ has_user "a@b.c" "h" st).
  { vm_compute in Hst. injection Hst as <-. split.
    - intros u Hu. apply list_elem_of_singleton in Hu. subst u.
      repeat split; by eexists.
    - eexists. split; [by apply list_elem_of_singleton|]. by split. }
  destruct (credential_lookup_after_eviction c3
              (Item 1 "s1" (Some 0%nat) 0%nat (Some "10.0.0.1")) 0%nat st
              "a@b.c" "h" "s2" (Saved 2 "s2" (Some 0%nat) (Some "10.0.0.2")))
    as (c' & Hpop & Hmem & _ & sid & l' & st' & Hf & _ & _ & Hm & Hh & _).
  - reflexivity.
  - exact Hinv3.
  - intros k s Hs.
    destruct (sessions_lookup_Some c3 k s (proj2 Hinv3) Hs)
      as (i & x & _ & Hx & _ & <-).
    exists 0%nat, st. split; [|split; [exact Hst|apply Hcred]].
    destruct i as [|[|i]]; vm_compute in Hx; by simplify_eq.
  - by vm_compute.
  - reflexivity.
  - exact Hst.
  - apply Hcred.
  - done.
  - by vm_compute.
  - reflexivity.
  - exists sid, l', st'. rewrite Hpop. simpl. rewrite <- Hmem. done.
Defined.

(** Where C4 as worded fails: the only session that refers to the store is
    the evicted one.  Before the eviction the lookup finds the user; after
    it, the lookup returns nothing. *)
Lemma credential_lookup_fails_after_eviction :
  let cfg := default_config in
  let c1 := state_after (get_storage cfg (Some "s1") (Some "10.0.0.1") None 1 ""
                           (fresh false 3000)) in
  let user : obj := {[ "email" := "a@b.c"; "password" := "h"; "username" := "alice" ]} in
  let c2 := state_after (add_user cfg 0%nat user c1) in
  let r := pop c2 in
  find_session_by_credentials "a@b.c" "h" c2 = Ok (Some ("s1", 0%nat))
  /\ (exists x, fst r = Ok (Some x) /\ it_obj_id x = "s1")
  /\ index_map (state_after r) !! "s1" = None
  /\ find_session_by_credentials "a@b.c" "h" (state_after r) = Ok None.
Proof.
  intros cfg c1 user c2 r.
  split; [by vm_compute|]. split; [eexists; split; by vm_compute|].
  split; by vm_compute.
Qed.

(** ** [save_data]: draining and pushing back *)

Lemma ips_remove_len (identifier : string) (client_ip : option string)
    (ips : gmap string (list string)) (N : string) :
  (truthy client_ip = true ->
   identifier ∈ default [] (ips !! _normalize_ip_for_limiting (str_of client_ip))) ->
  (len_at N (ips_remove identifier client_ip ips)
   + (if in_class N client_ip then 1 else 0) <= len_at N ips)%nat.
Proof.
  intros Hl. unfold ips_remove, in_class.
  destruct (truthy client_ip) eqn:Ht; simpl; [|lia].
  specialize (Hl eq_refl).
  set (n := _normalize_ip_for_limiting (str_of client_ip)) in *.
  destruct (ips !! n) as [l|] eqn:Hn; simpl in Hl; [|by apply elem_of_nil in Hl].
  assert (Hlt : (length (filter (fun e => e ≠ identifier) l) < length l)%nat).
  { apply (length_filter_lt _ l identifier Hl). intros Hne. by apply Hne. }
  unfold len_at.
  destruct (filter _ l) as [|y l'] eqn:Hf; case_bool_decide as HN.
  - subst N. rewrite lookup_delete_eq, Hn. simpl in *. lia.
  - rewrite lookup_delete_ne by done. lia.
  - subst N. rewrite lookup_insert_eq, Hn. simpl in *. lia.
  - rewrite lookup_insert_ne by done. lia.
Qed.

Lemma ips_remove_listed (identifier : string) (client_ip : option string)
    (ips : gmap string (list string)) (k N : string) :
  k ≠ identifier -> k ∈ default [] (ips !! N) ->
  k ∈ default [] (ips_remove identifier client_ip ips !! N).
Proof.
  intros Hne Hk. unfold ips_remove.
  destruct (negb (truthy client_ip)); [done|].
  set (n := _normalize_ip_for_limiting (str_of client_ip)).
  destruct (ips !! n) as [l|] eqn:Hn; [|done].
  destruct (decide (N = n)) as [->|HN].
  - rewrite Hn in Hk. simpl in Hk.
    assert (Hin : k ∈ filter (fun e => e ≠ identifier) l)
      by (by apply list_elem_of_filter).
    destruct (filter _ l) as [|y l']; [by apply elem_of_nil in Hin|].
    by rewrite lookup_insert_eq.
  - destruct (filter _ l).
    + by rewrite lookup_delete_ne.
    + by rewrite lookup_insert_ne.
Qed.

Lemma sessions_heap_nil (c : container) :
  heap_inv c -> heap c = [] -> sessions c = ∅.
Proof.
  intros Hinv Hh. apply map_empty. intros k.
  destruct (sessions c !! k) as [s|] eqn:Hs; [|done].
  destruct (sessions_lookup_Some c k s (proj2 Hinv) Hs) as (i & x & _ & Hx & _).
  rewrite Hh in Hx. by rewrite lookup_nil in Hx.
Qed.

Lemma insert_all_lookup_in (saved_items : list saved_item)
    (m : gmap string saved_item) (k : string) :
  k ∈ sv_session_id <$> saved_items -> is_Some (insert_all saved_items m !! k).
Proof.
  induction saved_items as [|s rest IH]; intros Hk.
  - by apply elem_of_nil in Hk.
  - rewrite fmap_cons in Hk. simpl.
    destruct (decide (k = sv_session_id s)) as [->|Hne].
    + rewrite lookup_insert_eq. by eexists.
    + rewrite lookup_insert_ne by done. apply IH.
      apply elem_of_cons in Hk as [?|?]; done.
Qed.

Lemma insert_all_commute (saved_items : list saved_item)
    (m : gmap string saved_item) (k : string) (x : saved_item) :
  k ∉ sv_session_id <$> saved_items ->
  insert_all saved_items (<[k := x]> m) = <[k := x]> (insert_all saved_items m).
Proof.
  induction saved_items as [|s rest IH]; intros Hk; [done|].
  rewrite fmap_cons in Hk. apply not_elem_of_cons in Hk as [Hne Hk].
  simpl. rewrite IH by done. by apply insert_insert_ne.
Qed.

(** The loop of lines 983-1008 empties the queue; the entries it records
    are the sessions of the container, each once, and what is left of an
    address list has room for the recorded entries of that address. *)
Lemma drain_spec (fuel : nat) :
  forall (c : container) (acc : list saved_item) (data : gmap string InMemoryStorage),
    heap_inv c -> payloads_present c -> addresses_listed c ->
    (length (heap c) <= fuel)%nat ->
    exists saved_items data' c',
      drain fuel acc data c = (Ok (acc ++ saved_items, data'), c')
      /\ heap_inv c'
      /\ sessions c' = ∅
      /\ sessions c = insert_all saved_items ∅
      /\ NoDup (sv_session_id <$> saved_items)
      /\ same_rest c c'
      /\ forall N, (len_at N (ip_to_sessions c') + class_count N saved_items
                    <= len_at N (ip_to_sessions c))%nat.
Proof.
  induction fuel as [|fuel IH]; intros c acc data Hinv Hpay Hlist Hlen.
  - exists [], data, c. rewrite app_nil_r.
    assert (Hh : heap c = []) by (destruct (heap c); [done|simpl in Hlen; lia]).
    rewrite (sessions_heap_nil c Hinv Hh). simpl.
    do 4 (split; [done|]). split; [apply NoDup_nil_2|].
      split; [apply same_rest_refl|]. intros N. simpl. lia.
  - destruct (heap c) as [|root rest] eqn:Hh.
    { exists [], data, c. rewrite app_nil_r. simpl. rewrite Hh.
      rewrite (sessions_heap_nil c Hinv Hh). simpl.
      do 4 (split; [done|]). split; [apply NoDup_nil_2|].
      split; [apply same_rest_refl|]. intros N. simpl. lia. }
    assert (Hroot : heap c !! 0%nat = Some root) by (by rewrite Hh).
    destruct (pop_effect c root Hinv Hroot)
      as (c1 & Hpop & Hinv1 & Hsess1 & Hips1 & Hrest1 & Hlen1).
    pose proof (sessions_lookup_item c 0 root (proj2 Hinv) Hroot) as Hsroot.
    pose proof (Hpay _ _ Hsroot) as [st Hst]. simpl in Hst.
    destruct (it_data root) as [l|] eqn:Hd; [|done]. simpl in Hst.
    assert (Hmem1 : mem c1 = mem c) by (by destruct Hrest1 as (_&_&_&_&_&?)).
    destruct (IH c1 (acc ++ [saved_of root]) (<[it_obj_id root := st]> data))
      as (sv & data' & c' & Hrun & Hinv' & Hempty & Hsv & Hnd & Hrest' & Hq).
    { done. }
    { intros k s Hs. rewrite Hsess1 in Hs. apply lookup_delete_Some in Hs as [_ Hs].
      rewrite Hmem1. by apply (Hpay k s). }
    { intros k s Hs Ht. rewrite Hsess1 in Hs.
      apply lookup_delete_Some in Hs as [Hne Hs].
      rewrite Hips1. apply ips_remove_listed; [done|]. by apply (Hlist k s). }
    { rewrite Hh in Hlen1. simpl in *. lia. }
    exists (saved_of root :: sv), data', c'.
    split.
    { simpl. rewrite Hh. unfold bindM. rewrite Hpop. rewrite Hd, Hmem1, Hst.
      rewrite Hrun. by rewrite <- app_assoc. }
    split; [done|]. split; [done|]. split.
    { simpl. rewrite <- Hsv, Hsess1. symmetry. by apply insert_delete_id. }
    split.
    { rewrite fmap_cons. constructor; [|done]. intros Hin.
      apply (insert_all_lookup_in sv ∅) in Hin. rewrite <- Hsv, Hsess1 in Hin.
      rewrite lookup_delete_eq in Hin. by destruct Hin. }
    split; [by eapply same_rest_trans|].
    intros N. specialize (Hq N). rewrite Hips1 in Hq.
    pose proof (ips_remove_len (it_obj_id root) (it_client_ip root)
                  (ip_to_sessions c) N) as Hr.
    simpl. specialize (Hr (Hlist _ _ Hsroot)). lia.
Qed.

Lemma addition_room (cfg : config) (identifier : string) (client_ip : option string)
    (c : container) :
  (truthy client_ip = true ->
   Z.of_nat (len_at (_normalize_ip_for_limiting (str_of client_ip)) (ip_to_sessions c))
   < MAX_SESSIONS_PER_IP cfg) ->
  exists ips1,
    _handle_client_ip_and_session_addition cfg identifier client_ip c
    = (Ok tt, set_ip_to_sessions ips1 c)
    /\ forall N, len_at N ips1
                 = (len_at N (ip_to_sessions c)
                    + (if in_class N client_ip then 1 else 0))%nat.
Proof.
  intros Hroom. unfold in_class. destruct (truthy client_ip) eqn:Ht.
  - specialize (Hroom eq_refl).
    set (n := _normalize_ip_for_limiting (str_of client_ip)) in *.
    unfold len_at in Hroom.
    destruct (ip_to_sessions c !! n) as [l|] eqn:Hn; simpl in Hroom.
    + exists (<[n := l ++ [identifier]]> (ip_to_sessions c)).
      split; [by apply addition_append|].
      intros N. unfold len_at. simpl. case_bool_decide as HN.
      * subst N. rewrite lookup_insert_eq, Hn. simpl. rewrite length_app. simpl. lia.
      * rewrite lookup_insert_ne by done. lia.
    + exists (<[n := [identifier]]> (ip_to_sessions c)).
      split; [by apply addition_new_list|].
      intros N. unfold len_at. simpl. case_bool_decide as HN.
      * subst N. rewrite lookup_insert_eq, Hn. simpl. lia.
      * rewrite lookup_insert_ne by done. lia.
  - exists (ip_to_sessions c). split.
    + rewrite addition_falsy by done. by destruct c.
    + intros N. simpl. lia.
Qed.

(** The loop of lines 1009-1010 puts every recorded entry back, when the
    entries are not in the queue, are distinct, and fit in the address
    lists; no entry is evicted on the way. *)
Lemma repush_spec (cfg : config) (saved_items : list saved_item) :
  forall d : container,
    heap_inv d ->
    NoDup (sv_session_id <$> saved_items) ->
    (forall k, k ∈ sv_session_id <$> saved_items -> sessions d !! k = None) ->
    (forall N, (0 < class_count N saved_items)%nat ->
               Z.of_nat (len_at N (ip_to_sessions d) + class_count N saved_items)
               <= MAX_SESSIONS_PER_IP cfg) ->
    exists d',
      repush cfg saved_items d = (Ok tt, d')
      /\ heap_inv d'
      /\ sessions d' = insert_all saved_items (sessions d)
      /\ same_rest d d'
      /\ forall N, len_at N (ip_to_sessions d')
                   = (len_at N (ip_to_sessions d) + class_count N saved_items)%nat.
Proof.
  induction saved_items as [|s rest IH]; intros d Hinv Hnd Hfresh Hq.
  - exists d. split; [done|]. split; [done|]. split; [done|].
    split; [apply same_rest_refl|]. intros N. simpl. lia.
  - rewrite fmap_cons in Hnd, Hfresh. apply NoDup_cons in Hnd as [Hnotin Hnd].
    assert (Hnone : index_map d !! sv_session_id s = None).
    { apply (index_map_sessions_None d _ (proj2 Hinv)). apply Hfresh. left. }
    destruct (push_spec (sv_priority s) (sv_session_id s) (sv_storage s)
                (sv_client_ip s) d Hinv Hnone) as (Hinv0 & Hsess0 & Hfr0 & _).
    set (d0 := _push (sv_priority s) (sv_session_id s) (sv_storage s)
                 (sv_client_ip s) d) in *.
    apply same_frame_rest in Hfr0. destruct Hfr0 as [Hrest0 Hips0].
    destruct (addition_room cfg (sv_session_id s) (sv_client_ip s) d0)
      as (ips1 & Hadd & Hlen1).
    { intros Ht. rewrite Hips0.
      specialize (Hq (_normalize_ip_for_limiting (str_of (sv_client_ip s)))).
      simpl in Hq. unfold in_class in Hq. rewrite Ht in Hq.
      rewrite bool_decide_eq_true_2 in Hq by done. simpl in Hq.
      specialize (Hq ltac:(lia)). lia. }
    assert (Hs : Saved (sv_priority s) (sv_session_id s) (sv_storage s)
                   (sv_client_ip s) = s) by (by destruct s).
    rewrite Hs in Hsess0.
    destruct (IH (set_ip_to_sessions ips1 d0)) as (d' & Hrun & Hinv' & Hsess' & Hrest' & Hq').
    { by apply heap_inv_set_ip. }
    { done. }
    { intros k Hk. rewrite sessions_set_ip, Hsess0.
      rewrite lookup_insert_ne by (intros Heq; apply Hnotin; by rewrite Heq).
      apply Hfresh. by right. }
    { intros N Hpos. proj_simpl. rewrite Hlen1, Hips0.
      specialize (Hq N). simpl in Hq. specialize (Hq ltac:(lia)). lia. }
    exists d'. split.
    { simpl. unfold bindM. rewrite push_unfold. fold d0. rewrite Hadd. exact Hrun. }
    split; [done|]. split.
    { rewrite Hsess', sessions_set_ip, Hsess0. simpl.
      by apply insert_all_commute. }
    split.
    { eapply same_rest_trans; [exact Hrest0|].
      eapply same_rest_trans; [apply same_rest_set_ip|exact Hrest']. }
    intros N. rewrite Hq'. proj_simpl. rewrite Hlen1, Hips0. simpl. lia.
Qed.

(** X23.  Where [save_data] is non-destructive.  On a container whose heap
    holds session entries only ([shared = None]: not the single store of
    the isolation-disabled mode), whose queue satisfies the heap invariant,
    whose sessions all carry a storage object, where every session with a
    client address is in the list of its normalized address and no address
    list is longer than the cap, [save_data] returns, and the container then
    holds the same session ids with the same priorities, storage objects and
    client addresses as before, the heap invariant holds again, the stores
    and the token tables are as before and no address list is longer than
    it was.  The container is the same whether the write succeeded or
    failed; only the returned flag differs.  Without a configured path the
    call changes nothing. *)
Theorem save_data_keeps_sessions (cfg : config) (c : container) :
  shared c = None ->
  heap_inv c -> payloads_present c -> addresses_listed c -> addresses_within cfg c ->
  exists data c',
    (forall write_ok : bool,
       save_data cfg true write_ok c
       = (Ok (write_ok, if write_ok then Some data else None), c'))
    /\ heap_inv c'
    /\ sessions c' = sessions c
    /\ same_rest c c'
    /\ (forall N, (len_at N (ip_to_sessions c') <= len_at N (ip_to_sessions c))%nat)
    /\ forall write_ok : bool, save_data cfg false write_ok c = (Ok (false, None), c).
Proof.
  intros _ Hinv Hpay Hlist Hwithin.
  destruct (drain_spec (length (heap c)) c [] ∅ Hinv Hpay Hlist (le_n _))
    as (sv & data & c1 & Hrun & Hinv1 & Hempty & Hsv & Hnd & Hrest1 & Hq1).
  simpl in Hrun.
  destruct (repush_spec cfg sv c1 Hinv1 Hnd) as (c2 & Hrep & Hinv2 & Hsess2 & Hrest2 & Hq2).
  { intros k _. by rewrite Hempty. }
  { intros N Hpos. specialize (Hq1 N).
    unfold len_at in Hq1 at 2.
    destruct (ip_to_sessions c !! N) as [l|] eqn:HN; simpl in Hq1; [|lia].
    pose proof (Hwithin N l HN) as Hle. simpl in Hle. lia. }
  exists data, c2. split.
  { intros write_ok. unfold save_data, bindM. simpl. rewrite Hrun. simpl.
    rewrite Hrep. by destruct write_ok. }
  split; [done|]. split; [by rewrite Hsess2, Hempty, Hsv|].
  split; [by eapply same_rest_trans|]. split; [|done].
  intros N. rewrite Hq2. apply Hq1.
Qed.

(** Three sessions made by [get_storage], two from one address and one
    from an IPv6 address, under the default caps. *)
Lemma save_data_keeps_sessions_witness :
  let cfg := default_config in
  let c1 := state_after (get_storage cfg (Some "s1") (Some "10.0.0.1") None 1 ""
                           (fresh false 3000)) in
  let c2 := state_after (get_storage cfg (Some "s2") (Some "10.0.0.1") None 2 "" c1) in
  let c3 := state_after (get_storage cfg (Some "s3") (Some "1:2:3:4:5:6:7:8") None 3 "" c2) in
  sessions (state_after (save_data cfg true false c3)) = sessions c3
  /\ sessions c3 !! "s3" = Some (Saved 3 "s3" (Some 2%nat) (Some "1:2:3:4:5:6:7:8")).
Proof.
  intros cfg c1 c2 c3.
  assert (Hinv3 : heap_inv c3).
  { do 3 apply get_storage_preserves_heap_inv. apply heap_inv_fresh. }
  destruct (save_data_keeps_sessions cfg c3 eq_refl Hinv3)
    as (data & c' & Hrun & _ & Hsess & _).
  - apply (bool_decide_unpack _). by vm_compute.
  - apply (bool_decide_unpack _). by vm_compute.
  - apply (bool_decide_unpack _). by vm_compute.
  - split; [by rewrite (Hrun false)|by vm_compute].
Defined.

(** C8.  [save_data] is not always non-destructive.  In isolation mode, on
    a container reached by five [get_storage] calls alone (the calls of C2,
    which leave the list of an address longer than the cap, with the id of
    a session that is gone), the heap invariant holds and every session has
    its store, yet [save_data] raises [ValueError] while pushing the entries
    back, and the session [w], popped and not yet pushed back, is no longer
    in the queue. *)
Theorem save_data_loses_session :
  let cfg := Config 1 64 60 20 20 100 100 in
  let a1 := "1:1:1:1:1:1:1:1" in
  let a2 := "2:2:2:2:2:2:2:2" in
  let c1 := state_after (get_storage cfg (Some "s") (Some a1) None 1 "" (fresh false 3000)) in
  let c2 := state_after (get_storage cfg (Some "s") (Some a2) None 2 "" c1) in
  let c3 := state_after (get_storage cfg (Some "u") (Some a1) None 3 "" c2) in
  let c4 := state_after (get_storage cfg (Some "v") (Some a2) None 4 "" c3) in
  let c5 := state_after (get_storage cfg (Some "w") (Some "10.0.0.1") None 5 "" c4) in
  let r := save_data cfg true true c5 in
  DISABLE_ISOLATION_MODE c5 = false
  /\ shared c5 = None
  /\ heap_inv c5
  /\ payloads_present c5
  /\ sessions c5 !! "w" = Some (Saved 5 "w" (Some 3%nat) (Some "10.0.0.1"))
  /\ ip_to_sessions c5 !! "2:2:2:2::/64" = Some ["s"; "v"]
  /\ fst r = Raise (ValueError "Object not found in heap")
  /\ sessions (state_after r) !! "w" = None.
Proof.
  intros cfg a1 a2 c1 c2 c3 c4 c5 r.
  split; [by vm_compute|]. split; [by vm_compute|].
  split. { do 5 apply get_storage_preserves_heap_inv. apply heap_inv_fresh. }
  split. { apply (bool_decide_unpack _). by vm_compute. }
  repeat split; by vm_compute.
Qed.

(** ** Dictionaries and filtered lists *)

Lemma filter_ne_notin (x : string) (l : list string) :
  x ∉ l -> filter (fun e => e ≠ x) l = l.
Proof.
  induction l as [|y l IH]; intros Hx; [done|].
  apply not_elem_of_cons in Hx as [Hne Hx].
  rewrite filter_cons_True by done. by rewrite IH.
Qed.

Lemma filter_ne_cons_perm (x : string) (l : list string) :
  NoDup l -> x ∈ l -> x :: filter (fun e => e ≠ x) l ≡ₚ l.
Proof.
  induction l as [|y l IH]; intros Hnd Hx; [by apply elem_of_nil in Hx|].
  apply NoDup_cons in Hnd as [Hy Hnd].
  destruct (decide (y = x)) as [->|Hne].
  - rewrite filter_cons_False by (intros H; by apply H).
    by rewrite filter_ne_notin.
  - rewrite filter_cons_True by done.
    apply elem_of_cons in Hx as [->|Hx]; [done|].
    rewrite Permutation_swap. by rewrite IH.
Qed.

Lemma filter_ne_snoc_perm (x : string) (l : list string) :
  NoDup l -> x ∈ l -> filter (fun e => e ≠ x) l ++ [x] ≡ₚ l.
Proof.
  intros Hnd Hx. rewrite <- (filter_ne_cons_perm x l Hnd Hx) at 2.
  by rewrite Permutation_app_comm.
Qed.

Lemma dict_get_None {V : Type} (k : string) (d : dict V) :
  dict_get k d = None <-> k ∉ dict_keys d.
Proof.
  induction d as [|[k' v] d IH]; simpl.
  - split; [intros _; apply not_elem_of_nil|done].
  - destruct (decide (k' = k)) as [->|Hne].
    + split; [done|]. intros H. exfalso. apply H. left.
    + rewrite IH, not_elem_of_cons. split; [intros H; split; [congruence|done]|by intros [_ H]].
Qed.

Lemma dict_get_set_eq {V : Type} (k : string) (v : V) (d : dict V) :
  dict_get k (dict_set k v d) = Some v.
Proof.
  induction d as [|[k' v'] d IH]; simpl.
  - by rewrite decide_True.
  - destruct (decide (k' = k)) as [->|Hne]; simpl.
    + by rewrite decide_True.
    + by rewrite decide_False.
Qed.

Lemma dict_get_set_ne {V : Type} (k k' : string) (v : V) (d : dict V) :
  k' ≠ k -> dict_get k' (dict_set k v d) = dict_get k' d.
Proof.
  intros Hne. induction d as [|[k0 v0] d IH]; simpl.
  - by rewrite decide_False.
  - destruct (decide (k0 = k)) as [->|Hne0]; simpl.
    + by rewrite !decide_False.
    + by rewrite IH.
Qed.

Lemma dict_keys_del {V : Type} (k : string) (d : dict V) :
  NoDup (dict_keys d) ->
  dict_keys (dict_del k d) = filter (fun e => e ≠ k) (dict_keys d).
Proof.
  induction d as [|[k' v] d IH]; intros Hnd; [done|].
  change (dict_keys ((k', v) :: d)) with (k' :: dict_keys d) in *.
  apply NoDup_cons in Hnd as [Hk' Hnd]. simpl.
  destruct (decide (k' = k)) as [->|Hne].
  - rewrite filter_cons_False by (intros H; by apply H).
    by rewrite filter_ne_notin.
  - rewrite filter_cons_True by done.
    change (dict_keys ((k', v) :: dict_del k d)) with (k' :: dict_keys (dict_del k d)).
    by rewrite IH.
Qed.

Lemma dict_get_del_ne {V : Type} (k k' : string) (d : dict V) :
  k' ≠ k -> dict_get k' (dict_del k d) = dict_get k' d.
Proof.
  intros Hne. induction d as [|[k0 v0] d IH]; simpl; [done|].
  destruct (decide (k0 = k)) as [->|Hne0]; simpl.
  - by rewrite decide_False.
  - by rewrite IH.
Qed.

Lemma dict_get_del_eq {V : Type} (k : string) (d : dict V) :
  NoDup (dict_keys d) -> dict_get k (dict_del k d) = None.
Proof.
  intros Hnd. apply dict_get_None. rewrite dict_keys_del by done.
  intros H. apply list_elem_of_filter in H as [H _]. by apply H.
Qed.

Lemma dict_del_length {V : Type} (k : string) (d : dict V) :
  k ∈ dict_keys d -> S (length (dict_del k d)) = length d.
Proof.
  induction d as [|[k' v] d IH]; intros Hk; [by apply elem_of_nil in Hk|].
  change (dict_keys ((k', v) :: d)) with (k' :: dict_keys d) in Hk. simpl.
  destruct (decide (k' = k)) as [->|Hne]; [done|].
  apply elem_of_cons in Hk as [->|Hk]; [done|]. simpl. by rewrite IH.
Qed.

Lemma dict_set_fresh {V : Type} (k : string) (v : V) (d : dict V) :
  k ∉ dict_keys d -> dict_set k v d = d ++ [(k, v)].
Proof.
  induction d as [|[k' v'] d IH]; intros Hk; [done|].
  change (dict_keys ((k', v') :: d)) with (k' :: dict_keys d) in Hk. simpl.
  apply not_elem_of_cons in Hk as [Hne Hk].
  rewrite decide_False by done. by rewrite IH.
Qed.

(** ** The object store under [add], [get] and [delete] *)

Lemma model_ok_fresh (N : Z) : 0 < N -> model_ok (fresh_model N).
Proof.
  intros HN. split; [done|]. split; [done|]. split; [simpl; lia|].
  split; [apply NoDup_nil_2|]. split; [done|].
  intros k Hk. by apply elem_of_nil in Hk.
Qed.

Lemma model_new_id_fresh (st : InMemoryModel.t) :
  model_ok st ->
  str_of_int (InMemoryModel.current_id_counter st)
  ∉ dict_keys (InMemoryModel.objects st).
Proof.
  intros (_ & _ & _ & _ & _ & Hkeys) Hin.
  destruct (Hkeys _ Hin) as (n & Heq & Hn).
  apply str_of_int_inj in Heq. lia.
Qed.

Lemma model_add_spec (max_id_len : Z) (o : obj) (st : InMemoryModel.t) :
  model_ok st ->
  Z.of_nat (String.length (str_of_int (InMemoryModel.current_id_counter st)))
  <= max_id_len ->
  let new_id := str_of_int (InMemoryModel.current_id_counter st) in
  let o' := <["id" := new_id]> o in
  exists st',
    InMemoryModel.add max_id_len o st = (Ok o', st')
    /\ model_ok st'
    /\ InMemoryModel.max_count st' = InMemoryModel.max_count st
    /\ InMemoryModel.current_id_counter st' = InMemoryModel.current_id_counter st + 1
    /\ if decide (Z.of_nat (length (InMemoryModel.objects st))
                  = InMemoryModel.max_count st)
       then exists evicted rest,
              InMemoryModel.last_accessed_ids st = evicted :: rest
              /\ InMemoryModel.last_accessed_ids st' = rest ++ [new_id]
              /\ InMemoryModel.objects st'
                 = dict_del evicted (InMemoryModel.objects st ++ [(new_id, o')])
       else InMemoryModel.last_accessed_ids st'
            = InMemoryModel.last_accessed_ids st ++ [new_id]
            /\ InMemoryModel.objects st' = InMemoryModel.objects st ++ [(new_id, o')].
Proof.
  intros Hok Hlen new_id o'.
  pose proof (model_new_id_fresh st Hok) as Hfresh. fold new_id in Hfresh, Hlen.
  destruct Hok as (Hmax & Hctr & Hsize & Hnd & Hperm & Hkeys).
  unfold InMemoryModel.add. fold new_id.
  destruct (Z.gtb_spec (Z.of_nat (String.length new_id)) max_id_len) as [?|_]; [lia|].
  fold o'. rewrite (dict_set_fresh new_id o' _ Hfresh).
  assert (Hkeys1 : dict_keys (InMemoryModel.objects st ++ [(new_id, o')])
                   = dict_keys (InMemoryModel.objects st) ++ [new_id]).
  { unfold dict_keys. by rewrite fmap_app. }
  assert (Hkeys' : forall k, k ∈ dict_keys (InMemoryModel.objects st) ++ [new_id] ->
                   exists n, k = str_of_int n
                             /\ 1 <= n < InMemoryModel.current_id_counter st + 1).
  { intros k Hk. apply elem_of_app in Hk as [Hk|Hk].
    - destruct (Hkeys k Hk) as (n & -> & Hn). exists n. split; [done|lia].
    - apply list_elem_of_singleton in Hk as ->.
      exists (InMemoryModel.current_id_counter st). split; [done|lia]. }
  rewrite length_app. simpl length.
  destruct (Z.gtb_spec (Z.of_nat (length (InMemoryModel.objects st) + 1))
              (InMemoryModel.max_count st)) as [Hfull|Hroom].
  - assert (Heq : Z.of_nat (length (InMemoryModel.objects st))
                  = InMemoryModel.max_count st) by lia.
    destruct (decide (Z.of_nat (length (InMemoryModel.objects st))
                      = InMemoryModel.max_count st)) as [_|?]; [|done].
    destruct (InMemoryModel.last_accessed_ids st) as [|evicted rest] eqn:Hla.
    { apply Permutation_length in Hperm. rewrite dict_keys_length in Hperm.
      simpl in Hperm. lia. }
    assert (Hev : evicted ∈ dict_keys (InMemoryModel.objects st)).
    { rewrite Hperm. left. }
    assert (Hev1 : evicted ∈ dict_keys (InMemoryModel.objects st ++ [(new_id, o')])).
    { rewrite Hkeys1. apply elem_of_app. by left. }
    destruct (dict_get_is_Some evicted _ Hev1) as [x Hx]. rewrite Hx.
    assert (Hnd1 : NoDup (dict_keys (InMemoryModel.objects st ++ [(new_id, o')]))).
    { rewrite Hkeys1. apply NoDup_app. split; [done|]. split.
      - intros k Hk Hk'. apply list_elem_of_singleton in Hk' as ->. done.
      - apply NoDup_singleton. }
    assert (Hne : new_id ≠ evicted) by (intros ->; done).
    assert (Hkeys2 : dict_keys (dict_del evicted (InMemoryModel.objects st ++ [(new_id, o')]))
                     = filter (fun e => e ≠ evicted) (dict_keys (InMemoryModel.objects st))
                       ++ [new_id]).
    { rewrite dict_keys_del by done. rewrite Hkeys1, filter_app.
      by rewrite (filter_cons_True _ new_id), filter_nil. }
    eexists. split; [reflexivity|]. split.
    { split; [done|]. split; [simpl; lia|]. split.
      { simpl. pose proof (dict_del_length evicted _ Hev1) as Hl.
        rewrite length_app in Hl. simpl in Hl. lia. }
      split.
      { simpl. rewrite dict_keys_del by done. by apply NoDup_filter. }
      split.
      { simpl. rewrite Hkeys2. apply Permutation_app_tail.
        apply (Permutation_cons_inv (a:=evicted)).
        rewrite filter_ne_cons_perm by done. done. }
      simpl. intros k Hk. apply Hkeys'. rewrite dict_keys_del in Hk by done.
      apply list_elem_of_filter in Hk as [_ Hk]. by rewrite <- Hkeys1. }
    split; [done|]. split; [done|]. by exists evicted, rest.
  - destruct (decide (Z.of_nat (length (InMemoryModel.objects st))
                      = InMemoryModel.max_count st)) as [?|_]; [lia|].
    eexists. split; [reflexivity|]. split.
    { split; [done|]. split; [simpl; lia|]. split.
      { simpl. rewrite length_app. simpl. lia. }
      split.
      { simpl. rewrite Hkeys1. apply NoDup_app. split; [done|]. split.
        - intros k Hk Hk'. apply list_elem_of_singleton in Hk' as ->. done.
        - apply NoDup_singleton. }
      split.
      { simpl. rewrite Hkeys1. by apply Permutation_app_tail. }
      simpl. intros k Hk. apply Hkeys'. by rewrite <- Hkeys1. }
    done.
Qed.

Lemma model_add_too_long (max_id_len : Z) (o : obj) (st : InMemoryModel.t) :
  max_id_len
  < Z.of_nat (String.length (str_of_int (InMemoryModel.current_id_counter st))) ->
  InMemoryModel.add max_id_len o st
  = (Raise (ValueError "cannot allocate id: we reached MAX_ID_LEN limit"), st).
Proof.
  intros Hlen. unfold InMemoryModel.add.
  destruct (Z.gtb_spec (Z.of_nat (String.length
              (str_of_int (InMemoryModel.current_id_counter st)))) max_id_len);
    [done|lia].
Qed.

Lemma model_get_spec (max_id_len : Z) (_id : string) (st : InMemoryModel.t) (o : obj) :
  model_ok st ->
  dict_get _id (InMemoryModel.objects st) = Some o ->
  model_ok (InMemoryModel.Build (InMemoryModel.max_count st) (InMemoryModel.objects st)
              (filter (fun e => e ≠ _id) (InMemoryModel.last_accessed_ids st) ++ [_id])
              (InMemoryModel.current_id_counter st)).
Proof.
  intros (Hmax & Hctr & Hsize & Hnd & Hperm & Hkeys) Hget.
  split; [done|]. split; [done|]. split; [done|]. split; [done|].
  split; [|done]. simpl.
  assert (Hin : _id ∈ dict_keys (InMemoryModel.objects st)).
  { destruct (decide (_id ∈ dict_keys (InMemoryModel.objects st))) as [?|Hn]; [done|].
    apply dict_get_None in Hn. congruence. }
  rewrite filter_ne_snoc_perm; [done| |by rewrite <- Hperm].
  by rewrite <- Hperm.
Qed.

Lemma model_delete_spec (_id : string) (st : InMemoryModel.t) (o : obj) :
  model_ok st ->
  dict_get _id (InMemoryModel.objects st) = Some o ->
  model_ok (InMemoryModel.Build (InMemoryModel.max_count st)
              (dict_del _id (InMemoryModel.objects st))
              (filter (fun cid => cid ≠ _id) (InMemoryModel.last_accessed_ids st))
              (InMemoryModel.current_id_counter st)).
Proof.
  intros (Hmax & Hctr & Hsize & Hnd & Hperm & Hkeys) Hget.
  assert (Hin : _id ∈ dict_keys (InMemoryModel.objects st)).
  { destruct (decide (_id ∈ dict_keys (InMemoryModel.objects st))) as [?|Hn]; [done|].
    apply dict_get_None in Hn. congruence. }
  split; [done|]. split; [done|]. simpl. split.
  { pose proof (dict_del_length _id _ Hin). lia. }
  rewrite dict_keys_del by done. split; [by apply NoDup_filter|].
  split; [by rewrite Hperm|].
  intros k Hk. apply list_elem_of_filter in Hk as [_ Hk]. by apply Hkeys.
Qed.

Lemma run_model_op_ok (max_id_len : Z) (op : model_op) (st : InMemoryModel.t) :
  model_ok st ->
  model_ok (state_after (run_model_op max_id_len op st))
  /\ (is_ok (fst (run_model_op max_id_len op st)) = true
      \/ exists msg, fst (run_model_op max_id_len op st) = Raise (ValueError msg)).
Proof.
  intros Hok. destruct op as [o|_id|_id]; unfold run_model_op, bindM.
  - destruct (Z_le_gt_dec
                (Z.of_nat (String.length
                   (str_of_int (InMemoryModel.current_id_counter st)))) max_id_len)
      as [Hle|Hgt].
    + destruct (model_add_spec max_id_len o st Hok Hle) as (st' & -> & Hok' & _).
      split; [done|]. by left.
    + rewrite model_add_too_long by lia. split; [done|]. right. by eexists.
  - unfold InMemoryModel.get.
    destruct (normalize_id max_id_len _id) as [s|e] eqn:Hn.
    + destruct (dict_get s (InMemoryModel.objects st)) as [o|] eqn:Hg.
      * split; [by eapply model_get_spec|by left].
      * split; [done|by left].
    + split; [done|]. right. unfold normalize_id in Hn.
      repeat case_match; simplify_eq; by eexists.
  - unfold InMemoryModel.delete.
    destruct (normalize_id max_id_len _id) as [s|e] eqn:Hn.
    + destruct (dict_get s (InMemoryModel.objects st)) as [o|] eqn:Hg.
      * split; [by eapply model_delete_spec|by left].
      * split; [done|by left].
    + split; [done|]. right. unfold normalize_id in Hn.
      repeat case_match; simplify_eq; by eexists.
Qed.

Lemma run_model_ops_ok (max_id_len : Z) (ops : list model_op) (st : InMemoryModel.t) :
  model_ok st -> model_ok (run_model_ops max_id_len ops st).
Proof.
  revert st. induction ops as [|op ops IH]; intros st Hok; [done|].
  simpl. apply IH. by apply run_model_op_ok.
Qed.

Lemma run_model_op_state (max_id_len : Z) (op : model_op) (st : InMemoryModel.t) :
  state_after (run_model_op max_id_len op st)
  = match op with
    | MAdd o => state_after (InMemoryModel.add max_id_len o st)
    | MGet _id => state_after (InMemoryModel.get max_id_len _id st)
    | MDelete _id => state_after (InMemoryModel.delete max_id_len _id st)
    end.
Proof.
  destruct op; unfold run_model_op, bindM;
    match goal with |- context [?f max_id_len ?a st] => by destruct (f max_id_len a st) as [[?|?] ?] end.
Qed.

Lemma run_model_op_frame (max_id_len : Z) (op : model_op) (st : InMemoryModel.t) :
  InMemoryModel.max_count (state_after (run_model_op max_id_len op st))
  = InMemoryModel.max_count st
  /\ InMemoryModel.current_id_counter st
     <= InMemoryModel.current_id_counter (state_after (run_model_op max_id_len op st)).
Proof.
  rewrite run_model_op_state. destruct op as [o|_id|_id].
  - unfold InMemoryModel.add. repeat case_match; simpl; split; (done || lia).
  - unfold InMemoryModel.get. repeat case_match; simpl; split; (done || lia).
  - unfold InMemoryModel.delete. repeat case_match; simpl; split; (done || lia).
Qed.

Lemma run_model_ops_max_count (max_id_len : Z) (ops : list model_op)
    (st : InMemoryModel.t) :
  InMemoryModel.max_count (run_model_ops max_id_len ops st)
  = InMemoryModel.max_count st.
Proof.
  revert st. induction ops as [|op ops IH]; intros st; [done|].
  simpl. rewrite IH. apply run_model_op_frame.
Qed.

Lemma run_model_ops_counter (max_id_len : Z) (ops : list model_op)
    (st : InMemoryModel.t) :
  InMemoryModel.current_id_counter st
  <= InMemoryModel.current_id_counter (run_model_ops max_id_len ops st).
Proof.
  revert st. induction ops as [|op ops IH]; intros st; [simpl; lia|].
  simpl. etrans; [apply (run_model_op_frame max_id_len op)|apply IH].
Qed.

(** X1.  Whatever sequence of [add], [get] and [delete] calls an object
    store created with capacity [N] has seen, returning or raising, it holds
    at most [N] records, its access-order list names exactly the stored ids,
    each once, and the next call returns or raises [ValueError] (a rejected
    id, or the id counter grown past [MAX_ID_LEN]): reading the head of the
    access-order list and deleting the evicted id in [add] never fail. *)
Theorem model_consistent_after_any_calls (max_id_len N : Z) (st0 : InMemoryModel.t)
    (ops : list model_op) (op : model_op) :
  InMemoryModel.init N = Ok st0 ->
  let st := run_model_ops max_id_len ops st0 in
  InMemoryModel.max_count st = N
  /\ Z.of_nat (length (InMemoryModel.objects st)) <= N
  /\ NoDup (InMemoryModel.last_accessed_ids st)
  /\ (forall k, k ∈ InMemoryModel.last_accessed_ids st
                <-> is_Some (dict_get k (InMemoryModel.objects st)))
  /\ (is_ok (fst (run_model_op max_id_len op st)) = true
      \/ exists msg, fst (run_model_op max_id_len op st) = Raise (ValueError msg)).
Proof.
  intros Hinit st. unfold InMemoryModel.init in Hinit.
  destruct (Z.leb_spec N 0) as [|HN]; [done|]. injection Hinit as <-.
  assert (Hok : model_ok st).
  { apply run_model_ops_ok. by apply (model_ok_fresh N). }
  assert (Hmax : InMemoryModel.max_count st = N).
  { unfold st. by rewrite run_model_ops_max_count. }
  pose proof (run_model_op_ok max_id_len op st Hok) as [_ Hres].
  destruct Hok as (_ & _ & Hsize & Hnd & Hperm & _).
  split; [done|]. split; [lia|]. split; [by rewrite <- Hperm|].
  split; [|done]. intros k. rewrite <- Hperm. split.
  - apply dict_get_is_Some.
  - intros [x Hx]. destruct (decide (k ∈ dict_keys (InMemoryModel.objects st)))
      as [?|Hn]; [done|]. apply dict_get_None in Hn. congruence.
Qed.

Lemma model_consistent_after_any_calls_witness :
  let st := run_model_ops 64
              [MAdd ∅; MAdd ∅; MGet (PyInt 1); MAdd ∅; MDelete (PyStr "3"); MGet PyOther]
              (fresh_model 2) in
  Z.of_nat (length (InMemoryModel.objects st)) <= 2
  /\ NoDup (InMemoryModel.last_accessed_ids st).
Proof.
  intros st.
  destruct (model_consistent_after_any_calls 64 2 (fresh_model 2)
              [MAdd ∅; MAdd ∅; MGet (PyInt 1); MAdd ∅; MDelete (PyStr "3"); MGet PyOther]
              (MAdd ∅) eq_refl) as (_ & Hsize & Hnd & _).
  split; [exact Hsize|exact Hnd].
Defined.

(** X2.  A record that [add] has stored is the one [get] returns for the id
    [add] gave it, asked for as a number or as a string; the id is the
    decimal rendering of the counter; and this [get], of the most recent id,
    leaves the store as it is. *)
Theorem model_get_after_add (max_id_len : Z) (o : obj) (st : InMemoryModel.t) :
  model_ok st ->
  Z.of_nat (String.length (str_of_int (InMemoryModel.current_id_counter st)))
  <= max_id_len ->
  exists o' st',
    InMemoryModel.add max_id_len o st = (Ok o', st')
    /\ o' = <["id" := str_of_int (InMemoryModel.current_id_counter st)]> o
    /\ InMemoryModel.get max_id_len (PyInt (InMemoryModel.current_id_counter st)) st'
       = (Ok (Some o'), st')
    /\ InMemoryModel.get max_id_len
         (PyStr (str_of_int (InMemoryModel.current_id_counter st))) st'
       = (Ok (Some o'), st').
Proof.
  intros Hok Hlen.
  pose proof (model_new_id_fresh st Hok) as Hfresh.
  destruct (model_add_spec max_id_len o st Hok Hlen)
    as (st' & Hadd & Hok' & _ & _ & Hcase).
  set (new_id := str_of_int (InMemoryModel.current_id_counter st)) in *.
  set (o' := <["id" := new_id]> o) in *.
  exists o', st'. split; [done|]. split; [done|].
  assert (Hget : dict_get new_id (InMemoryModel.objects st') = Some o'
                 /\ exists la, InMemoryModel.last_accessed_ids st' = la ++ [new_id]
                               /\ new_id ∉ la).
  { destruct Hok as (_ & _ & _ & Hnd & Hperm & _).
    destruct (decide _) as [_|_].
    - destruct Hcase as (evicted & rest & Hla & Hla' & Hobjs).
      assert (Hne : new_id ≠ evicted).
      { intros ->. apply Hfresh. rewrite Hperm, Hla. left. }
      split.
      + rewrite Hobjs, dict_get_del_ne by done.
        rewrite <- (dict_set_fresh new_id o' _ Hfresh). apply dict_get_set_eq.
      + exists rest. split; [done|]. intros Hin. apply Hfresh.
        rewrite Hperm, Hla. by right.
    - destruct Hcase as [Hla' Hobjs]. split.
      + rewrite Hobjs, <- (dict_set_fresh new_id o' _ Hfresh). apply dict_get_set_eq.
      + exists (InMemoryModel.last_accessed_ids st). split; [done|].
        by rewrite <- Hperm. }
  destruct Hget as [Hget (la & Hla & Hnotin)].
  assert (Hsame : InMemoryModel.get max_id_len (PyStr new_id) st' = (Ok (Some o'), st')).
  { unfold InMemoryModel.get, normalize_id.
    destruct (Z.gtb_spec (Z.of_nat (String.length new_id)) max_id_len) as [?|_]; [lia|].
    rewrite Hget. f_equal. rewrite Hla, filter_app, filter_ne_notin by done.
    rewrite filter_cons_False by (intros H; by apply H). rewrite filter_nil, app_nil_r.
    rewrite <- Hla. by destruct st'. }
  split; [|done]. exact Hsame.
Qed.

Lemma model_get_after_add_witness :
  exists o' st',
    InMemoryModel.add 64 {["name" := "x"]} (fresh_model 3) = (Ok o', st')
    /\ InMemoryModel.get 64 (PyInt 1) st' = (Ok (Some o'), st').
Proof.
  destruct (model_get_after_add 64 {["name" := "x"]} (fresh_model 3))
    as (o' & st' & Hadd & _ & Hget & _).
  - by apply model_ok_fresh.
  - by vm_compute.
  - exists o', st'. split; [exact Hadd|exact Hget].
Defined.

(** X3.  Eviction follows the access order, not the insertion order.  On a
    full store whose access-order list starts with [a] then [b], an [add]
    evicts [a]; but after a [get] of [a], the same [add] keeps [a] and
    evicts [b] instead, and the list ends with [a] and the new id. *)
Theorem model_get_protects_from_eviction (max_id_len : Z) (o : obj)
    (st : InMemoryModel.t) (a b : string) (rest : list string) :
  model_ok st ->
  Z.of_nat (length (InMemoryModel.objects st)) = InMemoryModel.max_count st ->
  InMemoryModel.last_accessed_ids st = a :: b :: rest ->
  Z.of_nat (String.length a) <= max_id_len ->
  Z.of_nat (String.length (str_of_int (InMemoryModel.current_id_counter st)))
  <= max_id_len ->
  let new_id := str_of_int (InMemoryModel.current_id_counter st) in
  let st_add := state_after (InMemoryModel.add max_id_len o st) in
  let st_get := state_after (InMemoryModel.get max_id_len (PyStr a) st) in
  let st_get_add := state_after (InMemoryModel.add max_id_len o st_get) in
  dict_get a (InMemoryModel.objects st_add) = None
  /\ InMemoryModel.last_accessed_ids st_add = b :: rest ++ [new_id]
  /\ dict_get a (InMemoryModel.objects st_get_add) = dict_get a (InMemoryModel.objects st)
  /\ is_Some (dict_get a (InMemoryModel.objects st))
  /\ dict_get b (InMemoryModel.objects st_get_add) = None
  /\ InMemoryModel.last_accessed_ids st_get_add = rest ++ [a; new_id].
Proof.
  intros Hok Hfull Hla Hlena Hlen new_id st_add st_get st_get_add.
  pose proof (model_new_id_fresh st Hok) as Hfresh. fold new_id in Hfresh.
  pose proof Hok as (_ & _ & _ & Hnd & Hperm & _).
  assert (Hnd_la : NoDup (a :: b :: rest)) by (by rewrite <- Hla, <- Hperm).
  apply NoDup_cons in Hnd_la as [Ha Hnd_la]. apply NoDup_cons in Hnd_la as [Hb Hnd_la].
  apply not_elem_of_cons in Ha as [Hab Ha].
  assert (Hina : a ∈ dict_keys (InMemoryModel.objects st)) by (rewrite Hperm, Hla; left).
  assert (Hinb : b ∈ dict_keys (InMemoryModel.objects st))
    by (rewrite Hperm, Hla; right; left).
  destruct (dict_get_is_Some a _ Hina) as [oa Hoa].
  assert (Hnd1 : forall x, NoDup (dict_keys (InMemoryModel.objects st ++ [(new_id, x)]))).
  { intros x. unfold dict_keys. rewrite fmap_app. apply NoDup_app. split; [done|]. split.
    - intros k Hk Hk'. apply list_elem_of_singleton in Hk'. simpl in Hk'. by subst k.
    - apply NoDup_singleton. }
  (* the plain add *)
  destruct (model_add_spec max_id_len o st Hok Hlen) as (st1 & Hadd & _ & _ & _ & Hcase1).
  destruct (decide _) as [_|?]; [|done].
  destruct Hcase1 as (ev & rest1 & Hla1 & Hla1' & Hobjs1).
  rewrite Hla in Hla1. injection Hla1 as <- <-.
  assert (Hst_add : st_add = st1) by (unfold st_add; by rewrite Hadd).
  (* the get *)
  assert (Hget : st_get = InMemoryModel.Build (InMemoryModel.max_count st)
                   (InMemoryModel.objects st) (b :: rest ++ [a])
                   (InMemoryModel.current_id_counter st)).
  { unfold st_get, InMemoryModel.get, normalize_id.
    destruct (Z.gtb_spec (Z.of_nat (String.length a)) max_id_len) as [?|_]; [lia|].
    rewrite Hoa. simpl. f_equal. rewrite Hla.
    rewrite filter_cons_False by (intros H; by apply H).
    rewrite filter_ne_notin; [done|]. apply not_elem_of_cons. split; [congruence|done]. }
  assert (Hok_get : model_ok st_get).
  { unfold st_get, InMemoryModel.get, normalize_id.
    destruct (Z.gtb_spec (Z.of_nat (String.length a)) max_id_len) as [?|_]; [lia|].
    rewrite Hoa. simpl. by eapply model_get_spec. }
  destruct (model_add_spec max_id_len o st_get Hok_get) as (st2 & Hadd2 & _ & _ & _ & Hcase2).
  { by rewrite Hget. }
  rewrite Hget in Hcase2. simpl in Hcase2.
  destruct (decide _) as [_|?]; [|done].
  destruct Hcase2 as (ev2 & rest2 & Hla2 & Hla2' & Hobjs2).
  injection Hla2 as <- <-.
  assert (Hst2 : st_get_add = st2) by (unfold st_get_add; by rewrite Hadd2).
  rewrite Hst_add, Hst2, Hobjs1, Hobjs2, Hla1', Hla2'. fold new_id.
  split; [by apply dict_get_del_eq|]. split; [done|]. split.
  { rewrite dict_get_del_ne by done.
    rewrite <- (dict_set_fresh new_id _ _ Hfresh).
    apply dict_get_set_ne. by intros ->. }
  split; [by eexists|]. split; [by apply dict_get_del_eq|].
  by rewrite <- app_assoc.
Qed.

Lemma model_get_protects_from_eviction_witness :
  let st := run_model_ops 64 [MAdd ∅; MAdd ∅; MAdd ∅] (fresh_model 3) in
  let st_get := state_after (InMemoryModel.get 64 (PyStr "1") st) in
  let st_get_add := state_after (InMemoryModel.add 64 ∅ st_get) in
  dict_get "2" (InMemoryModel.objects st_get_add) = None
  /\ InMemoryModel.last_accessed_ids st_get_add = ["3"; "1"; "4"].
Proof.
  intros st st_get st_get_add.
  destruct (model_get_protects_from_eviction 64 ∅ st "1" "2" ["3"])
    as (_ & _ & _ & _ & Hb & Hla).
  - apply run_model_ops_ok. by apply model_ok_fresh.
  - reflexivity.
  - reflexivity.
  - by vm_compute.
  - by vm_compute.
  - split; [exact Hb|exact Hla].
Defined.

(** X4.  [delete] returns [True] exactly when the id was stored; after it,
    [get] of that id finds nothing, every other record is where it was, and
    the id counter has not moved, so the id is not handed out again. *)
Theorem model_delete_then_get (max_id_len : Z) (_id : pyval) (k : string)
    (st : InMemoryModel.t) :
  model_ok st ->
  normalize_id max_id_len _id = Ok k ->
  exists st',
    InMemoryModel.delete max_id_len _id st
    = (Ok (bool_decide (is_Some (dict_get k (InMemoryModel.objects st)))), st')
    /\ InMemoryModel.get max_id_len _id st' = (Ok None, st')
    /\ (forall k', k' ≠ k ->
          dict_get k' (InMemoryModel.objects st') = dict_get k' (InMemoryModel.objects st))
    /\ InMemoryModel.current_id_counter st' = InMemoryModel.current_id_counter st
    /\ model_ok st'.
Proof.
  intros Hok Hn. pose proof Hok as (_ & _ & _ & Hnd & _).
  unfold InMemoryModel.delete, InMemoryModel.get. rewrite Hn.
  destruct (dict_get k (InMemoryModel.objects st)) as [o|] eqn:Hg.
  - eexists. split; [by rewrite bool_decide_eq_true_2|]. simpl.
    rewrite dict_get_del_eq by done. split; [done|].
    split; [intros k' Hne; by apply dict_get_del_ne|].
    split; [done|]. by eapply model_delete_spec.
  - exists st. split; [by rewrite bool_decide_eq_false_2 by (by intros [? ?])|].
    rewrite Hg. done.
Qed.

Lemma model_delete_then_get_witness :
  let st := run_model_ops 64 [MAdd ∅; MAdd ∅] (fresh_model 3) in
  exists st',
    InMemoryModel.delete 64 (PyInt 1) st = (Ok true, st')
    /\ InMemoryModel.get 64 (PyInt 1) st' = (Ok None, st').
Proof.
  intros st.
  destruct (model_delete_then_get 64 (PyInt 1) "1" st) as (st' & Hdel & Hget & _).
  - apply run_model_ops_ok. by apply model_ok_fresh.
  - reflexivity.
  - exists st'. split; [exact Hdel|exact Hget].
Defined.

(** X5.  An id is never handed out twice: whatever calls come between two
    [add] calls that return, deletions included, the two records get
    different ids. *)
Theorem model_ids_never_reused (max_id_len : Z) (o1 o2 o1' o2' : obj)
    (st st1 st2 : InMemoryModel.t) (ops : list model_op) :
  InMemoryModel.add max_id_len o1 st = (Ok o1', st1) ->
  InMemoryModel.add max_id_len o2 (run_model_ops max_id_len ops st1) = (Ok o2', st2) ->
  id_of o1' ≠ id_of o2'
  /\ id_of o1' = Some (str_of_int (InMemoryModel.current_id_counter st)).
Proof.
  intros Hadd1 Hadd2.
  pose proof (run_model_ops_counter max_id_len ops st1) as Hmono.
  set (st' := run_model_ops max_id_len ops st1) in *.
  assert (H1 : o1' = <["id" := str_of_int (InMemoryModel.current_id_counter st)]> o1
               /\ InMemoryModel.current_id_counter st1
                  = InMemoryModel.current_id_counter st + 1).
  { unfold InMemoryModel.add in Hadd1. repeat case_match; simplify_eq; done. }
  assert (H2 : o2' = <["id" := str_of_int (InMemoryModel.current_id_counter st')]> o2).
  { unfold InMemoryModel.add in Hadd2. repeat case_match; simplify_eq; done. }
  destruct H1 as [-> Hc1]. subst o2'. unfold id_of. rewrite !lookup_insert_eq.
  split; [|done]. intros [= Heq]. apply str_of_int_inj in Heq. lia.
Qed.

Lemma model_ids_never_reused_witness :
  exists o1' o2' st1 st2,
    InMemoryModel.add 64 ∅ (fresh_model 2) = (Ok o1', st1)
    /\ InMemoryModel.add 64 ∅ (run_model_ops 64 [MDelete (PyInt 1)] st1) = (Ok o2', st2)
    /\ id_of o1' ≠ id_of o2'.
Proof.
  eexists _, _, _, _. split; [reflexivity|]. split; [reflexivity|].
  exact (proj1 (model_ids_never_reused 64 ∅ ∅ _ _ (fresh_model 2) _ _
                  [MDelete (PyInt 1)] eq_refl eq_refl)).
Defined.

(** ** The relation store *)

Lemma index_of_Some (x : string * string) (l : list (string * string)) (i : nat) :
  InMemoryLinks.index_of x l = Some i ->
  l = take i l ++ x :: drop (S i) l /\ x ∉ take i l.
Proof.
  revert i. induction l as [|y l IH]; intros i Hi; [done|].
  simpl in Hi. destruct (decide (y = x)) as [->|Hne].
  - injection Hi as <-. simpl. rewrite drop_0. split; [done|apply not_elem_of_nil].
  - destruct (InMemoryLinks.index_of x l) as [j|] eqn:Hj; [|done].
    simpl in Hi. injection Hi as <-.
    destruct (IH j eq_refl) as [Heq Hnot]. simpl. split.
    + by rewrite <- Heq.
    + apply not_elem_of_cons. split; [congruence|done].
Qed.

Lemma index_of_None (x : string * string) (l : list (string * string)) :
  InMemoryLinks.index_of x l = None <-> x ∉ l.
Proof.
  induction l as [|y l IH]; simpl.
  - split; [intros _; apply not_elem_of_nil|done].
  - destruct (decide (y = x)) as [->|Hne].
    + split; [done|]. intros H. exfalso. apply H. left.
    + rewrite not_elem_of_cons. destruct (InMemoryLinks.index_of x l); simpl.
      * split; [done|]. intros [_ H]. by apply IH in H.
      * split; [|done]. intros _. split; [congruence|]. by apply IH.
Qed.

(** Taking out the first occurrence of a link in a list without repeats
    takes the link out. *)
Lemma index_of_remove (x : string * string) (l : list (string * string)) (i : nat) :
  NoDup l -> InMemoryLinks.index_of x l = Some i ->
  NoDup (take i l ++ drop (S i) l)
  /\ (x ∉ take i l ++ drop (S i) l)
  /\ S (length (take i l ++ drop (S i) l)) = length l
  /\ forall y, y ≠ x -> (y ∈ (take i l ++ drop (S i) l) <-> y ∈ l).
Proof.
  intros Hnd Hi. destruct (index_of_Some x l i Hi) as [Heq Hnot].
  rewrite Heq in Hnd. apply NoDup_app in Hnd as (Hnd1 & Hdisj & Hnd2).
  apply NoDup_cons in Hnd2 as [Hx Hnd2].
  split.
  { apply NoDup_app. split; [done|]. split; [|done].
    intros y Hy Hy'. apply (Hdisj y Hy). by right. }
  split.
  { intros H. apply elem_of_app in H as [?|?]; done. }
  split.
  { rewrite Heq at 3. rewrite !length_app. simpl. lia. }
  intros y Hne. rewrite Heq at 3. rewrite !elem_of_app, elem_of_cons.
  split; [intros [?|?]; auto|intros [?|[?|?]]; auto; done].
Qed.

Lemma links_add_ok (max_id_len : Z) (source target : pyval) (self : InMemoryLinks.t) :
  links_ok self -> links_ok (state_after (InMemoryLinks.add max_id_len source target self)).
Proof.
  intros [Hnd Hlen]. unfold InMemoryLinks.add.
  destruct (normalize_id max_id_len source) as [s|]; [|done].
  destruct (normalize_id max_id_len target) as [t|]; [|done].
  destruct (Z.eqb_spec (InMemoryLinks.max_count self) 0) as [|Hnz]; [done|].
  destruct (InMemoryLinks.index_of (s, t) (InMemoryLinks.links self)) as [i|] eqn:Hi.
  - destruct (index_of_remove _ _ _ Hnd Hi) as (Hnd' & Hnot & Hlen' & _).
    split; simpl.
    + rewrite app_assoc. apply NoDup_app. split; [done|]. split.
      * intros y Hy Hy'. apply list_elem_of_singleton in Hy' as ->. done.
      * apply NoDup_singleton.
    + rewrite app_assoc, length_app. simpl. lia.
  - apply index_of_None in Hi.
    destruct (Z.geb_spec (Z.of_nat (length (InMemoryLinks.links self)))
                (InMemoryLinks.max_count self)) as [Hfull|Hroom]; split; simpl.
    + apply NoDup_app. split; [eapply sublist_NoDup; [exact Hnd|apply sublist_drop]|]. split.
      * intros y Hy Hy'. apply list_elem_of_singleton in Hy' as ->.
        apply Hi. by eapply subseteq_drop.
      * apply NoDup_singleton.
    + rewrite length_app, length_drop. simpl.
      destruct (InMemoryLinks.links self); simpl in *; lia.
    + apply NoDup_app. split; [done|]. split.
      * intros y Hy Hy'. apply list_elem_of_singleton in Hy' as ->. done.
      * apply NoDup_singleton.
    + rewrite length_app. simpl. lia.
Qed.

Lemma run_link_op_ok (max_id_len : Z) (op : link_op) (self : InMemoryLinks.t) :
  links_ok self -> links_ok (state_after (run_link_op max_id_len op self)).
Proof.
  intros Hok. destruct op as [s t|s t|s|t]; simpl.
  - by apply links_add_ok.
  - destruct Hok as [Hnd Hlen]. unfold InMemoryLinks.remove.
    destruct (normalize_id max_id_len s) as [s'|]; [|done].
    destruct (normalize_id max_id_len t) as [t'|]; [|done].
    destruct (InMemoryLinks.index_of (s', t') (InMemoryLinks.links self)) as [i|] eqn:Hi;
      [|done].
    destruct (index_of_remove _ _ _ Hnd Hi) as (Hnd' & _ & Hlen' & _).
    split; simpl; [done|lia].
  - unfold InMemoryLinks.delete_source.
    destruct (InMemoryLinks.links self) as [|x l] eqn:Hl; [exact Hok|].
    destruct (normalize_id max_id_len s) as [s'|]; [|exact Hok].
    destruct Hok as [Hnd Hlen]. rewrite Hl in Hnd, Hlen.
    split; simpl; [by apply NoDup_filter|].
    pose proof (length_filter (fun st : string * string => st.1 ≠ s') (x :: l)).
    simpl in *. lia.
  - unfold InMemoryLinks.delete_target.
    destruct (InMemoryLinks.links self) as [|x l] eqn:Hl; [exact Hok|].
    destruct (normalize_id max_id_len t) as [t'|]; [|exact Hok].
    destruct Hok as [Hnd Hlen]. rewrite Hl in Hnd, Hlen.
    split; simpl; [by apply NoDup_filter|].
    pose proof (length_filter (fun st : string * string => st.2 ≠ t') (x :: l)).
    simpl in *. lia.
Qed.

Lemma run_link_ops_ok (max_id_len : Z) (ops : list link_op) (self : InMemoryLinks.t) :
  links_ok self -> links_ok (run_link_ops max_id_len ops self).
Proof.
  revert self. induction ops as [|op ops IH]; intros self Hok; [done|].
  simpl. apply IH. by apply run_link_op_ok.
Qed.

Lemma run_link_ops_max_count (max_id_len : Z) (ops : list link_op)
    (self : InMemoryLinks.t) :
  InMemoryLinks.max_count (run_link_ops max_id_len ops self)
  = InMemoryLinks.max_count self.
Proof.
  revert self. induction ops as [|op ops IH]; intros self; [done|].
  simpl. rewrite IH. destruct op as [s t|s t|s|t]; simpl.
  - unfold InMemoryLinks.add. repeat case_match; done.
  - unfold InMemoryLinks.remove. repeat case_match; done.
  - unfold InMemoryLinks.delete_source. repeat case_match; done.
  - unfold InMemoryLinks.delete_target. repeat case_match; done.
Qed.

(** X6.  Whatever sequence of [add], [remove], [delete_source] and
    [delete_target] calls a relation store created with a capacity [N >= 0]
    has seen, returning or raising, it holds at most [N] links and no link
    twice. *)
Theorem links_bounded_after_any_calls (max_id_len N : Z) (ops : list link_op) :
  0 <= N ->
  let self := run_link_ops max_id_len ops (InMemoryLinks.init N) in
  Z.of_nat (length (InMemoryLinks.links self)) <= N
  /\ NoDup (InMemoryLinks.links self).
Proof.
  intros HN self.
  assert (Hok : links_ok self).
  { apply run_link_ops_ok. split; [apply NoDup_nil_2|simpl; lia]. }
  destruct Hok as [Hnd Hlen]. unfold self in Hlen.
  rewrite run_link_ops_max_count in Hlen. done.
Qed.

Lemma links_bounded_after_any_calls_witness :
  let self := run_link_ops 64
                [LAdd (PyInt 1) (PyInt 2); LAdd (PyInt 1) (PyInt 3);
                 LAdd (PyInt 1) (PyInt 2); LAdd (PyInt 2) (PyInt 3);
                 LRemove (PyInt 1) (PyInt 3); LAdd PyOther (PyInt 1)]
                (InMemoryLinks.init 2) in
  Z.of_nat (length (InMemoryLinks.links self)) <= 2
  /\ NoDup (InMemoryLinks.links self).
Proof.
  intros self.
  apply (links_bounded_after_any_calls 64 2
           [LAdd (PyInt 1) (PyInt 2); LAdd (PyInt 1) (PyInt 3);
            LAdd (PyInt 1) (PyInt 2); LAdd (PyInt 2) (PyInt 3);
            LRemove (PyInt 1) (PyInt 3); LAdd PyOther (PyInt 1)]).
  lia.
Defined.

Lemma links_add_shape (max_id_len : Z) (source target : pyval) (s t : string)
    (self : InMemoryLinks.t) :
  links_ok self -> InMemoryLinks.max_count self ≠ 0 ->
  normalize_id max_id_len source = Ok s -> normalize_id max_id_len target = Ok t ->
  exists L,
    InMemoryLinks.add max_id_len source target self
    = (Ok tt, InMemoryLinks.Build (InMemoryLinks.max_count self) (L ++ [(s, t)]))
    /\ ((s, t) ∉ L)
    /\ L ⊆ InMemoryLinks.links self
    /\ (Z.of_nat (length (InMemoryLinks.links self)) < InMemoryLinks.max_count self ->
        forall x, x ∈ InMemoryLinks.links self -> x ∈ L ++ [(s, t)]).
Proof.
  intros [Hnd Hlen] Hnz Hs Ht. unfold InMemoryLinks.add. rewrite Hs, Ht.
  destruct (Z.eqb_spec (InMemoryLinks.max_count self) 0) as [|_]; [done|].
  destruct (InMemoryLinks.index_of (s, t) (InMemoryLinks.links self)) as [i|] eqn:Hi.
  - destruct (index_of_remove _ _ _ Hnd Hi) as (_ & Hnot & _ & Hmem).
    exists (take i (InMemoryLinks.links self) ++ drop (S i) (InMemoryLinks.links self)).
    split; [by rewrite <- app_assoc|]. split; [done|]. split.
    + intros x Hx. destruct (decide (x = (s, t))) as [->|Hne]; [done|]. by apply Hmem.
    + intros _ x Hx. apply elem_of_app.
      destruct (decide (x = (s, t))) as [->|Hne]; [right; left|left; by apply Hmem].
  - apply index_of_None in Hi.
    destruct (Z.geb_spec (Z.of_nat (length (InMemoryLinks.links self)))
                (InMemoryLinks.max_count self)) as [Hfull|Hroom].
    + exists (drop 1 (InMemoryLinks.links self)). split; [done|]. split.
      * intros Hx. apply Hi. by eapply subseteq_drop.
      * split; [apply subseteq_drop|lia].
    + exists (InMemoryLinks.links self). split; [done|]. split; [done|].
      split; [done|]. intros _ x Hx. apply elem_of_app. by left.
Qed.

(** X7.  On a consistent relation store of capacity at least 1, a link just
    added is found by [is_linked] and is the last of the list; when there
    was room, no other link is lost; and after [remove] of that link
    [is_linked] answers no, every other link staying in the list. *)
Theorem links_add_then_remove (max_id_len : Z) (source target : pyval) (s t : string)
    (self : InMemoryLinks.t) :
  links_ok self -> 0 < InMemoryLinks.max_count self ->
  normalize_id max_id_len source = Ok s -> normalize_id max_id_len target = Ok t ->
  let self1 := state_after (InMemoryLinks.add max_id_len source target self) in
  let self2 := state_after (InMemoryLinks.remove max_id_len source target self1) in
  InMemoryLinks.is_linked max_id_len source target self1 = Ok true
  /\ last (InMemoryLinks.links self1) = Some (s, t)
  /\ (Z.of_nat (length (InMemoryLinks.links self)) < InMemoryLinks.max_count self ->
      forall x, x ∈ InMemoryLinks.links self -> x ∈ InMemoryLinks.links self1)
  /\ InMemoryLinks.is_linked max_id_len source target self2 = Ok false
  /\ forall x, x ≠ (s, t) ->
               (x ∈ InMemoryLinks.links self2 <-> x ∈ InMemoryLinks.links self1).
Proof.
  intros Hok Hpos Hs Ht self1 self2.
  pose proof (links_add_ok max_id_len source target self Hok) as Hok1.
  fold self1 in Hok1.
  destruct (links_add_shape max_id_len source target s t self Hok ltac:(lia) Hs Ht)
    as (L & Hadd & Hnot & Hsub & Hroom).
  assert (H1 : InMemoryLinks.links self1 = L ++ [(s, t)])
    by (unfold self1; by rewrite Hadd).
  assert (Hin : (s, t) ∈ InMemoryLinks.links self1)
    by (rewrite H1; apply elem_of_app; right; left).
  split.
  { unfold InMemoryLinks.is_linked. rewrite Hs, Ht.
    by rewrite bool_decide_eq_true_2. }
  split; [by rewrite H1, last_snoc|].
  split; [by rewrite H1|].
  destruct (InMemoryLinks.index_of (s, t) (InMemoryLinks.links self1)) as [i|] eqn:Hi.
  2:{ apply index_of_None in Hi. done. }
  destruct (index_of_remove _ _ _ (proj1 Hok1) Hi) as (_ & Hgone & _ & Hmem).
  assert (H2 : InMemoryLinks.links self2
               = take i (InMemoryLinks.links self1) ++ drop (S i) (InMemoryLinks.links self1)).
  { unfold self2, InMemoryLinks.remove. rewrite Hs, Ht, Hi. done. }
  split.
  { unfold InMemoryLinks.is_linked. rewrite Hs, Ht, H2.
    by rewrite bool_decide_eq_false_2. }
  intros x Hne. rewrite H2. by apply Hmem.
Qed.

Lemma links_add_then_remove_witness :
  let self := run_link_ops 64 [LAdd (PyInt 1) (PyInt 2)] (InMemoryLinks.init 3) in
  let self1 := state_after (InMemoryLinks.add 64 (PyInt 5) (PyStr "7") self) in
  let self2 := state_after (InMemoryLinks.remove 64 (PyInt 5) (PyStr "7") self1) in
  InMemoryLinks.is_linked 64 (PyInt 5) (PyStr "7") self1 = Ok true
  /\ InMemoryLinks.is_linked 64 (PyInt 5) (PyStr "7") self2 = Ok false.
Proof.
  intros self self1 self2.
  destruct (links_add_then_remove 64 (PyInt 5) (PyStr "7") "5" "7" self)
    as (H1 & _ & _ & H2 & _).
  - apply run_link_ops_ok. split; [apply NoDup_nil_2|simpl; lia].
  - reflexivity.
  - reflexivity.
  - reflexivity.
  - split; [exact H1|exact H2].
Defined.

Lemma filter_fst_ne_eq (s s' : string) (l : list (string * string)) :
  s' ≠ s ->
  filter (fun st : string * string => st.1 = s')
    (filter (fun st : string * string => st.1 ≠ s) l)
  = filter (fun st : string * string => st.1 = s') l.
Proof.
  intros Hne. induction l as [|x l IH]; [done|].
  destruct (decide (x.1 = s)) as [Hx|Hx].
  - rewrite (filter_cons_False (fun st : string * string => st.1 ≠ s)) by (intros H; by apply H).
    rewrite (filter_cons_False (fun st : string * string => st.1 = s')) by congruence.
    done.
  - rewrite (filter_cons_True (fun st : string * string => st.1 ≠ s)) by done.
    destruct (decide (x.1 = s')) as [Hx'|Hx'].
    + rewrite !(filter_cons_True (fun st : string * string => st.1 = s')) by done.
      by rewrite IH.
    + rewrite !(filter_cons_False (fun st : string * string => st.1 = s')) by done.
      done.
Qed.

Lemma filter_fst_eq_ne (s : string) (l : list (string * string)) :
  filter (fun st : string * string => st.1 = s)
    (filter (fun st : string * string => st.1 ≠ s) l) = [].
Proof.
  induction l as [|x l IH]; [done|].
  destruct (decide (x.1 = s)) as [Hx|Hx].
  - rewrite (filter_cons_False (fun st : string * string => st.1 ≠ s));
      [done|intros H; by apply H].
  - rewrite (filter_cons_True (fun st : string * string => st.1 ≠ s)) by done.
    rewrite (filter_cons_False (fun st : string * string => st.1 = s)); done.
Qed.

Lemma targets_for_source_eq (max_id_len : Z) (source : pyval) (s : string)
    (self : InMemoryLinks.t) :
  normalize_id max_id_len source = Ok s ->
  targets_for_source max_id_len source self
  = Ok ((filter (fun st : string * string => st.1 = s) (InMemoryLinks.links self)).*2).
Proof.
  intros Hs. unfold targets_for_source. rewrite Hs.
  by destruct (InMemoryLinks.links self).
Qed.

(** X8.  [delete_source] takes out every link of the given source and no
    other: afterwards [targets_for_source] of it is empty and [is_linked]
    answers no for every target, while for any other source
    [targets_for_source] gives the same targets in the same order. *)
Theorem links_delete_source_removes_all (max_id_len : Z) (source : pyval) (s : string)
    (self : InMemoryLinks.t) :
  normalize_id max_id_len source = Ok s ->
  let self' := state_after (InMemoryLinks.delete_source max_id_len source self) in
  targets_for_source max_id_len source self' = Ok []
  /\ (forall target t, normalize_id max_id_len target = Ok t ->
        InMemoryLinks.is_linked max_id_len source target self' = Ok false)
  /\ (forall other s', normalize_id max_id_len other = Ok s' -> s' ≠ s ->
        targets_for_source max_id_len other self'
        = targets_for_source max_id_len other self).
Proof.
  intros Hs self'.
  assert (H' : InMemoryLinks.links self'
               = filter (fun st : string * string => st.1 ≠ s) (InMemoryLinks.links self)).
  { unfold self', InMemoryLinks.delete_source. rewrite Hs.
    destruct (InMemoryLinks.links self) eqn:Hl; [exact Hl|done]. }
  split.
  { rewrite (targets_for_source_eq _ _ s) by done. by rewrite H', filter_fst_eq_ne. }
  split.
  { intros target t Ht. unfold InMemoryLinks.is_linked. rewrite Hs, Ht, H'.
    rewrite bool_decide_eq_false_2; [done|].
    intros Hin. apply list_elem_of_filter in Hin as [Hne _]. by apply Hne. }
  intros other s' Ho Hne.
  rewrite !(targets_for_source_eq _ _ s') by done.
  by rewrite H', filter_fst_ne_eq.
Qed.

Lemma links_delete_source_removes_all_witness :
  let self := run_link_ops 64 [LAdd (PyInt 1) (PyInt 2); LAdd (PyInt 3) (PyInt 2);
                               LAdd (PyInt 1) (PyInt 4)] (InMemoryLinks.init 5) in
  let self' := state_after (InMemoryLinks.delete_source 64 (PyInt 1) self) in
  targets_for_source 64 (PyInt 1) self' = Ok [].
Proof.
  intros self self'.
  exact (proj1 (links_delete_source_removes_all 64 (PyInt 1) "1" self eq_refl)).
Defined.

Lemma sources_for_target_eq (max_id_len : Z) (target : pyval) (t : string)
    (self : InMemoryLinks.t) :
  normalize_id max_id_len target = Ok t ->
  sources_for_target max_id_len target self
  = Ok ((filter (fun st : string * string => st.2 = t) (InMemoryLinks.links self)).*1).
Proof.
  intros Ht. unfold sources_for_target. rewrite Ht.
  by destruct (InMemoryLinks.links self).
Qed.

(** X9.  The three queries of the relation store agree: for ids
    [normalize_id] accepts, [is_linked(source, target)] holds exactly when
    [target] is among [targets_for_source(source)], and exactly when
    [source] is among [sources_for_target(target)]; so a link that
    [is_linked] reports is counted by both. *)
Theorem links_queries_agree (max_id_len : Z) (source target : pyval) (s t : string)
    (self : InMemoryLinks.t) :
  normalize_id max_id_len source = Ok s -> normalize_id max_id_len target = Ok t ->
  exists ts ss,
    targets_for_source max_id_len source self = Ok ts
    /\ sources_for_target max_id_len target self = Ok ss
    /\ InMemoryLinks.is_linked max_id_len source target self = Ok (bool_decide (t ∈ ts))
    /\ (t ∈ ts <-> s ∈ ss)
    /\ (t ∈ ts -> (0 < length ts)%nat /\ (0 < length ss)%nat).
Proof.
  intros Hs Ht.
  set (l := InMemoryLinks.links self).
  assert (H1 : t ∈ (filter (fun st : string * string => st.1 = s) l).*2 <-> (s, t) ∈ l).
  { rewrite list_elem_of_fmap. split.
    - intros ([s0 t0] & -> & Hin). apply list_elem_of_filter in Hin as [Heq Hin].
      simpl in *. by subst s0.
    - intros Hin. exists (s, t). split; [done|]. by apply list_elem_of_filter. }
  assert (H2 : s ∈ (filter (fun st : string * string => st.2 = t) l).*1 <-> (s, t) ∈ l).
  { rewrite list_elem_of_fmap. split.
    - intros ([s0 t0] & -> & Hin). apply list_elem_of_filter in Hin as [Heq Hin].
      simpl in *. by subst t0.
    - intros Hin. exists (s, t). split; [done|]. by apply list_elem_of_filter. }
  eexists _, _. split; [by apply targets_for_source_eq|].
  split; [by apply sources_for_target_eq|]. fold l. split.
  { unfold InMemoryLinks.is_linked. rewrite Hs, Ht. f_equal.
    apply bool_decide_ext. by rewrite H1. }
  split; [by rewrite H1, H2|].
  intros Hin. pose proof (proj2 H2 (proj1 H1 Hin)) as Hin'.
  split.
  - destruct (filter _ l).*2; [by apply elem_of_nil in Hin|simpl; lia].
  - destruct (filter _ l).*1; [by apply elem_of_nil in Hin'|simpl; lia].
Qed.

Lemma links_queries_agree_witness :
  let self := run_link_ops 64 [LAdd (PyInt 1) (PyInt 2); LAdd (PyInt 3) (PyInt 2)]
                (InMemoryLinks.init 5) in
  exists ts ss,
    targets_for_source 64 (PyInt 3) self = Ok ts
    /\ sources_for_target 64 (PyStr "2") self = Ok ss
    /\ ("2" ∈ ts <-> "3" ∈ ss).
Proof.
  intros self.
  destruct (links_queries_agree 64 (PyInt 3) (PyStr "2") "3" "2" self eq_refl eq_refl)
    as (ts & ss & H1 & H2 & _ & H3 & _).
  exists ts, ss. split; [exact H1|]. split; [exact H2|exact H3].
Defined.

(** ** Address normalisation *)

Lemma string_app_cons (c : ascii) (s1 s2 : string) :
  String c s1 +:+ s2 = String c (s1 +:+ s2).
Proof. reflexivity. Qed.

Lemma string_app_nil_l (s : string) : "" +:+ s = s.
Proof. reflexivity. Qed.

Lemma string_length_app (s1 s2 : string) :
  String.length (s1 +:+ s2) = (String.length s1 + String.length s2)%nat.
Proof.
  induction s1 as [|c s1 IH]; [done|].
  rewrite string_app_cons. simpl. by rewrite IH.
Qed.

Lemma string_app_assoc (s1 s2 s3 : string) :
  (s1 +:+ s2) +:+ s3 = s1 +:+ (s2 +:+ s3).
Proof.
  induction s1 as [|c s1 IH]; [done|].
  rewrite !string_app_cons. by rewrite IH.
Qed.

Lemma substring_full (s : string) : substring 0 (String.length s) s = s.
Proof. induction s as [|c s IH]; simpl; [done|by rewrite IH]. Qed.

Lemma substring_app_skip (s1 s2 : string) (n : nat) :
  substring (String.length s1) n (s1 +:+ s2) = substring 0 n s2.
Proof.
  induction s1 as [|c s1 IH]; [done|].
  rewrite string_app_cons. simpl. exact IH.
Qed.

Lemma ends_with_app (suffix s : string) : ends_with suffix (s +:+ suffix) = true.
Proof.
  unfold ends_with. rewrite string_length_app.
  apply andb_true_iff. split; [apply Nat.leb_le; lia|].
  replace (String.length s + String.length suffix - String.length suffix)%nat
    with (String.length s) by lia.
  rewrite substring_app_skip, substring_full. apply String.eqb_refl.
Qed.

(** X10.  The address key is stable: normalising a key again gives the same
    key, for every string, so the lists keyed by normalised address can be
    looked up with an address or with a key alike. *)
Theorem normalize_ip_idempotent (ip : string) :
  _normalize_ip_for_limiting (_normalize_ip_for_limiting ip)
  = _normalize_ip_for_limiting ip.
Proof.
  assert (Hcases : ends_with "/64" (_normalize_ip_for_limiting ip) = true
                   \/ _normalize_ip_for_limiting ip = ip).
  { unfold _normalize_ip_for_limiting.
    destruct (ends_with "/64" ip) eqn:He; [by left|].
    destruct (contains_char ":" ip); [|by right].
    left. destruct (4 <=? length (split_on ":" ip))%nat.
    - change "::/64" with ("::" +:+ "/64").
      rewrite <- string_app_assoc. apply ends_with_app.
    - apply ends_with_app. }
  destruct Hcases as [He|Heq].
  - unfold _normalize_ip_for_limiting at 1. by rewrite He.
  - by rewrite !Heq.
Qed.

Lemma contains_char_app_sep (c : ascii) (x s : string) :
  contains_char c (x +:+ String c s) = true.
Proof.
  induction x as [|c' x IH].
  - simpl. by rewrite Ascii.eqb_refl.
  - rewrite string_app_cons. simpl. rewrite IH. apply orb_true_r.
Qed.

Lemma split_on_no_sep (c : ascii) (x : string) :
  contains_char c x = false -> split_on c x = [x].
Proof.
  induction x as [|c' x IH]; intros Hx; [done|].
  simpl in *. apply orb_false_iff in Hx as [Hc Hx].
  rewrite Hc. by rewrite IH.
Qed.

Lemma split_on_app_sep (c : ascii) (x s : string) :
  contains_char c x = false ->
  split_on c (x +:+ String c s) = x :: split_on c s.
Proof.
  induction x as [|c' x IH]; intros Hx.
  - simpl. by rewrite Ascii.eqb_refl.
  - simpl in Hx. apply orb_false_iff in Hx as [Hc Hx].
    rewrite string_app_cons. simpl. rewrite Hc. by rewrite IH.
Qed.

Lemma join_cons (sep x y : string) (rest : list string) :
  join sep (x :: y :: rest) = x +:+ sep +:+ join sep (y :: rest).
Proof. done. Qed.

(** Splitting undoes joining, for parts without the separator. *)
Lemma split_on_join (c : ascii) (parts : list string) :
  parts ≠ [] ->
  Forall (fun x => contains_char c x = false) parts ->
  split_on c (join (String c "") parts) = parts.
Proof.
  induction parts as [|x parts IH]; intros Hne Hall; [done|].
  apply Forall_cons in Hall as [Hx Hall].
  destruct parts as [|y parts].
  - simpl. by apply split_on_no_sep.
  - rewrite join_cons, string_app_cons, string_app_nil_l.
    rewrite split_on_app_sep by done. by rewrite IH.
Qed.

(** X11.  IPv6 addresses are counted per /64: an address written as four or
    more colon-separated groups is keyed by its first four groups followed
    by ["::/64"], so two such addresses with the same first four groups
    share one session list. *)
Theorem normalize_ip_same_prefix (parts parts' : list string) :
  Forall (fun x => contains_char ":" x = false) parts ->
  Forall (fun x => contains_char ":" x = false) parts' ->
  (4 <= length parts)%nat -> (4 <= length parts')%nat ->
  take 4 parts = take 4 parts' ->
  ends_with "/64" (join ":" parts) = false ->
  ends_with "/64" (join ":" parts') = false ->
  _normalize_ip_for_limiting (join ":" parts)
  = join ":" (take 4 parts) +:+ "::/64"
  /\ _normalize_ip_for_limiting (join ":" parts)
     = _normalize_ip_for_limiting (join ":" parts').
Proof.
  assert (Hone : forall ps,
            Forall (fun x => contains_char ":" x = false) ps ->
            (4 <= length ps)%nat ->
            ends_with "/64" (join ":" ps) = false ->
            _normalize_ip_for_limiting (join ":" ps)
            = join ":" (take 4 ps) +:+ "::/64").
  { intros ps Hall Hlen He. unfold _normalize_ip_for_limiting. rewrite He.
    assert (Hc : contains_char ":" (join ":" ps) = true).
    { destruct ps as [|x [|y ps]]; simpl in Hlen; [lia|lia|].
      rewrite join_cons, string_app_cons, string_app_nil_l.
      apply contains_char_app_sep. }
    rewrite Hc, split_on_join; [|by destruct ps|done].
    by destruct (Nat.leb_spec 4 (length ps)); [|lia]. }
  intros Hall Hall' Hlen Hlen' Htake He He'.
  split; [by apply Hone|]. rewrite !Hone by done. by rewrite Htake.
Qed.

Lemma normalize_ip_same_prefix_witness :
  _normalize_ip_for_limiting "2001:db8:0:1:aaaa:bbbb:cccc:dddd"
  = _normalize_ip_for_limiting "2001:db8:0:1:1:2:3:4".
Proof.
  exact (proj2 (normalize_ip_same_prefix
                  ["2001"; "db8"; "0"; "1"; "aaaa"; "bbbb"; "cccc"; "dddd"]
                  ["2001"; "db8"; "0"; "1"; "1"; "2"; "3"; "4"]
                  ltac:(repeat constructor) ltac:(repeat constructor)
                  ltac:(simpl; lia) ltac:(simpl; lia) eq_refl eq_refl eq_refl)).
Defined.

(** ** What [pop] takes out *)

Lemma ips_remove_lookup (identifier : string) (client_ip : option string)
    (ips : gmap string (list string)) (N : string) :
  ips_remove identifier client_ip ips !! N
  = if truthy client_ip
       && bool_decide (N = _normalize_ip_for_limiting (str_of client_ip))
    then match filter (fun e => e ≠ identifier) <$> ips !! N with
         | Some [] => None
         | o => o
         end
    else ips !! N.
Proof.
  unfold ips_remove. destruct (truthy client_ip); simpl; [|done].
  set (n := _normalize_ip_for_limiting (str_of client_ip)).
  case_bool_decide as HN.
  - subst N. destruct (ips !! n) as [l|] eqn:Hn; simpl; [|by rewrite Hn].
    destruct (filter _ l) eqn:Hf.
    + by rewrite lookup_delete_eq.
    + by rewrite lookup_insert_eq.
  - destruct (ips !! n) as [l|]; [|done].
    destruct (filter _ l).
    + by rewrite lookup_delete_ne.
    + by rewrite lookup_insert_ne.
Qed.

(** X12.  [pop] evicts the oldest session.  On a container whose heap holds
    session entries only ([shared = None]: not the single store of the
    isolation-disabled mode) and satisfies the heap invariant: on an empty
    queue it returns [None] and changes nothing.  Otherwise it returns the
    entry at the root,
    whose priority is the smallest of all sessions; exactly that session
    leaves the queue; its id leaves the list of its address, the list being
    dropped when it was the last id in it; the other address lists, the
    token tables and the stores are untouched. *)
Theorem pop_returns_oldest (c : container) :
  shared c = None -> heap_inv c ->
  match heap c with
  | [] => pop c = (Ok None, c)
  | root :: _ =>
      exists c',
        pop c = (Ok (Some root), c')
        /\ sessions c !! it_obj_id root = Some (saved_of root)
        /\ (forall k s, sessions c !! k = Some s -> it_priority root <= sv_priority s)
        /\ heap_inv c'
        /\ sessions c' = delete (it_obj_id root) (sessions c)
        /\ (forall N,
              ip_to_sessions c' !! N
              = if truthy (it_client_ip root)
                   && bool_decide
                        (N = _normalize_ip_for_limiting (str_of (it_client_ip root)))
                then match filter (fun e => e ≠ it_obj_id root)
                             <$> ip_to_sessions c !! N with
                     | Some [] => None
                     | o => o
                     end
                else ip_to_sessions c !! N)
        /\ same_rest c c'
  end.
Proof.
  intros _ Hinv. destruct (heap c) as [|root rest] eqn:Hh.
  - unfold pop, bindM. by rewrite (pop_empty c Hh).
  - assert (Hroot : heap c !! 0%nat = Some root) by (by rewrite Hh).
    destruct (pop_effect c root Hinv Hroot)
      as (c' & Hpop & Hinv' & Hsess & Hips & Hrest & _).
    exists c'. split; [done|].
    split; [exact (sessions_lookup_item c 0 root (proj2 Hinv) Hroot)|]. split.
    { intros k s Hs.
      destruct (sessions_lookup_Some c k s (proj2 Hinv) Hs) as (i & x & _ & Hx & _ & <-).
      simpl. by apply (heap_root_minimal (heap c) root (proj1 Hinv) Hroot i). }
    split; [done|]. split; [done|]. split; [|done].
    intros N. rewrite Hips. apply ips_remove_lookup.
Qed.

Lemma pop_returns_oldest_witness :
  let cfg := default_config in
  let c1 := state_after (get_storage cfg (Some "a") (Some "10.0.0.1") None 5 ""
                           (fresh false 3000)) in
  let c2 := state_after (get_storage cfg (Some "b") (Some "10.0.0.1") None 7 "" c1) in
  exists root c',
    pop c2 = (Ok (Some root), c')
    /\ forall k s, sessions c2 !! k = Some s -> it_priority root <= sv_priority s.
Proof.
  intros cfg c1 c2.
  assert (Hinv : heap_inv c2).
  { do 2 apply get_storage_preserves_heap_inv. apply heap_inv_fresh. }
  pose proof (pop_returns_oldest c2 eq_refl Hinv) as H.
  destruct (heap c2) as [|root rest] eqn:Hh; [by vm_compute in Hh|].
  destruct H as (c' & Hpop & _ & Hmin & _).
  exists root, c'. split; [exact Hpop|exact Hmin].
Defined.

(** ** What [save_data] writes *)

Lemma drain_data (fuel : nat) :
  forall (c : container) (acc : list saved_item) (data : gmap string InMemoryStorage)
         (acc' : list saved_item) (data' : gmap string InMemoryStorage) (c' : container),
    heap_inv c -> (length (heap c) <= fuel)%nat ->
    drain fuel acc data c = (Ok (acc', data'), c') ->
    forall k,
      data' !! k = match sessions c !! k with
                   | Some s => sv_storage s ≫= fun l => mem c !! l
                   | None => data !! k
                   end.
Proof.
  induction fuel as [|fuel IH]; intros c acc data acc' data' c' Hinv Hlen Hrun k.
  - assert (Hh : heap c = []) by (destruct (heap c); [done|simpl in Hlen; lia]).
    rewrite (sessions_heap_nil c Hinv Hh), lookup_empty.
    simpl in Hrun. by injection Hrun as _ <- _.
  - destruct (heap c) as [|root rest] eqn:Hh.
    { rewrite (sessions_heap_nil c Hinv Hh), lookup_empty.
      simpl in Hrun. rewrite Hh in Hrun. by injection Hrun as _ <- _. }
    assert (Hroot : heap c !! 0%nat = Some root) by (by rewrite Hh).
    destruct (pop_effect c root Hinv Hroot)
      as (c1 & Hpop & Hinv1 & Hsess1 & _ & Hrest1 & Hlen1).
    pose proof (sessions_lookup_item c 0 root (proj2 Hinv) Hroot) as Hsroot.
    assert (Hmem1 : mem c1 = mem c) by (by destruct Hrest1 as (_&_&_&_&_&?)).
    simpl in Hrun. rewrite Hh in Hrun. unfold bindM in Hrun. rewrite Hpop in Hrun.
    destruct (it_data root) as [l|] eqn:Hd; [|done].
    destruct (mem c1 !! l) as [st|] eqn:Hst; [|done].
    rewrite (IH c1 _ _ _ _ _ Hinv1 ltac:(rewrite Hh in Hlen1; simpl in *; lia) Hrun k).
    rewrite Hsess1, Hmem1.
    destruct (decide (k = it_obj_id root)) as [->|Hne].
    + rewrite lookup_delete_eq, lookup_insert_eq, Hsroot. simpl.
      rewrite Hd. simpl. by rewrite <- Hmem1.
    + by rewrite lookup_delete_ne, lookup_insert_ne.
Qed.

(** X13.  What [save_data] writes.  On a container in the state it expects
    (the heap holds session entries only, [shared = None], not the single
    store of the isolation-disabled mode; heap invariant, every session with
    its store, address lists complete and within the cap), a call whose
    write succeeds returns [True], and the
    dictionary it wrote has exactly the ids of the sessions in the queue as
    keys, each with the content of that session's store at the time of the
    call. *)
Theorem save_data_writes_every_store (cfg : config) (c : container) :
  shared c = None ->
  heap_inv c -> payloads_present c -> addresses_listed c -> addresses_within cfg c ->
  exists data c',
    save_data cfg true true c = (Ok (true, Some data), c')
    /\ dom data = dom (sessions c)
    /\ forall k s, sessions c !! k = Some s ->
                   exists l st, sv_storage s = Some l /\ mem c !! l = Some st
                                /\ data !! k = Some st.
Proof.
  intros _ Hinv Hpay Hlist Hwithin.
  destruct (drain_spec (length (heap c)) c [] ∅ Hinv Hpay Hlist (le_n _))
    as (sv & data & c1 & Hrun & Hinv1 & Hempty & Hsv & Hnd & Hrest1 & Hq1).
  simpl in Hrun.
  destruct (repush_spec cfg sv c1 Hinv1 Hnd) as (c2 & Hrep & _).
  { intros k _. by rewrite Hempty. }
  { intros N Hpos. specialize (Hq1 N).
    unfold len_at in Hq1 at 2.
    destruct (ip_to_sessions c !! N) as [l|] eqn:HN; simpl in Hq1; [|lia].
    pose proof (Hwithin N l HN) as Hle. simpl in Hle. lia. }
  pose proof (drain_data _ _ _ _ _ _ _ Hinv (le_n _) Hrun) as Hdata.
  exists data, c2. split.
  { unfold save_data, bindM. simpl. rewrite Hrun. simpl. by rewrite Hrep. }
  assert (Hk : forall k s, sessions c !! k = Some s ->
                 exists l st, sv_storage s = Some l /\ mem c !! l = Some st
                              /\ data !! k = Some st).
  { intros k s Hs. specialize (Hdata k). rewrite Hs in Hdata.
    destruct (Hpay k s Hs) as [st Hst]. simpl in Hst.
    destruct (sv_storage s) as [l|]; [|done]. simpl in *.
    exists l, st. by rewrite Hdata. }
  split; [|done]. apply set_eq. intros k. rewrite !elem_of_dom. split.
  - intros [st Hst]. specialize (Hdata k).
    destruct (sessions c !! k) as [s|]; [by eexists|].
    rewrite lookup_empty in Hdata. congruence.
  - intros [s Hs]. destruct (Hk k s Hs) as (l & st & _ & _ & Hd). by eexists.
Qed.

Lemma save_data_writes_every_store_witness :
  let cfg := default_config in
  let c1 := state_after (get_storage cfg (Some "s1") (Some "10.0.0.1") None 1 ""
                           (fresh false 3000)) in
  let c2 := state_after (get_storage cfg (Some "s2") (Some "10.0.0.1") None 2 "" c1) in
  exists data c',
    save_data cfg true true c2 = (Ok (true, Some data), c')
    /\ dom data = dom (sessions c2).
Proof.
  intros cfg c1 c2.
  assert (Hinv : heap_inv c2).
  { do 2 apply get_storage_preserves_heap_inv. apply heap_inv_fresh. }
  destruct (save_data_writes_every_store cfg c2 eq_refl Hinv)
    as (data & c' & Hrun & Hdom & _).
  - apply (bool_decide_unpack _). by vm_compute.
  - apply (bool_decide_unpack _). by vm_compute.
  - apply (bool_decide_unpack _). by vm_compute.
  - exists data, c'. split; [exact Hrun|exact Hdom].
Defined.

(** ** The global cap under [get_storage] *)

Lemma sessions_at_most_set_ip (B : nat) (M : Z) (m : gmap string (list string))
    (c : container) :
  sessions_at_most B M c -> sessions_at_most B M (set_ip_to_sessions m c).
Proof. intros (Hinv & HM & Hsz). split; [by apply heap_inv_set_ip|done]. Qed.

Lemma sessions_at_most_set_mem (B : nat) (M : Z) (m : list InMemoryStorage)
    (c : container) :
  sessions_at_most B M c -> sessions_at_most B M (set_mem m c).
Proof. intros (Hinv & HM & Hsz). split; [by apply heap_inv_set_mem|done]. Qed.

Lemma _update_priority_at_most (B : nat) (M : Z) (obj_id : string) (new_priority : Z) :
  preserves (sessions_at_most B M) (_update_priority obj_id new_priority).
Proof.
  intros c (Hinv & HM & Hsz). destruct (sessions c !! obj_id) as [s|] eqn:Hs.
  - destruct (update_priority_spec obj_id new_priority c s Hinv Hs)
      as (c' & Hrun & Hinv' & Hsess & Hfr & _).
    rewrite Hrun. cbn [state_after snd].
    split; [done|]. split; [destruct Hfr as (_ & -> & _); done|].
    rewrite Hsess, map_size_insert_Some by done. done.
  - rewrite update_priority_absent; [done|].
    by apply (index_map_sessions_None c obj_id (proj2 Hinv)).
Qed.

Lemma _pop_at_most (B : nat) (M : Z) :
  preserves (sessions_at_most B M) _pop.
Proof.
  intros c (Hinv & HM & Hsz). destruct (heap c) as [|root rest] eqn:Hh.
  - by rewrite pop_empty.
  - destruct (pop_spec c root Hinv) as (c' & Hrun & Hinv' & Hsess & Hfr & _);
      [by rewrite Hh|].
    rewrite Hrun. cbn [state_after snd].
    split; [done|]. split; [destruct Hfr as (_ & -> & _); done|].
    rewrite Hsess, map_size_delete.
    destruct (sessions c !! it_obj_id root); simpl; lia.
Qed.

Lemma evict_over_cap_at_most (B : nat) (M : Z) (cfg : config) (fuel : nat)
    (normalized_ip : string) :
  preserves (sessions_at_most B M) (evict_over_cap cfg fuel normalized_ip).
Proof.
  induction fuel as [|fuel IH]; intros c Hc; [done|].
  simpl. destruct (ip_to_sessions c !! normalized_ip) as [l|]; [|done].
  destruct (Z.of_nat (length l) >? MAX_SESSIONS_PER_IP cfg); [|done].
  destruct l as [|first rest]; [done|].
  revert c Hc. apply preserves_bind; [apply _update_priority_at_most|].
  intros _. apply preserves_bind; [apply _pop_at_most|].
  intros _. apply preserves_bind; [|intros _; apply IH].
  intros c Hc. destruct (ip_to_sessions c !! normalized_ip); [|done].
  by apply sessions_at_most_set_ip.
Qed.

Lemma eviction_at_most (B : nat) (M : Z) (identifier : string)
    (client_ip : option string) :
  preserves (sessions_at_most B M)
    (_handle_client_ip_and_session_eviction identifier client_ip).
Proof.
  intros c Hc. rewrite eviction_effect. by apply sessions_at_most_set_ip.
Qed.

Lemma addition_at_most (B : nat) (M : Z) (cfg : config) (identifier : string)
    (client_ip : option string) :
  preserves (sessions_at_most B M)
    (_handle_client_ip_and_session_addition cfg identifier client_ip).
Proof.
  intros c Hc. unfold _handle_client_ip_and_session_addition.
  destruct (negb (truthy client_ip)); [done|].
  destruct (ip_to_sessions c !! _); [|by apply sessions_at_most_set_ip].
  apply evict_over_cap_at_most. by apply sessions_at_most_set_ip.
Qed.

Lemma sessions_at_most_set_client_ip (B : nat) (M : Z) (c : container) (i : nat)
    (x : item) (ip : option string) :
  heap c !! i = Some x -> sessions_at_most B M c ->
  sessions_at_most B M (set_heap (<[i := set_client_ip ip x]> (heap c)) c).
Proof.
  intros Hx (Hinv & HM & Hsz). split; [by apply heap_inv_set_client_ip|].
  split; [done|].
  rewrite (heap_insert_sessions c i x (set_client_ip ip x) Hx eq_refl (proj2 Hinv)).
  rewrite map_size_insert_Some; [done|].
  by rewrite (sessions_lookup_item c i x (proj2 Hinv) Hx).
Qed.

Lemma reattribution_at_most (B : nat) (M : Z) (cfg : config) (session_id : string)
    (saved_ip : option string) (client_ip : string) :
  preserves (sessions_at_most B M)
    (_handle_client_ip_and_session_reattribution cfg session_id saved_ip client_ip).
Proof.
  intros c Hc. unfold _handle_client_ip_and_session_reattribution.
  destruct (index_map c !! session_id) as [i|]; [|done].
  destruct (heap c !! i) as [x|] eqn:Hx; [|done].
  apply evict_over_cap_at_most. apply sessions_at_most_set_ip.
  by apply sessions_at_most_set_client_ip.
Qed.

Lemma priority_at_most (B : nat) (M : Z) (cfg : config) (session_id : string)
    (client_ip : option string) :
  preserves (sessions_at_most B M)
    (_handle_client_ip_and_session_priority cfg session_id client_ip).
Proof.
  intros c Hc. unfold _handle_client_ip_and_session_priority.
  destruct (negb (truthy client_ip)); [done|].
  destruct (index_map c !! session_id) as [i|]; [|done].
  destruct (heap c !! i) as [x|] eqn:Hx; [|done].
  case_bool_decide.
  - destruct (ip_to_sessions c !! _); by apply sessions_at_most_set_ip.
  - by apply reattribution_at_most.
Qed.

Lemma push_at_most (B : nat) (M : Z) (cfg : config) (priority : Z)
    (session_id : string) (data : option loc) (client_ip : option string)
    (c : container) :
  sessions_at_most B M c -> index_map c !! session_id = None ->
  sessions_at_most (S B) M
    (state_after (push cfg priority session_id data client_ip c)).
Proof.
  intros (Hinv & HM & Hsz) Hnone. rewrite push_unfold.
  apply addition_at_most.
  destruct (push_spec priority session_id data client_ip c Hinv Hnone)
    as (Hinv1 & Hsess1 & Hfr1 & _).
  split; [done|]. split; [destruct Hfr1 as (_ & -> & _); done|].
  rewrite Hsess1, map_size_insert_None; [lia|].
  by apply (index_map_sessions_None c session_id (proj2 Hinv)).
Qed.

Lemma sessions_at_most_mono (B B' : nat) (M : Z) (c : container) :
  (B <= B')%nat -> sessions_at_most B M c -> sessions_at_most B' M c.
Proof. intros Hle (Hinv & HM & Hsz). split; [done|]. split; [done|lia]. Qed.

Lemma get_or_create_at_most (M : Z) (cfg : config) (target : string)
    (client_ip : option string) (now : Z) (c : container) :
  1 <= M -> sessions_at_most (Z.to_nat M) M c ->
  sessions_at_most (Z.to_nat M) M
    (state_after (get_or_create cfg target client_ip now c)).
Proof.
  intros HM Hc. unfold get_or_create.
  destruct (index_map c !! target) as [i|] eqn:Ht.
  - destruct (heap c !! i); [|done].
    refine (preserves_bind (sessions_at_most _ M) _ _ _ _ c Hc).
    + apply preserves_bind; [apply _update_priority_at_most|].
      intros _. apply priority_at_most.
    + intros _. apply preserves_ret.
  - pose proof Hc as (Hinv & HMc & Hsz).
    assert (Hsize : size (index_map c) = size (sessions c))
      by (by apply size_index_map, Hinv).
    assert (H1 : exists c1,
               state_after ((if Z.of_nat (size (index_map c)) >=? MAX_SESSIONS c
                             then pop ;; ret tt else ret tt) c) = c1
               /\ (fst ((if Z.of_nat (size (index_map c)) >=? MAX_SESSIONS c
                         then pop ;; ret tt else ret tt) c) = Ok tt)
               /\ sessions_at_most (Z.to_nat M - 1) M c1
               /\ index_map c1 !! target = None).
    { destruct (Z.geb_spec (Z.of_nat (size (index_map c))) (MAX_SESSIONS c)) as [Hfull|Hroom].
      - assert (Hne : exists k s, sessions c !! k = Some s).
        { destruct (map_choose (sessions c)) as (k & s & Hs); [|by eauto].
          intros Hempty. rewrite Hsize, Hempty, map_size_empty in Hfull. lia. }
        destruct Hne as (k & s & Hs).
        destruct (heap_nonempty_of_session c k s (proj2 Hinv) Hs) as [root Hroot].
        destruct (pop_effect c root Hinv Hroot)
          as (c1 & Hpop & Hinv1 & Hsess1 & _ & Hrest1 & _).
        exists c1. unfold bindM. rewrite Hpop. simpl.
        split; [done|]. split; [done|]. split.
        + split; [done|]. split; [destruct Hrest1 as (_ & -> & _); done|].
          rewrite Hsess1.
          rewrite map_size_delete.
          rewrite (sessions_lookup_item c 0 root (proj2 Hinv) Hroot). simpl. lia.
        + apply (index_map_sessions_None c1 target (proj2 Hinv1)).
          rewrite Hsess1. apply lookup_delete_None. right.
          by apply (index_map_sessions_None c target (proj2 Hinv)).
      - exists c. split; [done|]. split; [done|]. split; [|done].
        split; [done|]. split; [done|]. lia. }
    destruct H1 as (c1 & Hst & Hok & Hc1 & Ht1).
    unfold bindM at 1. unfold state_after in Hst.
    destruct ((if Z.of_nat (size (index_map c)) >=? MAX_SESSIONS c
               then pop;; ret tt else ret tt) c) as [r c1'] eqn:E.
    simpl in Hst, Hok. subst c1' r.
    unfold bindM, new_storage.
    destruct (InMemoryStorage_init cfg) as [st|e].
    2:{ simpl. eapply sessions_at_most_mono; [|exact Hc1]. lia. }
    pose proof (push_at_most _ M cfg now target (Some (length (mem c1))) client_ip
                  (set_mem (mem c1 ++ [st]) c1)
                  (sessions_at_most_set_mem _ _ _ _ Hc1) Ht1) as H2.
    replace (S (Z.to_nat M - 1)) with (Z.to_nat M) in H2 by lia.
    unfold state_after in H2.
    destruct (push cfg now target _ client_ip _) as [[[]|e] c2]; simpl in *; [|done].
    repeat case_match; done.
Qed.

Lemma get_storage_at_most (M : Z) (cfg : config)
    (session_id_from_cookie client_ip jwt_token : option string) (now : Z)
    (uuid : string) (c : container) :
  1 <= M -> sessions_at_most (Z.to_nat M) M c ->
  sessions_at_most (Z.to_nat M) M
    (state_after (get_storage cfg session_id_from_cookie client_ip jwt_token now uuid c)).
Proof.
  intros HM Hc. unfold get_storage.
  destruct (DISABLE_ISOLATION_MODE c).
  - destruct (shared c); [done|].
    unfold bindM, new_storage, modify, ret.
    destruct (InMemoryStorage_init cfg); [|done]. simpl.
    destruct Hc as (Hinv & HMc & Hsz). split; [by apply (heap_inv_ext c)|done].
  - destruct (resolve_target _ _ _ c) as [target c1] eqn:Hr.
    apply get_or_create_at_most; [done|].
    unfold resolve_target in Hr.
    destruct Hc as (Hinv & HMc & Hsz).
    repeat case_match; simplify_eq; try done;
      (split; [by apply (heap_inv_ext c)|done]).
Qed.

(** ** Isolation mode is kept under [get_storage] *)

Lemma iso_entries_ext (c c' : container) :
  heap c' = heap c -> index_map c' = index_map c ->
  DISABLE_ISOLATION_MODE c' = DISABLE_ISOLATION_MODE c -> shared c' = shared c ->
  iso_entries c -> iso_entries c'.
Proof.
  intros Hh Him Hd Hs (Hinv & Hdis & Hsh).
  split; [by apply (heap_inv_ext c)|]. split; congruence.
Qed.

Lemma iso_entries_frame (c c' : container) :
  heap_inv c' -> same_frame c c' -> iso_entries c -> iso_entries c'.
Proof.
  intros Hinv' (Hd & _ & _ & _ & _ & Hs & _) (_ & Hdis & Hsh).
  split; [done|]. split; congruence.
Qed.

Lemma _update_priority_iso (obj_id : string) (new_priority : Z) :
  preserves iso_entries (_update_priority obj_id new_priority).
Proof.
  intros c Hc. destruct (sessions c !! obj_id) as [s|] eqn:Hs.
  - destruct (update_priority_spec obj_id new_priority c s (proj1 Hc) Hs)
      as (c' & Hrun & Hinv' & _ & Hfr & _).
    rewrite Hrun. by apply (iso_entries_frame c).
  - rewrite update_priority_absent; [done|].
    by apply (index_map_sessions_None c obj_id (proj2 (proj1 Hc))).
Qed.

Lemma _pop_iso : preserves iso_entries _pop.
Proof.
  intros c Hc. destruct (heap c) as [|root rest] eqn:Hh.
  - by rewrite pop_empty.
  - destruct (pop_spec c root (proj1 Hc)) as (c' & Hrun & Hinv' & _ & Hfr & _);
      [by rewrite Hh|].
    rewrite Hrun. by apply (iso_entries_frame c).
Qed.

Lemma iso_entries_set_ip (m : gmap string (list string)) (c : container) :
  iso_entries c -> iso_entries (set_ip_to_sessions m c).
Proof. by apply iso_entries_ext. Qed.

Lemma evict_over_cap_iso (cfg : config) (fuel : nat) (normalized_ip : string) :
  preserves iso_entries (evict_over_cap cfg fuel normalized_ip).
Proof.
  induction fuel as [|fuel IH]; intros c Hc; [done|].
  simpl. destruct (ip_to_sessions c !! normalized_ip) as [l|]; [|done].
  destruct (_ >? _); [|done]. destruct l as [|first rest]; [done|].
  refine (preserves_bind iso_entries _ _ _ _ c Hc); [apply _update_priority_iso|].
  intros _. apply preserves_bind; [apply _pop_iso|]. intros _.
  apply preserves_bind; [|intros _; apply IH].
  intros c' Hc'. destruct (ip_to_sessions c' !! normalized_ip); [|done].
  by apply iso_entries_set_ip.
Qed.

Lemma eviction_iso (identifier : string) (client_ip : option string) :
  preserves iso_entries (_handle_client_ip_and_session_eviction identifier client_ip).
Proof. intros c Hc. rewrite eviction_effect. by apply iso_entries_set_ip. Qed.

Lemma addition_iso (cfg : config) (identifier : string) (client_ip : option string) :
  preserves iso_entries
    (_handle_client_ip_and_session_addition cfg identifier client_ip).
Proof.
  intros c Hc. unfold _handle_client_ip_and_session_addition.
  destruct (negb (truthy client_ip)); [done|].
  destruct (ip_to_sessions c !! _); [|by apply iso_entries_set_ip].
  apply evict_over_cap_iso. by apply iso_entries_set_ip.
Qed.

Lemma reattribution_iso (cfg : config) (session_id : string)
    (saved_ip : option string) (client_ip : string) :
  preserves iso_entries
    (_handle_client_ip_and_session_reattribution cfg session_id saved_ip client_ip).
Proof.
  intros c Hc. unfold _handle_client_ip_and_session_reattribution.
  destruct (index_map c !! session_id) as [i|]; [|done].
  destruct (heap c !! i) as [x|] eqn:Hx; [|done].
  apply evict_over_cap_iso. apply iso_entries_set_ip.
  destruct Hc as (Hinv & Hdis & Hsh).
  split; [by apply heap_inv_set_client_ip|done].
Qed.

Lemma priority_iso (cfg : config) (session_id : string) (client_ip : option string) :
  preserves iso_entries
    (_handle_client_ip_and_session_priority cfg session_id client_ip).
Proof.
  intros c Hc. unfold _handle_client_ip_and_session_priority.
  destruct (negb (truthy client_ip)); [done|].
  destruct (index_map c !! session_id) as [i|]; [|done].
  destruct (heap c !! i) as [x|] eqn:Hx; [|done].
  case_bool_decide.
  - destruct (ip_to_sessions c !! _); by apply iso_entries_set_ip.
  - by apply reattribution_iso.
Qed.

Lemma pop_iso : preserves iso_entries pop.
Proof.
  apply preserves_bind; [apply _pop_iso|].
  intros [x|]; [|apply preserves_ret].
  apply preserves_bind; [apply eviction_iso|intros _; apply preserves_ret].
Qed.

Lemma push_iso (cfg : config) (priority : Z) (session_id : string)
    (data : option loc) (client_ip : option string) (c : container) :
  iso_entries c -> index_map c !! session_id = None ->
  iso_entries (state_after (push cfg priority session_id data client_ip c)).
Proof.
  intros Hc Hnone. rewrite push_unfold. apply addition_iso.
  destruct (push_spec priority session_id data client_ip c (proj1 Hc) Hnone)
    as (Hinv1 & _ & Hfr1 & _).
  by apply (iso_entries_frame c).
Qed.

Lemma get_or_create_iso (cfg : config) (target : string)
    (client_ip : option string) (now : Z) :
  preserves iso_entries (get_or_create cfg target client_ip now).
Proof.
  intros c Hc. unfold get_or_create.
  destruct (index_map c !! target) as [i|] eqn:Ht.
  - destruct (heap c !! i); [|done].
    refine (preserves_bind iso_entries _ _ _ _ c Hc).
    + apply preserves_bind; [apply _update_priority_iso|].
      intros _. apply priority_iso.
    + intros _. apply preserves_ret.
  - set (m1 := if Z.of_nat (size (index_map c)) >=? MAX_SESSIONS c
               then pop ;; ret tt else ret tt).
    assert (H1 : iso_entries (state_after (m1 c))
                 /\ index_map (state_after (m1 c)) !! target = None).
    { split.
      - unfold m1. destruct (_ >=? _); [|done].
        refine (preserves_bind iso_entries _ _ _ _ c Hc);
          [apply pop_iso|intros ?; apply preserves_ret].
      - assert (Hk : preserves (fun c => heap_inv c /\ index_map c !! target = None) m1).
        { unfold m1. destruct (_ >=? _); [|apply preserves_ret].
          apply preserves_bind; [apply pop_keeps_absent|intros ?; apply preserves_ret]. }
        apply (Hk c (conj (proj1 Hc) Ht)). }
    unfold bindM, state_after in *.
    destruct (m1 c) as [[[]|e] c1]; simpl in H1; [|by destruct H1].
    destruct H1 as [Hc1 Ht1]. unfold new_storage.
    destruct (InMemoryStorage_init cfg) as [st|e]; [|done].
    assert (Hc1' : iso_entries (set_mem (mem c1 ++ [st]) c1))
      by (by apply (iso_entries_ext c1)).
    pose proof (push_iso cfg now target (Some (length (mem c1))) client_ip
                  _ Hc1' Ht1) as H2.
    unfold state_after in H2.
    destruct (push cfg now target _ client_ip _) as [[[]|e] c2]; simpl in *; [|done].
    repeat case_match; done.
Qed.

Lemma get_storage_iso (cfg : config)
    (session_id_from_cookie client_ip jwt_token : option string) (now : Z)
    (uuid : string) :
  preserves iso_entries
    (get_storage cfg session_id_from_cookie client_ip jwt_token now uuid).
Proof.
  intros c Hc. unfold get_storage. rewrite (proj1 (proj2 Hc)).
  destruct (resolve_target _ _ _ c) as [target c1] eqn:Hr.
  apply get_or_create_iso.
  unfold resolve_target in Hr.
  repeat case_match; simplify_eq; try done; by apply (iso_entries_ext c).
Qed.

Lemma run_gs_calls_iso (cfg : config) (rs : list gs_call) (c : container) :
  iso_entries c -> iso_entries (run_gs_calls cfg rs c).
Proof.
  revert c. induction rs as [|r rs IH]; intros c Hc; [done|].
  simpl. apply IH. by apply get_storage_iso.
Qed.

(** X14.  The global cap holds under [get_storage]: in isolation mode,
    after any sequence of calls on a container created with
    [MAX_SESSIONS >= 1], whatever the cookies, addresses, tokens and clock
    values and whether the calls return or raise, the index map names at
    most [MAX_SESSIONS] sessions, the heap holds session entries only and
    the heap invariant holds. *)
Theorem get_storage_keeps_global_cap (cfg : config) (M : Z) (rs : list gs_call) :
  1 <= M ->
  let c := run_gs_calls cfg rs (fresh false M) in
  Z.of_nat (size (index_map c)) <= M
  /\ MAX_SESSIONS c = M
  /\ DISABLE_ISOLATION_MODE c = false /\ shared c = None
  /\ heap_inv c.
Proof.
  intros HM c.
  assert (Hc : sessions_at_most (Z.to_nat M) M c).
  { unfold c. generalize (fresh false M),
      (conj (heap_inv_fresh false M)
         (conj (eq_refl : MAX_SESSIONS (fresh false M) = M)
            (le_0_n _ : (size (sessions (fresh false M)) <= Z.to_nat M)%nat))).
    induction rs as [|r rs IH]; intros c0 Hc0; [done|].
    simpl. apply IH. by apply get_storage_at_most. }
  destruct Hc as (Hinv & HMc & Hsz).
  destruct (run_gs_calls_iso cfg rs (fresh false M)
              (conj (heap_inv_fresh false M) (conj eq_refl eq_refl)))
    as (_ & Hdis & Hsh).
  rewrite (size_index_map c (proj2 Hinv)).
  split; [lia|]. split; [done|]. split; [exact Hdis|]. split; [exact Hsh|done].
Qed.

Lemma get_storage_keeps_global_cap_witness :
  let cfg := default_config in
  let c := run_gs_calls cfg
             [GsCall (Some "a") (Some "10.0.0.1") None 1 "";
              GsCall (Some "b") (Some "10.0.0.2") None 2 "";
              GsCall None (Some "1:2:3:4:5:6:7:8") (Some "token_x") 3 "u1";
              GsCall (Some "a") (Some "10.0.0.3") None 4 ""]
             (fresh false 2) in
  Z.of_nat (size (index_map c)) <= 2.
Proof.
  intros cfg c.
  exact (proj1 (get_storage_keeps_global_cap cfg 2 _ ltac:(lia))).
Defined.

(** ** Address lists are never left empty *)

Lemma _update_priority_ips (obj_id : string) (new_priority : Z) (c : container) :
  heap_inv c ->
  heap_inv (state_after (_update_priority obj_id new_priority c))
  /\ ip_to_sessions (state_after (_update_priority obj_id new_priority c))
     = ip_to_sessions c.
Proof.
  intros Hinv. destruct (sessions c !! obj_id) as [s|] eqn:Hs.
  - destruct (update_priority_spec obj_id new_priority c s Hinv Hs)
      as (c' & Hrun & Hinv' & _ & Hfr & _).
    rewrite Hrun. cbn [state_after snd]. split; [done|].
    by destruct Hfr as (_ & _ & _ & _ & ? & _).
  - rewrite update_priority_absent; [done|].
    by apply (index_map_sessions_None c obj_id (proj2 Hinv)).
Qed.

Lemma _pop_ips (c : container) :
  heap_inv c ->
  heap_inv (state_after (_pop c))
  /\ ip_to_sessions (state_after (_pop c)) = ip_to_sessions c.
Proof.
  intros Hinv. destruct (heap c) as [|root rest] eqn:Hh.
  - by rewrite pop_empty.
  - destruct (pop_spec c root Hinv) as (c' & Hrun & Hinv' & _ & Hfr & _);
      [by rewrite Hh|].
    rewrite Hrun. cbn [state_after snd]. split; [done|].
    by destruct Hfr as (_ & _ & _ & _ & ? & _).
Qed.

Lemma no_empty_list_set_ip (m : gmap string (list string)) (c : container) :
  heap_inv c -> map_Forall (fun _ l => l ≠ []) m ->
  no_empty_list (set_ip_to_sessions m c).
Proof. intros Hinv Hm. split; [by apply heap_inv_set_ip|done]. Qed.

Lemma evict_over_cap_no_empty (cfg : config) (fuel : nat) (normalized_ip : string) :
  1 <= MAX_SESSIONS_PER_IP cfg ->
  preserves no_empty_list (evict_over_cap cfg fuel normalized_ip).
Proof.
  intros HK. induction fuel as [|fuel IH]; intros c Hc; [done|].
  simpl. destruct (ip_to_sessions c !! normalized_ip) as [l|] eqn:HN; [|done].
  destruct (Z.gtb_spec (Z.of_nat (length l)) (MAX_SESSIONS_PER_IP cfg)) as [Hgt|_];
    [|done].
  destruct l as [|first rest]; [done|].
  destruct Hc as [Hinv Hne].
  destruct (_update_priority_ips first 0 c Hinv) as [Hinv1 Hips1].
  unfold bindM at 1.
  destruct (_update_priority first 0 c) as [[[]|e] c1]; cbn [state_after snd] in *.
  2:{ split; [done|]. by rewrite Hips1. }
  destruct (_pop_ips c1 Hinv1) as [Hinv2 Hips2].
  unfold bindM at 1.
  destruct (_pop c1) as [[o|e] c2]; cbn [state_after snd] in *.
  2:{ split; [done|]. by rewrite Hips2, Hips1. }
  unfold bindM at 1. cbn beta.
  assert (HN2 : ip_to_sessions c2 !! normalized_ip = Some (first :: rest))
    by (by rewrite Hips2, Hips1).
  rewrite HN2. apply IH. apply no_empty_list_set_ip; [done|].
  apply map_Forall_insert_2; [|by rewrite Hips2, Hips1].
  destruct rest; [simpl in Hgt; lia|done].
Qed.

Lemma ips_remove_no_empty (identifier : string) (client_ip : option string)
    (ips : gmap string (list string)) :
  map_Forall (fun _ l => l ≠ []) ips ->
  map_Forall (fun _ l => l ≠ []) (ips_remove identifier client_ip ips).
Proof.
  intros Hne. unfold ips_remove. destruct (negb (truthy client_ip)); [done|].
  destruct (ips !! _) as [l|]; [|done].
  destruct (filter _ l) eqn:Hf.
  - by apply map_Forall_delete.
  - by apply map_Forall_insert_2.
Qed.

Lemma eviction_no_empty (identifier : string) (client_ip : option string) :
  preserves no_empty_list (_handle_client_ip_and_session_eviction identifier client_ip).
Proof.
  intros c [Hinv Hne]. rewrite eviction_effect.
  apply no_empty_list_set_ip; [done|]. by apply ips_remove_no_empty.
Qed.

Lemma snoc_not_nil {A : Type} (l : list A) (x : A) : l ++ [x] ≠ [].
Proof. by destruct l. Qed.

Lemma addition_no_empty (cfg : config) (identifier : string)
    (client_ip : option string) :
  1 <= MAX_SESSIONS_PER_IP cfg ->
  preserves no_empty_list
    (_handle_client_ip_and_session_addition cfg identifier client_ip).
Proof.
  intros HK c [Hinv Hne]. unfold _handle_client_ip_and_session_addition.
  destruct (negb (truthy client_ip)); [done|].
  destruct (ip_to_sessions c !! _).
  - apply evict_over_cap_no_empty; [done|]. apply no_empty_list_set_ip; [done|].
    apply map_Forall_insert_2; [apply snoc_not_nil|done].
  - apply no_empty_list_set_ip; [done|]. by apply map_Forall_insert_2.
Qed.

Lemma reattribution_no_empty (cfg : config) (session_id : string)
    (saved_ip : option string) (client_ip : string) :
  1 <= MAX_SESSIONS_PER_IP cfg ->
  preserves no_empty_list
    (_handle_client_ip_and_session_reattribution cfg session_id saved_ip client_ip).
Proof.
  intros HK c [Hinv Hne]. unfold _handle_client_ip_and_session_reattribution.
  destruct (index_map c !! session_id) as [i|]; [|done].
  destruct (heap c !! i) as [x|] eqn:Hx; [|done].
  apply evict_over_cap_no_empty; [done|]. apply no_empty_list_set_ip.
  { by apply heap_inv_set_client_ip. }
  apply map_Forall_insert_2; [apply snoc_not_nil|].
  cbn [ip_to_sessions set_heap].
  destruct (truthy saved_ip); [|done].
  destruct (ip_to_sessions c !! str_of saved_ip) as [l|]; [|done].
  destruct (filter _ l) eqn:Hf.
  - by apply map_Forall_delete.
  - by apply map_Forall_insert_2.
Qed.

Lemma priority_no_empty (cfg : config) (session_id : string)
    (client_ip : option string) :
  1 <= MAX_SESSIONS_PER_IP cfg ->
  preserves no_empty_list
    (_handle_client_ip_and_session_priority cfg session_id client_ip).
Proof.
  intros HK c Hc. unfold _handle_client_ip_and_session_priority.
  destruct (negb (truthy client_ip)); [done|].
  destruct (index_map c !! session_id) as [i|]; [|done].
  destruct (heap c !! i) as [x|] eqn:Hx; [|done].
  case_bool_decide.
  - destruct Hc as [Hinv Hne].
    destruct (ip_to_sessions c !! _); (apply no_empty_list_set_ip; [done|]);
      apply map_Forall_insert_2; try done. apply snoc_not_nil.
  - by apply reattribution_no_empty.
Qed.

Lemma _update_priority_no_empty (obj_id : string) (new_priority : Z) :
  preserves no_empty_list (_update_priority obj_id new_priority).
Proof.
  intros c [Hinv Hne].
  destruct (_update_priority_ips obj_id new_priority c Hinv) as [Hinv1 Hips1].
  split; [done|]. by rewrite Hips1.
Qed.

Lemma pop_no_empty : preserves no_empty_list pop.
Proof.
  apply preserves_bind.
  - intros c [Hinv Hne]. destruct (_pop_ips c Hinv) as [Hinv1 Hips1].
    split; [done|]. by rewrite Hips1.
  - intros [x|]; [|apply preserves_ret].
    apply preserves_bind; [apply eviction_no_empty|intros _; apply preserves_ret].
Qed.

Lemma push_no_empty (cfg : config) (priority : Z) (session_id : string)
    (data : option loc) (client_ip : option string) (c : container) :
  1 <= MAX_SESSIONS_PER_IP cfg ->
  no_empty_list c -> index_map c !! session_id = None ->
  no_empty_list (state_after (push cfg priority session_id data client_ip c)).
Proof.
  intros HK [Hinv Hne] Hnone. rewrite push_unfold.
  apply addition_no_empty; [done|].
  destruct (push_spec priority session_id data client_ip c Hinv Hnone)
    as (Hinv1 & _ & Hfr1 & _).
  split; [done|]. destruct Hfr1 as (_ & _ & _ & _ & -> & _). done.
Qed.

Lemma get_or_create_no_empty (cfg : config) (target : string)
    (client_ip : option string) (now : Z) :
  1 <= MAX_SESSIONS_PER_IP cfg ->
  preserves no_empty_list (get_or_create cfg target client_ip now).
Proof.
  intros HK c Hc. unfold get_or_create.
  destruct (index_map c !! target) as [i|] eqn:Ht.
  - destruct (heap c !! i); [|done].
    refine (preserves_bind no_empty_list _ _ _ _ c Hc).
    + apply preserves_bind; [apply _update_priority_no_empty|].
      intros _. by apply priority_no_empty.
    + intros _. apply preserves_ret.
  - set (m1 := if Z.of_nat (size (index_map c)) >=? MAX_SESSIONS c
               then pop ;; ret tt else ret tt).
    assert (H1 : no_empty_list (state_after (m1 c))
                 /\ index_map (state_after (m1 c)) !! target = None).
    { split.
      - unfold m1. destruct (_ >=? _); [|done].
        refine (preserves_bind no_empty_list _ _ _ _ c Hc);
          [apply pop_no_empty|intros ?; apply preserves_ret].
      - assert (Hk : preserves (fun c => heap_inv c /\ index_map c !! target = None) m1).
        { unfold m1. destruct (_ >=? _); [|apply preserves_ret].
          apply preserves_bind; [apply pop_keeps_absent|intros ?; apply preserves_ret]. }
        apply (Hk c (conj (proj1 Hc) Ht)). }
    unfold bindM, state_after in *.
    destruct (m1 c) as [[[]|e] c1]; simpl in H1; [|by destruct H1].
    destruct H1 as [Hc1 Ht1]. unfold new_storage.
    destruct (InMemoryStorage_init cfg) as [st|e]; [|done].
    assert (Hc1' : no_empty_list (set_mem (mem c1 ++ [st]) c1)).
    { destruct Hc1 as [Hinv1 Hne1]. split; [by apply heap_inv_set_mem|done]. }
    pose proof (push_no_empty cfg now target (Some (length (mem c1))) client_ip
                  _ HK Hc1' Ht1) as H2.
    unfold state_after in H2.
    destruct (push cfg now target _ client_ip _) as [[[]|e] c2]; simpl in *; [|done].
    repeat case_match; done.
Qed.

Lemma get_storage_no_empty (cfg : config)
    (session_id_from_cookie client_ip jwt_token : option string) (now : Z)
    (uuid : string) :
  1 <= MAX_SESSIONS_PER_IP cfg ->
  preserves no_empty_list
    (get_storage cfg session_id_from_cookie client_ip jwt_token now uuid).
Proof.
  intros HK c Hc. unfold get_storage.
  destruct (DISABLE_ISOLATION_MODE c).
  - destruct (shared c); [done|].
    unfold bindM, new_storage, modify, ret.
    destruct (InMemoryStorage_init cfg); [|done]. simpl.
    destruct Hc as [Hinv Hne]. split; [by apply (heap_inv_ext c)|done].
  - destruct (resolve_target _ _ _ c) as [target c1] eqn:Hr.
    apply get_or_create_no_empty; [done|].
    unfold resolve_target in Hr. destruct Hc as [Hinv Hne].
    repeat case_match; simplify_eq; try done;
      (split; [by apply (heap_inv_ext c)|done]).
Qed.

(** X15.  No address is kept with an empty list: after any sequence of
    [get_storage] calls on a fresh container, with a per-address cap of at
    least 1 (what [__init__] demands), whatever the addresses (IPv4, IPv6 or
    none) and whether the calls return or raise, every key of
    [ip_to_sessions] has a non-empty list. *)
Theorem address_lists_never_empty (cfg : config) (disable : bool) (M : Z)
    (rs : list gs_call) (N : string) (l : list string) :
  1 <= MAX_SESSIONS_PER_IP cfg ->
  ip_to_sessions (run_gs_calls cfg rs (fresh disable M)) !! N = Some l ->
  l ≠ [].
Proof.
  intros HK.
  assert (Hc : no_empty_list (run_gs_calls cfg rs (fresh disable M))).
  { generalize (fresh disable M),
      (conj (heap_inv_fresh disable M) (map_Forall_empty _)
       : no_empty_list (fresh disable M)).
    induction rs as [|r rs IH]; intros c0 Hc0; [done|].
    simpl. apply IH. by apply get_storage_no_empty. }
  intros HN. by apply (proj2 Hc N l).
Qed.

Lemma address_lists_never_empty_witness :
  ip_to_sessions
    (run_gs_calls default_config
       [GsCall (Some "a") (Some "10.0.0.1") None 1 "";
        GsCall (Some "a") (Some "10.0.0.2") None 2 ""]
       (fresh false 3000)) !! "10.0.0.2" = Some ["a"]
  /\ ["a"] ≠ [].
Proof.
  split; [by vm_compute|].
  apply (address_lists_never_empty default_config false 3000
           [GsCall (Some "a") (Some "10.0.0.1") None 1 "";
            GsCall (Some "a") (Some "10.0.0.2") None 2 ""] "10.0.0.2" ["a"]).
  - by vm_compute.
  - by vm_compute.
Defined.

(** ** The address quota for plain addresses: the abstract moves *)

Lemma truthy_str_of (o : option string) :
  truthy o = true -> o = Some (str_of o).
Proof. destruct o; [done|discriminate]. Qed.

(** Taking a session out. *)
Lemma quota_ok_remove (cfg : config) (S : gmap string saved_item)
    (I : gmap string (list string)) (k : string) (s : saved_item) :
  quota_ok cfg S I -> S !! k = Some s ->
  quota_ok cfg (delete k S) (ips_remove k (sv_client_ip s) I).
Proof.
  intros (Hs & Hl & Hm) Hk.
  destruct (Hs k s Hk) as [_ Hplain].
  split; [|split].
  - intros k' s' Hk'. apply lookup_delete_Some in Hk' as [_ Hk']. by apply (Hs k').
  - intros N l. rewrite ips_remove_lookup.
    destruct (truthy (sv_client_ip s)) eqn:Ht; simpl.
    + rewrite (Hplain Ht). case_bool_decide as HN.
      * subst N. destruct (I !! str_of (sv_client_ip s)) as [l0|] eqn:Hl0; [|done].
        simpl. destruct (Hl _ _ Hl0) as (Hne & Hnd & Hlen & Hmem).
        intros Hl'.
        assert (l = filter (fun e => e ≠ k) l0 /\ l ≠ []) as [-> Hne'].
        { destruct (filter _ l0) eqn:Hf; [done|]. by injection Hl' as <-. }
        split; [done|]. split; [by apply NoDup_filter|]. split.
        { pose proof (length_filter (fun e => e ≠ k) l0). lia. }
        intros k' Hk'. apply list_elem_of_filter in Hk' as [Hne'' Hk'].
        destruct (Hmem k' Hk') as (s' & Hs' & Hrest). exists s'.
        split; [by rewrite lookup_delete_ne|done].
      * intros HN'. destruct (Hl _ _ HN') as (Hne & Hnd & Hlen & Hmem).
        do 3 (split; [done|]). intros k' Hk'.
        destruct (Hmem k' Hk') as (s' & Hs' & Ht' & Hip'). exists s'.
        split; [|done]. rewrite lookup_delete_ne; [done|].
        intros <-. rewrite Hk in Hs'. injection Hs' as <-. done.
    + intros HN'. destruct (Hl _ _ HN') as (Hne & Hnd & Hlen & Hmem).
      do 3 (split; [done|]). intros k' Hk'.
      destruct (Hmem k' Hk') as (s' & Hs' & Ht' & Hip'). exists s'.
      split; [|done]. rewrite lookup_delete_ne; [done|].
      intros <-. rewrite Hk in Hs'. injection Hs' as <-. congruence.
  - intros k' s' Hk' Ht'. apply lookup_delete_Some in Hk' as [Hne Hk'].
    apply ips_remove_listed; [done|]. by apply Hm.
Qed.

Lemma ips_add_lookup (identifier : string) (client_ip : option string)
    (ips : gmap string (list string)) (N : string) :
  ips_add identifier client_ip ips !! N
  = if truthy client_ip
       && bool_decide (N = _normalize_ip_for_limiting (str_of client_ip))
    then Some (default [] (ips !! N) ++ [identifier])
    else ips !! N.
Proof.
  unfold ips_add. destruct (truthy client_ip); simpl; [|done].
  case_bool_decide as HN.
  - subst N. by rewrite lookup_insert_eq.
  - by rewrite lookup_insert_ne.
Qed.

(** Putting a session in, when its address list has room. *)
Lemma quota_ok_add (cfg : config) (S : gmap string saved_item)
    (I : gmap string (list string)) (k : string) (s : saved_item) :
  quota_ok cfg S I -> S !! k = None ->
  0 < sv_priority s -> plain_ip (sv_client_ip s) ->
  (truthy (sv_client_ip s) = true ->
   Z.of_nat (len_at (str_of (sv_client_ip s)) I) < MAX_SESSIONS_PER_IP cfg) ->
  quota_ok cfg (<[k := s]> S) (ips_add k (sv_client_ip s) I).
Proof.
  intros (Hs & Hl & Hm) Hk Hprio Hplain Hroom.
  assert (Hnotin : forall N l, I !! N = Some l -> k ∉ l).
  { intros N l HN Hin. destruct (Hl _ _ HN) as (_ & _ & _ & Hmem).
    destruct (Hmem k Hin) as (s' & Hs' & _). congruence. }
  split; [|split].
  - intros k' s' Hk'. apply lookup_insert_Some in Hk' as [[<- <-]|[_ Hk']]; [done|].
    by apply (Hs k').
  - intros N l. rewrite ips_add_lookup.
    destruct (truthy (sv_client_ip s)) eqn:Ht; simpl.
    + rewrite (Hplain Ht). case_bool_decide as HN.
      * subst N. intros [= <-]. specialize (Hroom eq_refl). unfold len_at in Hroom.
        split; [apply snoc_not_nil|].
        destruct (I !! str_of (sv_client_ip s)) as [l0|] eqn:Hl0; simpl in *.
        -- destruct (Hl _ _ Hl0) as (Hne & Hnd & Hlen & Hmem).
           split.
           { apply NoDup_app. split; [done|]. split; [|apply NoDup_singleton].
             intros x Hx Hx'. apply list_elem_of_singleton in Hx' as ->.
             by apply (Hnotin _ _ Hl0). }
           split; [rewrite length_app; simpl; lia|].
           intros k' Hk'. apply elem_of_app in Hk' as [Hk'|Hk'].
           ++ destruct (Hmem k' Hk') as (s' & Hs' & Hrest). exists s'.
              split; [|done]. rewrite lookup_insert_ne; [done|].
              intros <-. congruence.
           ++ apply list_elem_of_singleton in Hk' as ->. exists s.
              by rewrite lookup_insert_eq.
        -- split; [apply NoDup_singleton|]. split; [simpl; lia|].
           intros k' Hk'. apply list_elem_of_singleton in Hk' as ->. exists s.
           by rewrite lookup_insert_eq.
      * intros HN'. destruct (Hl _ _ HN') as (Hne & Hnd & Hlen & Hmem).
        do 3 (split; [done|]). intros k' Hk'.
        destruct (Hmem k' Hk') as (s' & Hs' & Hrest). exists s'.
        split; [|done]. rewrite lookup_insert_ne; [done|].
        intros <-. congruence.
    + intros HN'. destruct (Hl _ _ HN') as (Hne & Hnd & Hlen & Hmem).
      do 3 (split; [done|]). intros k' Hk'.
      destruct (Hmem k' Hk') as (s' & Hs' & Hrest). exists s'.
      split; [|done]. rewrite lookup_insert_ne; [done|].
      intros <-. congruence.
  - intros k' s' Hk' Ht'. rewrite ips_add_lookup.
    apply lookup_insert_Some in Hk' as [[<- <-]|[Hne Hk']].
    + rewrite Ht', (Hplain Ht'). simpl. rewrite bool_decide_eq_true_2 by done.
      simpl. apply elem_of_app. right. left.
    + pose proof (Hm k' s' Hk' Ht') as Hin.
      destruct (truthy (sv_client_ip s) && bool_decide _); [|done].
      simpl. apply elem_of_app. by left.
Qed.

(** Changing the priority of a session. *)
Lemma quota_ok_priority (cfg : config) (S : gmap string saved_item)
    (I : gmap string (list string)) (k : string) (s : saved_item) (p : Z) :
  quota_ok cfg S I -> S !! k = Some s -> 0 < p ->
  quota_ok cfg (<[k := Saved p k (sv_storage s) (sv_client_ip s)]> S) I.
Proof.
  intros (Hs & Hl & Hm) Hk Hp. split; [|split].
  - intros k' s' Hk'. apply lookup_insert_Some in Hk' as [[<- <-]|[_ Hk']].
    + simpl. split; [done|]. by apply (Hs k s).
    + by apply (Hs k').
  - intros N l HN. destruct (Hl _ _ HN) as (Hne & Hnd & Hlen & Hmem).
    do 3 (split; [done|]). intros k' Hk'.
    destruct (Hmem k' Hk') as (s' & Hs' & Ht' & Hip').
    destruct (decide (k' = k)) as [->|Hne'].
    + eexists. rewrite lookup_insert_eq. split; [done|]. simpl.
      rewrite Hk in Hs'. by injection Hs' as <-.
    + exists s'. by rewrite lookup_insert_ne.
  - intros k' s' Hk' Ht'. apply lookup_insert_Some in Hk' as [[<- <-]|[_ Hk']].
    + simpl in *. by apply (Hm k s).
    + by apply Hm.
Qed.

(** ** The address quota for plain addresses: composed moves *)

Lemma plain_ip_Some (N : string) :
  _normalize_ip_for_limiting N = N -> plain_ip (Some N).
Proof. intros H _. exact H. Qed.

Lemma filter_ne_head (first : string) (rest : list string) :
  NoDup (first :: rest) -> filter (fun e => e ≠ first) (first :: rest) = rest.
Proof.
  intros Hnd. apply NoDup_cons in Hnd as [Hnotin _].
  rewrite filter_cons_False by (intros H; by apply H).
  by apply filter_ne_notin.
Qed.

(** Taking [j] out of the list of an address and putting [k] at its end. *)
Lemma ips_move (j k : string) (ipf ip : option string) (N : string)
    (I : gmap string (list string)) (l : list string) :
  truthy ipf = true -> _normalize_ip_for_limiting (str_of ipf) = N ->
  truthy ip = true -> _normalize_ip_for_limiting (str_of ip) = N ->
  I !! N = Some l ->
  ips_add k ip (ips_remove j ipf I) = <[N := filter (fun e => e ≠ j) l ++ [k]]> I.
Proof.
  intros Htf Hnf Ht Hn Hl. unfold ips_add, ips_remove.
  rewrite Htf, Ht, Hnf, Hn. cbn [negb]. rewrite Hl.
  destruct (filter _ l) eqn:Hf.
  - rewrite lookup_delete_eq. cbn [default from_option id app].
    by rewrite insert_delete_eq.
  - rewrite lookup_insert_eq. cbn [default from_option id].
    by rewrite insert_insert_eq.
Qed.

(** Putting a session in when the list of its address is full: the head of
    the list goes. *)
Lemma quota_ok_add_evict (cfg : config) (S : gmap string saved_item)
    (I : gmap string (list string)) (k : string) (s : saved_item)
    (first : string) (rest : list string) :
  quota_ok cfg S I -> S !! k = None ->
  0 < sv_priority s -> plain_ip (sv_client_ip s) ->
  truthy (sv_client_ip s) = true ->
  I !! str_of (sv_client_ip s) = Some (first :: rest) ->
  quota_ok cfg (<[k := s]> (delete first S))
    (<[str_of (sv_client_ip s) := rest ++ [k]]> I).
Proof.
  intros Hq Hk Hp Hplain Ht HN.
  pose proof Hq as (Hs & Hl & Hm).
  destruct (Hl _ _ HN) as (_ & Hnd & Hlen & Hmem).
  destruct (Hmem first) as (sf & Hsf & Htf & Hipf); [left|].
  assert (Hnf : _normalize_ip_for_limiting (str_of (sv_client_ip sf))
                = str_of (sv_client_ip s)).
  { rewrite <- Hipf. exact (proj2 (Hs _ _ Hsf) Htf). }
  pose proof (ips_move first k (sv_client_ip sf) (sv_client_ip s) _ I _
                Htf Hnf Ht (Hplain Ht) HN) as Hmove.
  rewrite (filter_ne_head _ _ Hnd) in Hmove. rewrite <- Hmove.
  apply quota_ok_add; [exact (quota_ok_remove cfg S I first sf Hq Hsf)| |done|done|].
  - apply lookup_delete_None. by right.
  - intros _. unfold len_at. rewrite ips_remove_lookup, Htf, Hnf.
    rewrite bool_decide_eq_true_2 by done. rewrite HN.
    cbn [andb fmap option_fmap option_map]. rewrite (filter_ne_head _ _ Hnd).
    destruct rest; cbn [default from_option id length] in *; lia.
Qed.

(** Using a session again from the address it has: it moves to the end of
    the list. *)
Lemma quota_ok_touch (cfg : config) (S : gmap string saved_item)
    (I : gmap string (list string)) (k : string) (s : saved_item) (p : Z)
    (l : list string) :
  quota_ok cfg S I -> S !! k = Some s -> 0 < p ->
  truthy (sv_client_ip s) = true ->
  I !! str_of (sv_client_ip s) = Some l ->
  quota_ok cfg (<[k := Saved p k (sv_storage s) (sv_client_ip s)]> S)
    (<[str_of (sv_client_ip s) := filter (fun e => e ≠ k) l ++ [k]]> I).
Proof.
  intros Hq Hk Hp Ht HN.
  pose proof Hq as (Hs & Hl & Hm).
  destruct (Hl _ _ HN) as (_ & Hnd & Hlen & Hmem).
  pose proof (proj2 (Hs _ _ Hk) Ht) as Hn.
  pose proof (Hm _ _ Hk Ht) as Hin. rewrite HN in Hin. simpl in Hin.
  rewrite <- (ips_move k k (sv_client_ip s) (sv_client_ip s) _ I l Ht Hn Ht Hn HN).
  rewrite <- insert_delete_eq.
  apply (quota_ok_add cfg (delete k S) _ k (Saved p k (sv_storage s) (sv_client_ip s))).
  - exact (quota_ok_remove cfg S I k s Hq Hk).
  - apply lookup_delete_eq.
  - done.
  - exact (proj2 (Hs _ _ Hk)).
  - intros _. cbn [sv_client_ip]. unfold len_at.
    rewrite ips_remove_lookup, Ht, Hn.
    rewrite bool_decide_eq_true_2 by done. rewrite HN.
    cbn [andb fmap option_fmap option_map].
    assert (Hlt : (length (filter (fun e => e ≠ k) l) < length l)%nat).
    { apply (length_filter_lt _ _ k); [done|]. intros H. by apply H. }
    destruct (filter _ l); cbn [default from_option id length] in *; lia.
Qed.

(** ** The address quota for plain addresses: the operations *)

Lemma pop_quota (cfg : config) : preserves (quota_inv cfg) pop.
Proof.
  intros c [Hinv Hq]. destruct (heap c) as [|root rest] eqn:Hh.
  - unfold pop, bindM. rewrite (pop_empty c Hh). exact (conj Hinv Hq).
  - assert (Hroot : heap c !! 0%nat = Some root) by (by rewrite Hh).
    destruct (pop_effect c root Hinv Hroot) as (c' & Hrun & Hinv' & Hsess & Hips & _).
    rewrite Hrun. cbn [state_after snd]. split; [done|]. rewrite Hsess, Hips.
    exact (quota_ok_remove cfg _ _ _ (saved_of root) Hq
             (sessions_lookup_item c 0 root (proj2 Hinv) Hroot)).
Qed.

Lemma touched_from (k : string) (s2 : saved_item) (c c1 c' : container) :
  (forall j, j ≠ k -> sessions c1 !! j = sessions c !! j) -> same_rest c c1 ->
  touched k s2 c1 c' -> touched k s2 c c'.
Proof.
  intros Hsame Hrest (Hk & Hothers & Hrest'). split; [done|]. split.
  - intros j s' Hj Hs'. rewrite <- (Hsame j Hj). by apply Hothers.
  - by eapply same_rest_trans.
Qed.

(** The end of an addition or of a re-attribution: the session [k], already
    in the heap, is put at the end of the list of its address [N], and the
    list is cut back to the cap.  This returns, and [k] is not the session
    that goes. *)
Lemma append_evict_spec (cfg : config) (c : container) (S0 : gmap string saved_item)
    (I1 : gmap string (list string)) (k N : string) (s2 : saved_item)
    (l2 : list string) :
  1 <= MAX_SESSIONS_PER_IP cfg ->
  heap_inv c -> sessions c = <[k := s2]> S0 -> quota_ok cfg S0 I1 -> S0 !! k = None ->
  0 < sv_priority s2 -> sv_client_ip s2 = Some N -> truthy (Some N) = true ->
  _normalize_ip_for_limiting N = N ->
  l2 = default [] (I1 !! N) ++ [k] ->
  exists c',
    evict_over_cap cfg (S (length l2)) N (set_ip_to_sessions (<[N := l2]> I1) c)
    = (Ok tt, c')
    /\ quota_inv cfg c' /\ touched k s2 c c'.
Proof.
  intros HK Hinv Hsess Hq Hk Hp Hip HtN HnN Hl2.
  assert (Ht2 : truthy (sv_client_ip s2) = true) by (by rewrite Hip).
  assert (Hplain2 : plain_ip (sv_client_ip s2)) by (rewrite Hip; by apply plain_ip_Some).
  assert (Hstr : str_of (sv_client_ip s2) = N) by (by rewrite Hip).
  remember (set_ip_to_sessions (<[N := l2]> I1) c) as c2 eqn:Hc2.
  assert (Hinv2 : heap_inv c2) by (subst c2; by apply heap_inv_set_ip).
  assert (Hsess2 : sessions c2 = <[k := s2]> S0) by (subst c2; exact Hsess).
  assert (Hips2 : ip_to_sessions c2 = <[N := l2]> I1) by (by subst c2).
  assert (Hrest2 : same_rest c c2) by (subst c2; apply same_rest_set_ip).
  assert (HN2 : ip_to_sessions c2 !! N = Some l2) by (by rewrite Hips2, lookup_insert_eq).
  pose proof Hq as (Hs & Hl & Hm).
  destruct (decide (Z.of_nat (len_at N I1) < MAX_SESSIONS_PER_IP cfg)) as [Hroom|Hfull].
  - exists c2. split.
    { apply (evict_over_cap_within cfg (length l2) N c2 l2 HN2).
      rewrite Hl2, length_app. unfold len_at in Hroom. cbn [length]. lia. }
    split.
    + split; [done|]. rewrite Hsess2, Hips2, Hl2.
      pose proof (quota_ok_add cfg S0 I1 k s2 Hq Hk Hp Hplain2) as Hadd.
      unfold ips_add in Hadd. rewrite Ht2, Hstr, HnN in Hadd. cbn [negb] in Hadd.
      apply Hadd. intros _. exact Hroom.
    + split; [by rewrite Hsess2, lookup_insert_eq|]. split; [|done].
      intros j s' _. by rewrite Hsess2, Hsess.
  - assert (Hfull' : exists first rest,
               I1 !! N = Some (first :: rest)
               /\ Z.of_nat (length (first :: rest)) = MAX_SESSIONS_PER_IP cfg).
    { unfold len_at in Hfull.
      destruct (I1 !! N) as [[|first rest]|] eqn:HlN;
        cbn [default from_option id length] in Hfull; [lia| |lia].
      exists first, rest. split; [done|].
      destruct (Hl _ _ HlN) as (_ & _ & Hlen & _). cbn [length] in *. lia. }
    destruct Hfull' as (first & rest & HlN & Hlen).
    rewrite HlN in Hl2. cbn [default from_option id app] in Hl2.
    destruct (Hl _ _ HlN) as (_ & Hnd & _ & Hmem).
    destruct (Hmem first) as (sf & Hsf & Htf & Hipf); [left|].
    assert (Hnek : k ≠ first) by (intros ->; congruence).
    destruct (evict_over_cap_one cfg (length (rest ++ [k])) N c2 first (rest ++ [k]) sf)
      as (c' & Hrun & Hinv' & Hsess' & Hips' & Hrest').
    + done.
    + by rewrite HN2, Hl2.
    + rewrite length_app. cbn [length] in *. lia.
    + by rewrite Hsess2, lookup_insert_ne.
    + intros j s' Hj. rewrite Hsess2. intros Hs'.
      apply lookup_insert_Some in Hs' as [[_ <-]|[_ Hs']]; [done|].
      exact (proj1 (Hs _ _ Hs')).
    + exists c'. split.
      { rewrite Hl2.
        change (length (first :: rest ++ [k])) with (S (length (rest ++ [k]))).
        exact Hrun. }
      split.
      * split; [done|].
        rewrite Hsess', Hips', Hsess2, Hips2.
        rewrite insert_insert_eq, delete_insert_ne by done.
        pose proof (quota_ok_add_evict cfg S0 I1 k s2 first rest Hq Hk Hp Hplain2 Ht2)
          as H.
        rewrite Hstr in H. by apply H.
      * split.
        { rewrite Hsess', Hsess2, lookup_delete_ne by done. apply lookup_insert_eq. }
        split; [|by eapply same_rest_trans].
        intros j s' _. rewrite Hsess', Hsess2, Hsess.
        intros Hj. by apply lookup_delete_Some in Hj as [_ Hj].
Qed.

(** [push] of an id the container does not hold returns, and the new
    session is in the queue afterwards. *)
Lemma push_quota_spec (cfg : config) (priority : Z) (session_id : string)
    (data : option loc) (client_ip : option string) (c : container) :
  1 <= MAX_SESSIONS_PER_IP cfg -> 0 < priority -> plain_ip client_ip ->
  quota_inv cfg c -> index_map c !! session_id = None ->
  exists c',
    push cfg priority session_id data client_ip c = (Ok tt, c')
    /\ quota_inv cfg c'
    /\ touched session_id (Saved priority session_id data client_ip) c c'.
Proof.
  intros HK Hp Hplain [Hinv Hq] Hnone. rewrite push_unfold.
  destruct (push_spec priority session_id data client_ip c Hinv Hnone)
    as (Hinv1 & Hsess1 & Hfr1 & _).
  apply same_frame_rest in Hfr1 as [Hrest1 Hips1].
  assert (Hk : sessions c !! session_id = None)
    by (by apply (index_map_sessions_None c session_id (proj2 Hinv))).
  remember (_push priority session_id data client_ip c) as c1 eqn:Hc1.
  assert (Hfrom : forall c', touched session_id (Saved priority session_id data client_ip)
                               c1 c'
                             -> touched session_id (Saved priority session_id data client_ip)
                                  c c').
  { intros c'. apply touched_from; [|done].
    intros j Hj. by rewrite Hsess1, lookup_insert_ne. }
  assert (Hself : forall m, touched session_id (Saved priority session_id data client_ip)
                              c1 (set_ip_to_sessions m c1)).
  { intros m. split; [|split].
    - change (sessions (set_ip_to_sessions m c1)) with (sessions c1).
      by rewrite Hsess1, lookup_insert_eq.
    - by intros j s' _.
    - apply same_rest_set_ip. }
  pose proof (quota_ok_add cfg _ _ session_id
                (Saved priority session_id data client_ip) Hq Hk Hp Hplain) as Hadd.
  unfold ips_add in Hadd. cbn [sv_client_ip] in Hadd.
  destruct (truthy client_ip) eqn:Ht.
  - destruct client_ip as [N|]; [|discriminate Ht].
    pose proof (Hplain Ht) as HnN. change (str_of (Some N)) with N in *.
    unfold _handle_client_ip_and_session_addition. rewrite Ht. cbn [negb].
    change (str_of (Some N)) with N. rewrite HnN, Hips1.
    cbn [negb] in Hadd. rewrite HnN in Hadd.
    destruct (ip_to_sessions c !! N) as [l|] eqn:Hl.
    + destruct (append_evict_spec cfg c1 (sessions c) (ip_to_sessions c) session_id N
                  (Saved priority session_id data (Some N)) (l ++ [session_id]))
        as (c' & Hrun & Hq' & Ht'); try done.
      { by rewrite Hl. }
      exists c'. split; [done|]. split; [done|]. by apply Hfrom.
    + eexists. split; [reflexivity|]. split; [|by apply Hfrom, Hself].
      split; [by apply heap_inv_set_ip|].
      change (sessions (set_ip_to_sessions (<[N := [session_id]]> (ip_to_sessions c)) c1))
        with (sessions c1).
      rewrite Hsess1. proj_simpl. apply Hadd. intros _. unfold len_at. rewrite Hl.
      cbn [default from_option id length]. lia.
  - rewrite addition_falsy by done. exists c1. split; [done|]. split.
    + split; [done|]. rewrite Hsess1, Hips1. cbn [negb] in Hadd. apply Hadd. intros [=].
    + apply Hfrom. split; [by rewrite Hsess1, lookup_insert_eq|]. split; [|apply same_rest_refl].
      by intros j s' _.
Qed.

Lemma push_quota (cfg : config) (priority : Z) (session_id : string)
    (data : option loc) (client_ip : option string) (c : container) :
  1 <= MAX_SESSIONS_PER_IP cfg -> 0 < priority -> plain_ip client_ip ->
  quota_inv cfg c -> index_map c !! session_id = None ->
  quota_inv cfg (state_after (push cfg priority session_id data client_ip c)).
Proof.
  intros HK Hp Hplain Hc Hnone.
  destruct (push_quota_spec cfg priority session_id data client_ip c HK Hp Hplain Hc Hnone)
    as (c' & Hrun & Hq' & _).
  by rewrite Hrun.
Qed.

Lemma reattribution_unfold (cfg : config) (session_id : string)
    (saved_ip : option string) (N : string) (c : container) (i : nat) (x : item) :
  plain_ip saved_ip ->
  index_map c !! session_id = Some i -> heap c !! i = Some x ->
  _handle_client_ip_and_session_reattribution cfg session_id saved_ip N c
  = evict_over_cap cfg
      (S (length (filter (fun e => e ≠ session_id)
                    (default [] (ips_remove session_id saved_ip (ip_to_sessions c) !! N))
                  ++ [session_id])))
      N
      (set_ip_to_sessions
         (<[N := filter (fun e => e ≠ session_id)
                   (default [] (ips_remove session_id saved_ip (ip_to_sessions c) !! N))
                 ++ [session_id]]>
            (ips_remove session_id saved_ip (ip_to_sessions c)))
         (set_heap (<[i := set_client_ip (Some N) x]> (heap c)) c)).
Proof.
  intros Hplain Hi Hx. unfold _handle_client_ip_and_session_reattribution, ips_remove.
  rewrite Hi, Hx. cbn [ip_to_sessions set_heap].
  destruct (truthy saved_ip) eqn:Ht; cbn [negb]; [|reflexivity].
  rewrite (Hplain Ht). reflexivity.
Qed.

(** Moving a session to another address returns; the session keeps its
    priority and its store. *)
Lemma reattribution_quota_spec (cfg : config) (session_id N : string) (c : container)
    (s : saved_item) :
  1 <= MAX_SESSIONS_PER_IP cfg -> quota_inv cfg c ->
  sessions c !! session_id = Some s ->
  truthy (Some N) = true -> _normalize_ip_for_limiting N = N ->
  exists c',
    _handle_client_ip_and_session_reattribution cfg session_id (sv_client_ip s) N c
    = (Ok tt, c')
    /\ quota_inv cfg c'
    /\ touched session_id (Saved (sv_priority s) session_id (sv_storage s) (Some N)) c c'.
Proof.
  intros HK [Hinv Hq] Hs HtN HnN.
  pose proof Hq as (Hqs & Hql & Hqm).
  destruct (sessions_lookup_Some c session_id s (proj2 Hinv) Hs)
    as (i & x & Hi & Hx & Hid & Hsx).
  rewrite (reattribution_unfold cfg session_id (sv_client_ip s) N c i x
             (proj2 (Hqs _ _ Hs)) Hi Hx).
  pose proof (quota_ok_remove cfg _ _ _ _ Hq Hs) as Hq0.
  set (I1 := ips_remove session_id (sv_client_ip s) (ip_to_sessions c)) in *.
  assert (Hnotin : session_id ∉ default [] (I1 !! N)).
  { destruct (I1 !! N) as [l|] eqn:HlN; [|apply not_elem_of_nil].
    intros Hin. destruct (proj1 (proj2 Hq0) _ _ HlN) as (_ & _ & _ & Hmem).
    destruct (Hmem _ Hin) as (s' & Hs' & _). by rewrite lookup_delete_eq in Hs'. }
  rewrite (filter_ne_notin _ _ Hnotin).
  assert (Hs2 : saved_of (set_client_ip (Some N) x)
                = Saved (sv_priority s) session_id (sv_storage s) (Some N)).
  { rewrite <- Hsx, <- Hid. reflexivity. }
  assert (Hsess1 : sessions (set_heap (<[i := set_client_ip (Some N) x]> (heap c)) c)
                   = <[session_id := Saved (sv_priority s) session_id (sv_storage s)
                                      (Some N)]> (sessions c)).
  { rewrite (heap_insert_sessions c i x (set_client_ip (Some N) x) Hx eq_refl (proj2 Hinv)).
    by rewrite Hid, Hs2. }
  destruct (append_evict_spec cfg (set_heap (<[i := set_client_ip (Some N) x]> (heap c)) c)
              (delete session_id (sessions c)) I1 session_id N
              (Saved (sv_priority s) session_id (sv_storage s) (Some N))
              (default [] (I1 !! N) ++ [session_id]))
    as (c' & Hrun & Hq' & Ht'); try done.
  - by apply heap_inv_set_client_ip.
  - by rewrite Hsess1, insert_delete_eq.
  - apply lookup_delete_eq.
  - exact (proj1 (Hqs _ _ Hs)).
  - exists c'. split; [done|]. split; [done|].
    revert Ht'. apply touched_from; [|by repeat split].
    intros j Hj. by rewrite Hsess1, lookup_insert_ne.
Qed.

Lemma saved_item_eta (c : container) (k : string) (s : saved_item) :
  heap_inv c -> sessions c !! k = Some s ->
  Saved (sv_priority s) k (sv_storage s) (sv_client_ip s) = s.
Proof.
  intros Hinv Hs.
  destruct (sessions_lookup_Some c k s (proj2 Hinv) Hs) as (i & x & _ & _ & <- & <-).
  reflexivity.
Qed.

(** The address handler of [update_priority] returns on a session of the
    queue, which then carries the caller's address if one was given. *)
Lemma priority_quota_spec (cfg : config) (session_id : string)
    (client_ip : option string) (c : container) (s : saved_item) :
  1 <= MAX_SESSIONS_PER_IP cfg -> plain_ip client_ip ->
  quota_inv cfg c -> sessions c !! session_id = Some s ->
  exists c',
    _handle_client_ip_and_session_priority cfg session_id client_ip c = (Ok tt, c')
    /\ quota_inv cfg c'
    /\ touched session_id
         (Saved (sv_priority s) session_id (sv_storage s)
            (if truthy client_ip then client_ip else sv_client_ip s)) c c'.
Proof.
  intros HK Hplain [Hinv Hq] Hs.
  pose proof (saved_item_eta c session_id s Hinv Hs) as Heta.
  unfold _handle_client_ip_and_session_priority.
  destruct (truthy client_ip) eqn:HtN.
  2:{ exists c. split; [done|]. split; [done|]. rewrite Heta.
      split; [done|]. split; [by intros j s' _|apply same_rest_refl]. }
  destruct client_ip as [N|]; [|discriminate HtN].
  cbn [negb]. pose proof (Hplain HtN) as HnN. change (str_of (Some N)) with N in *.
  rewrite HnN.
  destruct (sessions_lookup_Some c session_id s (proj2 Hinv) Hs)
    as (i & x & Hi & Hx & Hid & Hsx).
  rewrite Hi, Hx.
  assert (Hipx : it_client_ip x = sv_client_ip s) by (by rewrite <- Hsx).
  case_bool_decide as Hsame.
  - pose proof Hq as (Hqs & Hql & Hqm).
    rewrite Hipx in Hsame.
    assert (Ht : truthy (sv_client_ip s) = true) by (by rewrite Hsame).
    pose proof (Hqm _ _ Hs Ht) as Hin.
    rewrite Hsame in Hin. change (str_of (Some N)) with N in Hin.
    pose proof (quota_ok_touch cfg (sessions c) (ip_to_sessions c) session_id
                  s (sv_priority s)) as H.
    rewrite Heta, Hsame in H. change (str_of (Some N)) with N in H.
    rewrite insert_id in H by done.
    destruct (ip_to_sessions c !! N) as [l|] eqn:Hl; [|by apply elem_of_nil in Hin].
    eexists. split; [reflexivity|]. split.
    + split; [by apply heap_inv_set_ip|].
      apply (H l); try done. exact (proj1 (Hqs _ _ Hs)).
    + rewrite <- Hsame, Heta. split; [done|].
      split; [by intros j s' _|apply same_rest_set_ip].
  - rewrite Hipx.
    by apply (reattribution_quota_spec cfg session_id N c s).
Qed.

Lemma priority_quota (cfg : config) (session_id : string) (client_ip : option string) :
  1 <= MAX_SESSIONS_PER_IP cfg -> plain_ip client_ip ->
  preserves (quota_inv cfg)
    (_handle_client_ip_and_session_priority cfg session_id client_ip).
Proof.
  intros HK Hplain c Hc. destruct (sessions c !! session_id) as [s|] eqn:Hs.
  - destruct (priority_quota_spec cfg session_id client_ip c s HK Hplain Hc Hs)
      as (c' & Hrun & Hq' & _).
    by rewrite Hrun.
  - apply (index_map_sessions_None c session_id (proj2 (proj1 Hc))) in Hs.
    unfold _handle_client_ip_and_session_priority.
    destruct (negb (truthy client_ip)); [done|]. by rewrite Hs.
Qed.

(** [update_priority] on a session of the queue returns; the session has
    the new priority, its store, and the caller's address if one was given. *)
Lemma update_priority_quota_spec (cfg : config) (obj_id : string) (new_priority : Z)
    (client_ip : option string) (c : container) (s : saved_item) :
  1 <= MAX_SESSIONS_PER_IP cfg -> 0 < new_priority -> plain_ip client_ip ->
  quota_inv cfg c -> sessions c !! obj_id = Some s ->
  exists c',
    update_priority cfg obj_id new_priority client_ip c = (Ok tt, c')
    /\ quota_inv cfg c'
    /\ touched obj_id
         (Saved new_priority obj_id (sv_storage s)
            (if truthy client_ip then client_ip else sv_client_ip s)) c c'.
Proof.
  intros HK Hp Hplain [Hinv Hq] Hs.
  destruct (update_priority_spec obj_id new_priority c s Hinv Hs)
    as (c1 & Hrun1 & Hinv1 & Hsess1 & Hfr1 & _).
  apply same_frame_rest in Hfr1 as [Hrest1 Hips1].
  assert (Hs1 : sessions c1 !! obj_id
                = Some (Saved new_priority obj_id (sv_storage s) (sv_client_ip s)))
    by (by rewrite Hsess1, lookup_insert_eq).
  assert (Hq1 : quota_inv cfg c1).
  { split; [done|]. rewrite Hsess1, Hips1. by apply quota_ok_priority. }
  destruct (priority_quota_spec cfg obj_id client_ip c1 _ HK Hplain Hq1 Hs1)
    as (c' & Hrun & Hq' & Ht').
  exists c'. split.
  { unfold update_priority, bindM. by rewrite Hrun1. }
  split; [done|]. cbn [sv_priority sv_storage sv_client_ip] in Ht'.
  revert Ht'. apply touched_from; [|done].
  intros j Hj. by rewrite Hsess1, lookup_insert_ne.
Qed.

Lemma update_priority_quota (cfg : config) (obj_id : string) (new_priority : Z)
    (client_ip : option string) :
  1 <= MAX_SESSIONS_PER_IP cfg -> 0 < new_priority -> plain_ip client_ip ->
  preserves (quota_inv cfg) (update_priority cfg obj_id new_priority client_ip).
Proof.
  intros HK Hp Hplain c Hc. destruct (sessions c !! obj_id) as [s|] eqn:Hs.
  - destruct (update_priority_quota_spec cfg obj_id new_priority client_ip c s
                HK Hp Hplain Hc Hs) as (c' & Hrun & Hq' & _).
    by rewrite Hrun.
  - apply (index_map_sessions_None c obj_id (proj2 (proj1 Hc))) in Hs.
    unfold update_priority, bindM. by rewrite update_priority_absent.
Qed.

Lemma quota_inv_ext (cfg : config) (c c' : container) :
  heap c' = heap c -> index_map c' = index_map c ->
  ip_to_sessions c' = ip_to_sessions c ->
  quota_inv cfg c -> quota_inv cfg c'.
Proof.
  intros Hh Him Hips [Hinv Hq]. split; [by apply (heap_inv_ext c)|].
  unfold sessions. by rewrite Hh, Him, Hips.
Qed.

Lemma get_or_create_quota (cfg : config) (target : string)
    (client_ip : option string) (now : Z) :
  1 <= MAX_SESSIONS_PER_IP cfg -> 0 < now -> plain_ip client_ip ->
  preserves (quota_inv cfg) (get_or_create cfg target client_ip now).
Proof.
  intros HK Hnow Hplain c Hc. unfold get_or_create.
  destruct (index_map c !! target) as [i|] eqn:Ht.
  - destruct (heap c !! i); [|done].
    refine (preserves_bind (quota_inv cfg) _ _ _ _ c Hc).
    + by apply update_priority_quota.
    + intros _. apply preserves_ret.
  - set (m1 := if Z.of_nat (size (index_map c)) >=? MAX_SESSIONS c
               then pop ;; ret tt else ret tt).
    assert (H1 : quota_inv cfg (state_after (m1 c))
                 /\ index_map (state_after (m1 c)) !! target = None).
    { split.
      - unfold m1. destruct (_ >=? _); [|done].
        refine (preserves_bind (quota_inv cfg) _ _ _ _ c Hc);
          [apply pop_quota|intros ?; apply preserves_ret].
      - assert (Hk : preserves (fun c => heap_inv c /\ index_map c !! target = None) m1).
        { unfold m1. destruct (_ >=? _); [|apply preserves_ret].
          apply preserves_bind; [apply pop_keeps_absent|intros ?; apply preserves_ret]. }
        apply (Hk c (conj (proj1 Hc) Ht)). }
    unfold bindM, state_after in *.
    destruct (m1 c) as [[[]|e] c1]; simpl in H1; [|by destruct H1].
    destruct H1 as [Hc1 Ht1]. unfold new_storage.
    destruct (InMemoryStorage_init cfg) as [st|e]; [|done].
    assert (Hc1' : quota_inv cfg (set_mem (mem c1 ++ [st]) c1))
      by (by apply (quota_inv_ext cfg c1)).
    pose proof (push_quota cfg now target (Some (length (mem c1))) client_ip
                  _ HK Hnow Hplain Hc1' Ht1) as H2.
    unfold state_after in H2.
    destruct (push cfg now target _ client_ip _) as [[[]|e] c2]; simpl in *; [|done].
    repeat case_match; done.
Qed.

Lemma get_storage_quota (cfg : config)
    (session_id_from_cookie client_ip jwt_token : option string) (now : Z)
    (uuid : string) :
  1 <= MAX_SESSIONS_PER_IP cfg -> 0 < now -> plain_ip client_ip ->
  preserves (quota_inv cfg)
    (get_storage cfg session_id_from_cookie client_ip jwt_token now uuid).
Proof.
  intros HK Hnow Hplain c Hc. unfold get_storage.
  destruct (DISABLE_ISOLATION_MODE c).
  - destruct (shared c); [done|].
    unfold bindM, new_storage, modify, ret.
    destruct (InMemoryStorage_init cfg); [|done]. simpl.
    by apply (quota_inv_ext cfg c).
  - destruct (resolve_target _ _ _ c) as [target c1] eqn:Hr.
    apply get_or_create_quota; [done|done|done|].
    unfold resolve_target in Hr.
    repeat case_match; simplify_eq; try done; by apply (quota_inv_ext cfg c).
Qed.

Lemma quota_inv_fresh (cfg : config) (d : bool) (m : Z) : quota_inv cfg (fresh d m).
Proof.
  split; [apply heap_inv_fresh|]. rewrite sessions_fresh.
  split; [|split].
  - intros k s Hk. by rewrite lookup_empty in Hk.
  - intros N l HN. cbn in HN. by rewrite lookup_empty in HN.
  - intros k s Hk. by rewrite lookup_empty in Hk.
Qed.

Lemma run_gs_calls_quota (cfg : config) (rs : list gs_call) (c : container) :
  1 <= MAX_SESSIONS_PER_IP cfg ->
  Forall (fun r => plain_ip (gs_client_ip r) /\ 0 < gs_now r) rs ->
  quota_inv cfg c -> quota_inv cfg (run_gs_calls cfg rs c).
Proof.
  intros HK Hrs. revert c. induction Hrs as [|r rs [Hplain Hnow] _ IH]; intros c Hc; [done|].
  simpl. apply IH. by apply get_storage_quota.
Qed.

(** X16.  For clients whose addresses the limiter takes as they are (every
    IPv4 address), the per-address quota holds.  After any sequence of
    [get_storage] calls on a fresh container with such addresses and positive
    clock values, whether the calls return or raise, the list kept for an
    address has no repeats, has at most [MAX_SESSIONS_PER_IP] entries, and
    names exactly the live sessions recorded with that address. *)
Theorem address_quota_holds_for_plain_addresses (cfg : config) (disable : bool)
    (M : Z) (rs : list gs_call) (N : string) (l : list string) :
  1 <= MAX_SESSIONS_PER_IP cfg ->
  Forall (fun r => plain_ip (gs_client_ip r) /\ 0 < gs_now r) rs ->
  ip_to_sessions (run_gs_calls cfg rs (fresh disable M)) !! N = Some l ->
  NoDup l
  /\ Z.of_nat (length l) <= MAX_SESSIONS_PER_IP cfg
  /\ forall k, k ∈ l <->
       exists s, sessions (run_gs_calls cfg rs (fresh disable M)) !! k = Some s
                 /\ sv_client_ip s = Some N.
Proof.
  intros HK Hrs HN.
  destruct (run_gs_calls_quota cfg rs _ HK Hrs (quota_inv_fresh cfg disable M))
    as [_ (Hs & Hl & Hm)].
  destruct (Hl _ _ HN) as (Hne & Hnd & Hlen & Hmem).
  split; [done|]. split; [done|]. intros k. split.
  - intros Hk. destruct (Hmem k Hk) as (s & Hks & Ht & Hip). exists s.
    split; [done|]. rewrite (truthy_str_of _ Ht). by rewrite Hip.
  - intros (s & Hks & Hip).
    assert (Ht : truthy (sv_client_ip s) = true).
    { destruct l as [|k' l']; [done|].
      destruct (Hmem k') as (s' & _ & Ht' & Hip'); [left|].
      rewrite (truthy_str_of _ Ht') in Ht'. rewrite Hip' in Ht'. by rewrite Hip. }
    pose proof (Hm _ _ Hks Ht) as Hin. rewrite Hip in Hin.
    change (str_of (Some N)) with N in Hin. by rewrite HN in Hin.
Qed.

Lemma address_quota_holds_for_plain_addresses_witness :
  let cfg := Config 2 64 60 20 20 100 100 in
  let c := run_gs_calls cfg
             [GsCall (Some "a") (Some "10.0.0.1") None 1 "";
              GsCall (Some "b") (Some "10.0.0.1") None 2 "";
              GsCall (Some "c") (Some "10.0.0.2") None 3 "";
              GsCall (Some "c") (Some "10.0.0.1") None 4 ""]
             (fresh false 3000) in
  ip_to_sessions c !! "10.0.0.1" = Some ["b"; "c"]
  /\ NoDup ["b"; "c"]
  /\ Z.of_nat (length ["b"; "c"]) <= MAX_SESSIONS_PER_IP cfg.
Proof.
  intros cfg c.
  assert (HN : ip_to_sessions c !! "10.0.0.1" = Some ["b"; "c"]) by (by vm_compute).
  split; [exact HN|].
  destruct (address_quota_holds_for_plain_addresses cfg false 3000
              [GsCall (Some "a") (Some "10.0.0.1") None 1 "";
               GsCall (Some "b") (Some "10.0.0.1") None 2 "";
               GsCall (Some "c") (Some "10.0.0.2") None 3 "";
               GsCall (Some "c") (Some "10.0.0.1") None 4 ""]
              "10.0.0.1" ["b"; "c"]) as (Hnd & Hlen & _).
  - by vm_compute.
  - repeat constructor; try (intros _; reflexivity); simpl; lia.
  - exact HN.
  - split; [exact Hnd|exact Hlen].
Defined.

(** ** [get_storage] for plain addresses: what it returns *)

Lemma get_or_create_touch (cfg : config) (target : string) (client_ip : option string)
    (now : Z) (c : container) (s : saved_item) :
  1 <= MAX_SESSIONS_PER_IP cfg -> 0 < now -> plain_ip client_ip ->
  quota_inv cfg c -> sessions c !! target = Some s ->
  exists c',
    get_or_create cfg target client_ip now c = (Ok (Some target, sv_storage s), c')
    /\ quota_inv cfg c'
    /\ touched target
         (Saved now target (sv_storage s)
            (if truthy client_ip then client_ip else sv_client_ip s)) c c'.
Proof.
  intros HK Hnow Hplain Hc Hs.
  destruct (sessions_lookup_Some c target s (proj2 (proj1 Hc)) Hs)
    as (i & x & Hi & Hx & Hid & Hsx).
  destruct (update_priority_quota_spec cfg target now client_ip c s HK Hnow Hplain Hc Hs)
    as (c' & Hrun & Hq' & Ht').
  exists c'. split; [|done].
  unfold get_or_create. rewrite Hi, Hx. unfold bindM. rewrite Hrun.
  unfold ret. by rewrite <- Hsx.
Qed.

Lemma get_or_create_new (cfg : config) (target : string) (client_ip : option string)
    (now : Z) (c : container) (st : InMemoryStorage) :
  1 <= MAX_SESSIONS_PER_IP cfg -> 0 < now -> plain_ip client_ip ->
  quota_inv cfg c -> sessions c !! target = None ->
  InMemoryStorage_init cfg = Ok st ->
  exists c',
    get_or_create cfg target client_ip now c
    = (Ok (Some target, Some (length (mem c))), c')
    /\ quota_inv cfg c'
    /\ sessions c' !! target = Some (Saved now target (Some (length (mem c))) client_ip)
    /\ (forall j s', j ≠ target -> sessions c' !! j = Some s' -> sessions c !! j = Some s')
    /\ mem c' = mem c ++ [st]
    /\ DISABLE_ISOLATION_MODE c' = DISABLE_ISOLATION_MODE c.
Proof.
  intros HK Hnow Hplain Hc Hs Hst.
  pose proof Hc as [Hinv Hq].
  assert (Hnone : index_map c !! target = None)
    by (by apply (index_map_sessions_None c target (proj2 Hinv))).
  assert (H1 : exists c1,
             (if Z.of_nat (size (index_map c)) >=? MAX_SESSIONS c
              then pop ;; ret tt else ret tt) c = (Ok tt, c1)
             /\ quota_inv cfg c1 /\ sessions c1 !! target = None
             /\ (forall j s', sessions c1 !! j = Some s' -> sessions c !! j = Some s')
             /\ same_rest c c1).
  { destruct (_ >=? _).
    - destruct (heap c) as [|root rest] eqn:Hh.
      + exists c. split.
        { unfold bindM, pop, bindM. by rewrite (pop_empty c Hh). }
        split; [done|]. split; [done|]. split; [done|apply same_rest_refl].
      + assert (Hroot : heap c !! 0%nat = Some root) by (by rewrite Hh).
        destruct (pop_effect c root Hinv Hroot)
          as (c1 & Hrun & Hinv1 & Hsess1 & Hips1 & Hrest1 & _).
        exists c1. split.
        { unfold bindM. by rewrite Hrun. }
        split.
        { pose proof (pop_quota cfg c Hc) as H. by rewrite Hrun in H. }
        split.
        { rewrite Hsess1. apply lookup_delete_None. by right. }
        split; [|done]. intros j s'. rewrite Hsess1. intros Hj.
        by apply lookup_delete_Some in Hj as [_ Hj].
    - exists c. do 3 (split; [done|]). split; [done|apply same_rest_refl]. }
  destruct H1 as (c1 & Hrun1 & Hq1 & Hs1 & Hsub1 & Hrest1).
  destruct Hrest1 as (Hdis1 & _ & _ & _ & _ & Hmem1).
  assert (Hq1' : quota_inv cfg (set_mem (mem c1 ++ [st]) c1))
    by (by apply (quota_inv_ext cfg c1)).
  assert (Hnone1 : index_map (set_mem (mem c1 ++ [st]) c1) !! target = None)
    by (by apply (index_map_sessions_None c1 target (proj2 (proj1 Hq1)))).
  destruct (push_quota_spec cfg now target (Some (length (mem c1))) client_ip
              (set_mem (mem c1 ++ [st]) c1) HK Hnow Hplain Hq1' Hnone1)
    as (c2 & Hrun2 & Hq2 & Hk2 & Hothers2 & Hrest2).
  destruct Hrest2 as (Hdis2 & _ & _ & _ & _ & Hmem2).
  exists c2. split.
  { unfold get_or_create. rewrite Hnone. unfold bindM at 1. rewrite Hrun1.
    unfold bindM at 1. unfold new_storage. rewrite Hst.
    unfold bindM. rewrite Hrun2.
    rewrite (created_session_lookup c2 target _ (proj1 Hq2) Hk2).
    cbn [sv_storage]. by rewrite Hmem1. }
  split; [done|]. split; [by rewrite <- Hmem1|]. split.
  { intros j s' Hj Hs'. apply Hsub1. by apply (Hothers2 j s' Hj). }
  split; [by rewrite Hmem2, <- Hmem1|]. by rewrite Hdis2, <- Hdis1.
Qed.

Lemma resolve_target_frame (session_id_from_cookie jwt_token : option string)
    (uuid : string) (c c1 : container) (target : string) :
  resolve_target session_id_from_cookie jwt_token uuid c = (target, c1) ->
  heap c1 = heap c /\ index_map c1 = index_map c
  /\ ip_to_sessions c1 = ip_to_sessions c /\ mem c1 = mem c
  /\ DISABLE_ISOLATION_MODE c1 = DISABLE_ISOLATION_MODE c.
Proof.
  unfold resolve_target. intros Hr. repeat case_match; simplify_eq; by repeat split.
Qed.

(** The session id a call is about: the cookie's id, or the live session the
    token is bound to. *)
Lemma resolve_target_known (session_id_from_cookie jwt_token : option string)
    (uuid sid : string) (c : container) :
  sid ≠ "" -> is_Some (index_map c !! sid) ->
  session_id_from_cookie = Some sid
  \/ (truthy session_id_from_cookie = false /\ truthy jwt_token = true
      /\ jwt_to_session c !! str_of jwt_token = Some sid) ->
  (resolve_target session_id_from_cookie jwt_token uuid c).1 = sid.
Proof.
  intros Hsid Hlive Hcase. pose proof (truthy_Some sid Hsid) as Ht.
  unfold resolve_target. destruct Hcase as [->|(Hc & Htok & Hbound)].
  - rewrite Ht. cbn [negb andb fst]. by rewrite Ht.
  - rewrite Hc, Htok. cbn [negb andb]. rewrite Hbound, Ht.
    rewrite bool_decide_eq_true_2 by done. cbn [andb fst]. by rewrite Ht.
Qed.

(** A call about a session the queue does not hold is about the cookie's
    id, or about the new id [uuid]: a token bound to a session of the queue
    would have given that session. *)
Lemma resolve_target_absent (session_id_from_cookie jwt_token : option string)
    (uuid : string) (c : container) :
  heap_inv c ->
  sessions c !! (resolve_target session_id_from_cookie jwt_token uuid c).1 = None ->
  (resolve_target session_id_from_cookie jwt_token uuid c).1
  = if truthy session_id_from_cookie then str_of session_id_from_cookie else uuid.
Proof.
  intros Hinv. unfold resolve_target.
  destruct (truthy session_id_from_cookie) eqn:Hc; cbn [negb andb].
  { cbn [fst]. by rewrite Hc. }
  destruct (truthy jwt_token); cbn [andb]; [|cbn [fst]; by rewrite Hc].
  destruct (jwt_to_session c !! str_of jwt_token) as [t|]; [|cbn [fst]; by rewrite Hc].
  destruct (truthy (Some t) && bool_decide (is_Some (index_map c !! t))) eqn:Hb;
    [|cbn [fst]; by rewrite Hc].
  apply andb_true_iff in Hb as [Htt Hlive]. apply bool_decide_eq_true in Hlive.
  cbn [fst]. rewrite Htt. change (str_of (Some t)) with t. intros Hnew. exfalso.
  apply (index_map_sessions_None c t (proj2 Hinv)) in Hnew.
  rewrite Hnew in Hlive. by destruct Hlive.
Qed.

Lemma payloads_present_lookup (c : container) :
  payloads_present c
  <-> forall k s, sessions c !! k = Some s ->
        exists l, sv_storage s = Some l /\ (l < length (mem c))%nat.
Proof.
  unfold payloads_present. split.
  - intros H k s Hk. specialize (H k s Hk). cbn beta in H.
    destruct (sv_storage s) as [l|]; [|by destruct H].
    exists l. split; [done|]. by apply lookup_lt_is_Some.
  - intros H k s Hk. destruct (H k s Hk) as (l & -> & Hl).
    by apply lookup_lt_is_Some.
Qed.

(** A call on a consistent container returns, and the session it returns is
    in the queue with the store it returns. *)
Lemma get_storage_quota_spec (cfg : config)
    (session_id_from_cookie client_ip jwt_token : option string) (now : Z)
    (uuid : string) (c : container) (st : InMemoryStorage) :
  1 <= MAX_SESSIONS_PER_IP cfg -> 0 < now -> plain_ip client_ip ->
  InMemoryStorage_init cfg = Ok st ->
  DISABLE_ISOLATION_MODE c = false -> quota_inv cfg c -> payloads_present c ->
  exists sid l c' s,
    get_storage cfg session_id_from_cookie client_ip jwt_token now uuid c
    = (Ok (Some sid, Some l), c')
    /\ quota_inv cfg c' /\ payloads_present c'
    /\ DISABLE_ISOLATION_MODE c' = false
    /\ sessions c' !! sid = Some s
    /\ sv_priority s = now /\ sv_storage s = Some l
    /\ (l < length (mem c'))%nat
    /\ (truthy client_ip = true -> sv_client_ip s = client_ip).
Proof.
  intros HK Hnow Hplain Hst Hdis Hc Hpay.
  unfold get_storage. rewrite Hdis.
  destruct (resolve_target _ _ _ c) as [target c1] eqn:Hr.
  destruct (resolve_target_frame _ _ _ _ _ _ Hr) as (Hh1 & Him1 & Hips1 & Hmem1 & Hdis1).
  assert (Hc1 : quota_inv cfg c1) by (by apply (quota_inv_ext cfg c)).
  assert (Hsess1 : sessions c1 = sessions c) by (unfold sessions; by rewrite Hh1, Him1).
  pose proof (proj1 (payloads_present_lookup c) Hpay) as Hpay'.
  clear Hpay. rename Hpay' into Hpay.
  destruct (sessions c1 !! target) as [s|] eqn:Hs.
  - destruct (get_or_create_touch cfg target client_ip now c1 s HK Hnow Hplain Hc1 Hs)
      as (c' & Hrun & Hq' & Hk' & Hothers' & Hrest').
    destruct Hrest' as (Hdis' & _ & _ & _ & _ & Hmem').
    destruct (Hpay target s) as (l & Hl & Hlt); [by rewrite <- Hsess1|].
    exists target, l, c'. eexists. split; [by rewrite Hrun, Hl|].
    split; [done|]. split.
    { apply (proj2 (payloads_present_lookup c')). intros j s' Hj.
      rewrite Hmem', Hmem1. destruct (decide (j = target)) as [->|Hne].
      - rewrite Hk' in Hj. injection Hj as <-. by exists l.
      - apply (Hpay j). rewrite <- Hsess1. by apply Hothers'. }
    split; [by rewrite Hdis', Hdis1|]. split; [exact Hk'|].
    cbn [sv_priority sv_storage sv_client_ip].
    split; [done|]. split; [done|]. split; [by rewrite Hmem', Hmem1|].
    by intros ->.
  - destruct (get_or_create_new cfg target client_ip now c1 st HK Hnow Hplain Hc1 Hs Hst)
      as (c' & Hrun & Hq' & Hk' & Hothers' & Hmem' & Hdis').
    exists target, (length (mem c1)), c'. eexists. split; [exact Hrun|].
    split; [done|]. split.
    { apply (proj2 (payloads_present_lookup c')). intros j s' Hj.
      rewrite Hmem', length_app. cbn [length].
      destruct (decide (j = target)) as [->|Hne].
      - rewrite Hk' in Hj. injection Hj as <-. eexists. split; [done|]. lia.
      - destruct (Hpay j s') as (l & Hl & Hlt).
        { rewrite <- Hsess1. by apply Hothers'. }
        exists l. split; [done|]. rewrite Hmem1. lia. }
    split; [by rewrite Hdis', Hdis1|]. split; [exact Hk'|].
    cbn [sv_priority sv_storage sv_client_ip].
    split; [done|]. split; [done|]. split; [|done].
    rewrite Hmem', length_app. cbn [length]. lia.
Qed.

Lemma run_gs_calls_serving (cfg : config) (rs : list gs_call) (c : container)
    (st : InMemoryStorage) :
  1 <= MAX_SESSIONS_PER_IP cfg -> InMemoryStorage_init cfg = Ok st ->
  Forall (fun r => plain_ip (gs_client_ip r) /\ 0 < gs_now r) rs ->
  DISABLE_ISOLATION_MODE c = false -> quota_inv cfg c -> payloads_present c ->
  DISABLE_ISOLATION_MODE (run_gs_calls cfg rs c) = false
  /\ quota_inv cfg (run_gs_calls cfg rs c)
  /\ payloads_present (run_gs_calls cfg rs c).
Proof.
  intros HK Hst Hrs. revert c.
  induction Hrs as [|r rs [Hplain Hnow] _ IH]; intros c Hdis Hc Hpay; [done|].
  simpl. unfold run_gs_call.
  destruct (get_storage_quota_spec cfg (gs_cookie r) (gs_client_ip r) (gs_jwt_token r)
              (gs_now r) (gs_uuid r) c st HK Hnow Hplain Hst Hdis Hc Hpay)
    as (sid & l & c' & s & Hrun & Hq' & Hpay' & Hdis' & _).
  rewrite Hrun. by apply IH.
Qed.

Lemma payloads_present_fresh (d : bool) (m : Z) : payloads_present (fresh d m).
Proof. unfold payloads_present. rewrite sessions_fresh. apply map_Forall_empty. Qed.

(** X17.  [get_storage] never raises for clients with plain addresses.  In
    isolation mode, with a per-address cap of at least 1 and a configuration
    [InMemoryStorage()] accepts, after any sequence of [get_storage] calls
    with addresses the limiter takes as they are (every IPv4 address) and
    positive clock values, one more such call returns a session id and a
    store; that session is in the queue after the call, with the call's
    clock value as priority, and the store it carries is the one returned,
    an object of the container. *)
Theorem get_storage_serves_plain_addresses (cfg : config) (M : Z) (rs : list gs_call)
    (r : gs_call) (st : InMemoryStorage) :
  1 <= MAX_SESSIONS_PER_IP cfg -> InMemoryStorage_init cfg = Ok st ->
  Forall (fun r => plain_ip (gs_client_ip r) /\ 0 < gs_now r) (rs ++ [r]) ->
  exists sid l c' s,
    get_storage cfg (gs_cookie r) (gs_client_ip r) (gs_jwt_token r) (gs_now r)
      (gs_uuid r) (run_gs_calls cfg rs (fresh false M))
    = (Ok (Some sid, Some l), c')
    /\ sessions c' !! sid = Some s
    /\ sv_priority s = gs_now r /\ sv_storage s = Some l
    /\ is_Some (mem c' !! l).
Proof.
  intros HK Hst Hall. apply Forall_app in Hall as [Hrs Hr].
  apply Forall_singleton in Hr as [Hplain Hnow].
  destruct (run_gs_calls_serving cfg rs (fresh false M) st HK Hst Hrs eq_refl
              (quota_inv_fresh cfg false M) (payloads_present_fresh false M))
    as (Hdis & Hc & Hpay).
  destruct (get_storage_quota_spec cfg (gs_cookie r) (gs_client_ip r) (gs_jwt_token r)
              (gs_now r) (gs_uuid r) _ st HK Hnow Hplain Hst Hdis Hc Hpay)
    as (sid & l & c' & s & Hrun & _ & _ & _ & Hs & Hp & Hl & Hlt & _).
  exists sid, l, c', s. do 4 (split; [done|]). by apply lookup_lt_is_Some.
Qed.

Lemma get_storage_serves_plain_addresses_witness :
  let cfg := Config 1 64 60 20 20 100 100 in
  exists sid l c' s,
    get_storage cfg None (Some "10.0.0.1") (Some "token_x") 3 "u3"
      (run_gs_calls cfg
         [GsCall None (Some "10.0.0.1") None 1 "u1";
          GsCall (Some "u1") (Some "10.0.0.2") None 2 "u2"]
         (fresh false 1))
    = (Ok (Some sid, Some l), c')
    /\ sessions c' !! sid = Some s
    /\ sv_priority s = 3 /\ sv_storage s = Some l
    /\ is_Some (mem c' !! l).
Proof.
  intros cfg.
  eapply (get_storage_serves_plain_addresses cfg 1
           [GsCall None (Some "10.0.0.1") None 1 "u1";
            GsCall (Some "u1") (Some "10.0.0.2") None 2 "u2"]
           (GsCall None (Some "10.0.0.1") (Some "token_x") 3 "u3")
           _).
  - simpl. lia.
  - reflexivity.
  - repeat constructor; try (intros _; reflexivity); simpl; lia.
Defined.



(** X19.  A new session gets a store of its own.  On a container in
    isolation mode whose address lists agree with its sessions and whose
    sessions all carry a store of the container, a call about a session id
    the queue does not hold, with a plain address and a positive clock value
    and a configuration [InMemoryStorage()] accepts, returns that id with a
    reference to a new store object: the object is the one [InMemoryStorage()]
    builds, it is appended to the objects of the container, every object
    that was there is unchanged, the new session is in the queue with it,
    and no other session of the queue carries it. *)
Theorem get_storage_new_session_fresh_store (cfg : config) (c : container)
    (session_id_from_cookie client_ip jwt_token : option string) (now : Z)
    (uuid : string) (st : InMemoryStorage) :
  1 <= MAX_SESSIONS_PER_IP cfg -> 0 < now -> plain_ip client_ip ->
  InMemoryStorage_init cfg = Ok st ->
  DISABLE_ISOLATION_MODE c = false -> quota_inv cfg c -> payloads_present c ->
  sessions c !! (resolve_target session_id_from_cookie jwt_token uuid c).1 = None ->
  exists sid l c',
    get_storage cfg session_id_from_cookie client_ip jwt_token now uuid c
    = (Ok (Some sid, Some l), c')
    /\ sid = (if truthy session_id_from_cookie then str_of session_id_from_cookie
              else uuid)
    /\ mem c' = mem c ++ [st] /\ mem c' !! l = Some st
    /\ sessions c' !! sid = Some (Saved now sid (Some l) client_ip)
    /\ forall j s', j ≠ sid -> sessions c' !! j = Some s' ->
         sessions c !! j = Some s' /\ sv_storage s' ≠ Some l.
Proof.
  intros HK Hnow Hplain Hst Hdis Hc Hpay Hnew.
  pose proof (resolve_target_absent session_id_from_cookie jwt_token uuid c
                (proj1 Hc) Hnew) as Htarget.
  unfold get_storage. rewrite Hdis.
  destruct (resolve_target _ _ _ c) as [target c1] eqn:Hr.
  cbn [fst] in Hnew, Htarget.
  destruct (resolve_target_frame _ _ _ _ _ _ Hr) as (Hh1 & Him1 & Hips1 & Hmem1 & Hdis1).
  assert (Hc1 : quota_inv cfg c1) by (by apply (quota_inv_ext cfg c)).
  assert (Hsess1 : sessions c1 = sessions c) by (unfold sessions; by rewrite Hh1, Him1).
  rewrite <- Hsess1 in Hnew.
  destruct (get_or_create_new cfg target client_ip now c1 st HK Hnow Hplain Hc1 Hnew Hst)
    as (c' & Hrun & _ & Hk' & Hothers' & Hmem' & _).
  exists target, (length (mem c1)), c'. split; [done|]. split.
  { exact Htarget. }
  split; [by rewrite Hmem', Hmem1|]. split.
  { rewrite Hmem'. rewrite lookup_app_r by lia. by rewrite Nat.sub_diag. }
  split; [done|].
  intros j s' Hj Hs'. pose proof (Hothers' j s' Hj Hs') as Hold.
  rewrite Hsess1 in Hold. split; [done|].
  destruct (proj1 (payloads_present_lookup c) Hpay j s' Hold) as (l & -> & Hlt).
  intros [= ->]. rewrite Hmem1 in Hlt. lia.
Qed.

Lemma get_storage_new_session_fresh_store_witness :
  let cfg := default_config in
  let c := run_gs_calls cfg
             [GsCall (Some "a") (Some "10.0.0.1") None 1 ""]
             (fresh false 3000) in
  exists c',
    get_storage cfg None (Some "10.0.0.1") None 2 "u2" c = (Ok (Some "u2", Some 1%nat), c')
    /\ sessions c' !! "u2" = Some (Saved 2 "u2" (Some 1%nat) (Some "10.0.0.1"))
    /\ length (mem c') = 2%nat.
Proof.
  intros cfg c.
  assert (Hc : quota_inv cfg c).
  { apply run_gs_calls_quota; [by vm_compute| |apply quota_inv_fresh].
    repeat constructor; try (intros _; reflexivity); simpl; lia. }
  edestruct (get_storage_new_session_fresh_store cfg c None (Some "10.0.0.1") None 2 "u2")
    as (sid & l & c' & Hrun & Hsid & Hmem & _ & Hs & _).
  - by vm_compute.
  - lia.
  - intros _. reflexivity.
  - reflexivity.
  - reflexivity.
  - exact Hc.
  - apply (bool_decide_unpack _). by vm_compute.
  - by vm_compute.
  - cbn in Hsid. subst sid.
    assert (Hl : l = 1%nat).
    { pose proof Hrun as Hrun'. vm_compute in Hrun'. by injection Hrun' as <- _. }
    subst l. exists c'. split; [exact Hrun|]. split; [exact Hs|].
    by rewrite Hmem.
Defined.

(** ** The token table under [bind_jwt_to_session_id] *)

Lemma bind_tokens_ok (jwt_token session_id : string) (c : container) :
  DISABLE_ISOLATION_MODE c = false -> 1 <= MAX_SESSIONS c -> tokens_ok c ->
  exists c',
    bind_jwt_to_session_id jwt_token session_id c = (Ok tt, c')
    /\ tokens_ok c'
    /\ jwt_to_session c' !! jwt_token = Some session_id
    /\ last (jwt_to_session_order c') = Some jwt_token
    /\ DISABLE_ISOLATION_MODE c' = false
    /\ MAX_SESSIONS c' = MAX_SESSIONS c
    /\ (forall t s, t ≠ jwt_token -> jwt_to_session c' !! t = Some s ->
          jwt_to_session c !! t = Some s /\ s ≠ session_id).
Proof.
  intros Hiso Hmax (Hnd & Hdom & Hinj & Hlen).
  destruct (jwt_tokens_to_remove_spec jwt_token session_id c) as (R & HR & HRspec);
    [lia|].
  assert (Hsub : R ⊆ dom (jwt_to_session c)).
  { intros t Ht. apply elem_of_dom. apply HRspec in Ht as [[Hs _]|[_ Hhead]]; [done|].
    apply Hdom. destruct (jwt_to_session_order c) as [|t0 l]; [done|].
    injection Hhead as ->. left. }
  unfold bind_jwt_to_session_id. rewrite Hiso, HR.
  rewrite bool_decide_eq_true_2 by done.
  eexists. split; [reflexivity|]. unfold tokens_ok. proj_simpl.
  assert (Hold : forall t s, t ≠ jwt_token ->
            <[jwt_token := session_id]>
              (filter (fun ts : string * string => ts.1 ∉ R) (jwt_to_session c)) !! t
            = Some s ->
            jwt_to_session c !! t = Some s /\ t ∉ R).
  { intros t s Hne. rewrite lookup_insert_ne by done.
    intros Hs. by apply map_lookup_filter_Some in Hs. }
  assert (HinR : forall t, jwt_to_session c !! t = Some session_id -> t ∈ R).
  { intros t Ht. apply HRspec. left. split; [by eexists|by right]. }
  split; [|split; [by rewrite lookup_insert_eq|split; [apply last_snoc|]]].
  2:{ do 2 (split; [done|]). intros t s Hne Hs.
      destruct (Hold t s Hne Hs) as [Hs' HnR]. split; [done|].
      intros ->. by apply HnR, HinR. }
  split; [|split; [|split]].
  - apply NoDup_app. split; [by apply NoDup_filter|].
    split; [|apply NoDup_singleton].
    intros t Ht Ht'. apply list_elem_of_singleton in Ht' as ->.
    apply list_elem_of_filter in Ht as [HnR Hin]. apply HnR, HRspec. left.
    split; [by apply Hdom|by left].
  - intros t. destruct (decide (t = jwt_token)) as [->|Hne].
    { rewrite lookup_insert_eq. split; [by eexists|].
      intros _. apply elem_of_app. right. left. }
    rewrite lookup_insert_ne by done. rewrite elem_of_app, list_elem_of_filter.
    rewrite list_elem_of_singleton. split.
    + intros [[HnR Hin]|?]; [|done]. apply Hdom in Hin as [s Hs].
      exists s. by apply map_lookup_filter_Some.
    + intros [s Hs]. apply map_lookup_filter_Some in Hs as [Hs HnR].
      left. split; [done|]. apply Hdom. by eexists.
  - intros t t' s Ht Ht'.
    destruct (decide (t = jwt_token)) as [->|Hne];
      destruct (decide (t' = jwt_token)) as [->|Hne']; [done| | |].
    + rewrite lookup_insert_eq in Ht. injection Ht as <-.
      destruct (Hold t' session_id Hne' Ht') as [Hs' HnR]. exfalso. by apply HnR, HinR.
    + rewrite lookup_insert_eq in Ht'. injection Ht' as <-.
      destruct (Hold t session_id Hne Ht) as [Hs' HnR]. exfalso. by apply HnR, HinR.
    + destruct (Hold t s Hne Ht) as [Hs _]. destruct (Hold t' s Hne' Ht') as [Hs' _].
      by apply (Hinj t t' s).
  - rewrite length_app. cbn [length].
    pose proof (length_filter (fun t => t ∉ R) (jwt_to_session_order c)) as Hle.
    destruct (decide (MAX_SESSIONS c <= Z.of_nat (length (jwt_to_session_order c))))
      as [Hfull|Hroom]; [|lia].
    destruct (jwt_to_session_order c) as [|oldest rest] eqn:Hord;
      [cbn [length] in Hfull; lia|].
    assert (Hlt : (length (filter (fun t => t ∉ R) (oldest :: rest))
                   < length (oldest :: rest))%nat).
    { apply (length_filter_lt _ _ oldest); [left|].
      intros HnR. apply HnR, HRspec. right. split; [by rewrite Hord|].
      by rewrite Hord. }
    lia.
Qed.

Lemma tokens_ok_fresh (d : bool) (M : Z) : 0 <= M -> tokens_ok (fresh d M).
Proof.
  intros HM. split; [apply NoDup_nil_2|]. split; [|split; [|simpl; lia]].
  - intros t. cbn. rewrite lookup_empty. split.
    + intros Ht. by apply elem_of_nil in Ht.
    + by intros [? ?].
  - intros t t' s Ht. cbn in Ht. by rewrite lookup_empty in Ht.
Qed.

Lemma run_binds_snoc (bs : list (string * string)) (b : string * string)
    (c : container) :
  run_binds (bs ++ [b]) c
  = state_after (bind_jwt_to_session_id b.1 b.2 (run_binds bs c)).
Proof.
  revert c. induction bs as [|[t s] bs IH]; intros c; [by destruct b|].
  simpl. apply IH.
Qed.

Lemma run_binds_tokens_ok (bs : list (string * string)) (c : container) :
  DISABLE_ISOLATION_MODE c = false -> 1 <= MAX_SESSIONS c -> tokens_ok c ->
  DISABLE_ISOLATION_MODE (run_binds bs c) = false
  /\ MAX_SESSIONS (run_binds bs c) = MAX_SESSIONS c
  /\ tokens_ok (run_binds bs c).
Proof.
  revert c. induction bs as [|[t s] bs IH]; intros c Hiso Hmax Hok; [done|].
  destruct (bind_tokens_ok t s c Hiso Hmax Hok)
    as (c' & Hrun & Hok' & _ & _ & Hiso' & Hmax' & _).
  simpl. rewrite Hrun. cbn [state_after snd].
  destruct (IH c' Hiso' ltac:(lia) Hok') as (? & ? & ?).
  split; [done|]. split; [congruence|done].
Qed.

(** X20.  Under [bind_jwt_to_session_id] alone the token table stays
    consistent.  After any sequence of binds on a fresh container in
    isolation mode with [MAX_SESSIONS >= 1], ending with the bind of token
    [t] to session [s]: the order list has no repeats and holds exactly the
    bound tokens, it is within [MAX_SESSIONS], no session has two tokens,
    and [t] is bound to [s] and is the newest entry of the order list. *)
Theorem token_table_consistent_after_binds (M : Z) (bs : list (string * string))
    (t s : string) :
  1 <= M ->
  let c := run_binds (bs ++ [(t, s)]) (fresh false M) in
  NoDup (jwt_to_session_order c)
  /\ (forall t', t' ∈ jwt_to_session_order c <-> is_Some (jwt_to_session c !! t'))
  /\ (forall t1 t2 s', jwt_to_session c !! t1 = Some s' ->
                       jwt_to_session c !! t2 = Some s' -> t1 = t2)
  /\ Z.of_nat (length (jwt_to_session_order c)) <= M
  /\ jwt_to_session c !! t = Some s
  /\ last (jwt_to_session_order c) = Some t.
Proof.
  intros HM c. unfold c. rewrite run_binds_snoc. cbn [fst snd].
  destruct (run_binds_tokens_ok bs (fresh false M) eq_refl HM
              (tokens_ok_fresh false M ltac:(lia))) as (Hiso & Hmax & Hok).
  destruct (bind_tokens_ok t s (run_binds bs (fresh false M)) Hiso
              ltac:(rewrite Hmax; exact HM) Hok)
    as (c' & Hrun & (Hnd & Hdom & Hinj & Hlen) & Hbound & Hlast & _ & Hmax' & _).
  rewrite Hrun. cbn [state_after snd].
  split; [done|]. split; [done|]. split; [done|]. split; [|done].
  rewrite Hmax', Hmax in Hlen. exact Hlen.
Qed.

Lemma token_table_consistent_after_binds_witness :
  let c := run_binds [("t1", "s1"); ("t2", "s2"); ("t3", "s1")] (fresh false 2) in
  jwt_to_session_order c = ["t2"; "t3"]
  /\ jwt_to_session c !! "t1" = None
  /\ NoDup (jwt_to_session_order c)
  /\ Z.of_nat (length (jwt_to_session_order c)) <= 2
  /\ jwt_to_session c !! "t3" = Some "s1".
Proof.
  intros c.
  destruct (token_table_consistent_after_binds 2 [("t1", "s1"); ("t2", "s2")] "t3" "s1")
    as (Hnd & _ & _ & Hlen & Hbound & _); [lia|].
  split; [by vm_compute|]. split; [by vm_compute|].
  split; [exact Hnd|]. split; [exact Hlen|exact Hbound].
Defined.

(** ** Isolation disabled: one store for everybody *)

Lemma get_storage_disabled (cfg : config)
    (session_id_from_cookie client_ip jwt_token : option string) (now : Z)
    (uuid : string) (c : container) (st : InMemoryStorage) :
  InMemoryStorage_init cfg = Ok st ->
  DISABLE_ISOLATION_MODE c = true ->
  (shared c = None /\ mem c = []) \/ (shared c = Some 0%nat /\ mem c = [st]) ->
  exists c',
    get_storage cfg session_id_from_cookie client_ip jwt_token now uuid c
    = (Ok (None, Some 0%nat), c')
    /\ DISABLE_ISOLATION_MODE c' = true
    /\ shared c' = Some 0%nat /\ mem c' = [st]
    /\ heap c' = heap c /\ index_map c' = index_map c
    /\ ip_to_sessions c' = ip_to_sessions c
    /\ jwt_to_session c' = jwt_to_session c
    /\ jwt_to_session_order c' = jwt_to_session_order c.
Proof.
  intros Hst Hdis [[Hsh Hmem]|[Hsh Hmem]]; unfold get_storage; rewrite Hdis, Hsh.
  - unfold bindM, new_storage, modify, ret. rewrite Hst, Hmem.
    eexists. split; [reflexivity|]. by repeat split.
  - exists c. by repeat split.
Qed.

(** X21.  With isolation disabled there is one store for everybody.  On a
    container created with [DISABLE_ISOLATION_MODE], after any sequence of
    [get_storage] calls, one more call, whatever its cookie, address and
    token, returns no session id and the same store reference, the single
    object [InMemoryStorage()] built at the first call and kept by the
    container; the index map, the address lists and the token tables stay
    empty; and on the container it leaves, [bind_jwt_to_session_id] changes
    nothing and [find_session_by_credentials] finds nothing. *)
Theorem isolation_disabled_single_store (cfg : config) (M : Z) (rs : list gs_call)
    (r : gs_call) (st : InMemoryStorage) :
  InMemoryStorage_init cfg = Ok st ->
  exists c',
    get_storage cfg (gs_cookie r) (gs_client_ip r) (gs_jwt_token r) (gs_now r)
      (gs_uuid r) (run_gs_calls cfg rs (fresh true M))
    = (Ok (None, Some 0%nat), c')
    /\ shared c' = Some 0%nat /\ mem c' = [st]
    /\ index_map c' = ∅ /\ ip_to_sessions c' = ∅
    /\ jwt_to_session c' = ∅ /\ jwt_to_session_order c' = []
    /\ (forall t s, bind_jwt_to_session_id t s c' = (Ok tt, c'))
    /\ (forall e p, find_session_by_credentials e p c' = Ok None).
Proof.
  intros Hst.
  assert (Hinv : forall c,
            DISABLE_ISOLATION_MODE c = true ->
            (shared c = None /\ mem c = []) \/ (shared c = Some 0%nat /\ mem c = [st]) ->
            heap c = [] /\ index_map c = ∅ /\ ip_to_sessions c = ∅
            /\ jwt_to_session c = ∅ /\ jwt_to_session_order c = [] ->
            let c1 := run_gs_calls cfg rs c in
            DISABLE_ISOLATION_MODE c1 = true
            /\ ((shared c1 = None /\ mem c1 = []) \/ (shared c1 = Some 0%nat /\ mem c1 = [st]))
            /\ heap c1 = [] /\ index_map c1 = ∅ /\ ip_to_sessions c1 = ∅
            /\ jwt_to_session c1 = ∅ /\ jwt_to_session_order c1 = []).
  { induction rs as [|r0 rs IH]; intros c Hdis Hsh Hempty; [done|].
    destruct (get_storage_disabled cfg (gs_cookie r0) (gs_client_ip r0) (gs_jwt_token r0)
                (gs_now r0) (gs_uuid r0) c st Hst Hdis Hsh)
      as (c' & Hrun & Hdis' & Hsh' & Hmem' & Hh & Him & Hips & Hj & Hjo).
    simpl. unfold run_gs_call. rewrite Hrun. cbn [state_after snd].
    apply IH; [done|by right|].
    destruct Hempty as (? & ? & ? & ? & ?). repeat split; congruence. }
  destruct (Hinv (fresh true M) eq_refl (or_introl (conj eq_refl eq_refl))
              ltac:(by repeat split))
    as (Hdis & Hsh & Hh & Him & Hips & Hj & Hjo).
  destruct (get_storage_disabled cfg (gs_cookie r) (gs_client_ip r) (gs_jwt_token r)
              (gs_now r) (gs_uuid r) _ st Hst Hdis Hsh)
    as (c' & Hrun & Hdis' & Hsh' & Hmem' & Hh' & Him' & Hips' & Hj' & Hjo').
  exists c'. split; [done|]. split; [done|]. split; [done|].
  do 4 (split; [congruence|]). split.
  - intros t s. unfold bind_jwt_to_session_id. by rewrite Hdis'.
  - intros e p. unfold find_session_by_credentials. by rewrite Hdis'.
Qed.

Lemma isolation_disabled_single_store_witness :
  exists c',
    get_storage default_config (Some "b") (Some "10.0.0.2") (Some "token_x") 2 "u2"
      (run_gs_calls default_config [GsCall (Some "a") (Some "10.0.0.1") None 1 "u1"]
         (fresh true 3000))
    = (Ok (None, Some 0%nat), c')
    /\ shared c' = Some 0%nat /\ length (mem c') = 1%nat.
Proof.
  edestruct (isolation_disabled_single_store default_config 3000
               [GsCall (Some "a") (Some "10.0.0.1") None 1 "u1"]
               (GsCall (Some "b") (Some "10.0.0.2") (Some "token_x") 2 "u2"))
    as (c' & Hrun & Hsh & Hmem & _).
  - reflexivity.
  - exists c'. split; [exact Hrun|]. split; [exact Hsh|by rewrite Hmem].
Defined.

(** ** [find_session_by_credentials]: sound and complete *)

(** X22.  The credential lookup is sound and complete over the queue.  On a
    container in isolation mode that satisfies the heap invariant and whose
    sessions all carry a store whose user records have the fields the scan
    reads, [find_session_by_credentials] returns without raising; when it
    returns a session id and a store, that session is in the queue, carries
    that store, and the store holds a user with the given email and hashed
    password; when it returns nothing, no store carried by a session of the
    queue holds such a user. *)
Theorem find_session_sound_and_complete (c : container)
    (email hashed_password : string) :
  DISABLE_ISOLATION_MODE c = false -> heap_inv c -> stores_ok c ->
  (exists sid l st s,
      find_session_by_credentials email hashed_password c = Ok (Some (sid, l))
      /\ sessions c !! sid = Some s /\ sv_storage s = Some l
      /\ mem c !! l = Some st /\ has_user email hashed_password st)
  \/ (find_session_by_credentials email hashed_password c = Ok None
      /\ forall k s l st,
           sessions c !! k = Some s -> sv_storage s = Some l ->
           mem c !! l = Some st -> ~ has_user email hashed_password st).
Proof.
  intros Hiso Hinv Hok. unfold find_session_by_credentials. rewrite Hiso.
  destruct (find_in_items_spec (mem c) email hashed_password (heap c))
    as [(x & l & st & Hx & Hd & Hm & Hh & Hf)|[Hf Hno]].
  - intros x Hx. apply list_elem_of_lookup in Hx as [i Hi].
    pose proof (sessions_lookup_item c i x (proj2 Hinv) Hi) as Hs.
    destruct (Hok _ _ Hs) as (l & st & Hl & Hm & Hu). by exists l, st.
  - left. apply list_elem_of_lookup in Hx as [i Hi].
    exists (it_obj_id x), l, st, (saved_of x). split; [done|].
    split; [exact (sessions_lookup_item c i x (proj2 Hinv) Hi)|]. done.
  - right. split; [done|]. intros k s l st Hs Hl Hm.
    destruct (sessions_lookup_Some c k s (proj2 Hinv) Hs) as (i & x & _ & Hx & _ & <-).
    apply (Hno x l st); [by eapply list_elem_of_lookup_2|done|done].
Qed.

Lemma find_session_sound_and_complete_witness :
  let cfg := default_config in
  let c1 := state_after (get_storage cfg (Some "s1") (Some "10.0.0.1") None 1 ""
                           (fresh false 3000)) in
  let user : obj := {[ "email" := "a@b.c"; "password" := "h"; "username" := "alice" ]} in
  let c2 := state_after (add_user cfg 0%nat user c1) in
  find_session_by_credentials "a@b.c" "h" c2 = Ok (Some ("s1", 0%nat))
  /\ ((exists sid l st s,
         find_session_by_credentials "a@b.c" "h" c2 = Ok (Some (sid, l))
         /\ sessions c2 !! sid = Some s /\ sv_storage s = Some l
         /\ mem c2 !! l = Some st /\ has_user "a@b.c" "h" st)
      \/ (find_session_by_credentials "a@b.c" "h" c2 = Ok None
          /\ forall k s l st,
               sessions c2 !! k = Some s -> sv_storage s = Some l ->
               mem c2 !! l = Some st -> ~ has_user "a@b.c" "h" st)).
Proof.
  intros cfg c1 user c2.
  assert (Hinv1 : heap_inv c1).
  { apply get_storage_preserves_heap_inv, heap_inv_fresh. }
  assert (Hinv2 : heap_inv c2) by (by apply add_user_preserves_heap_inv).
  destruct (mem c2 !! 0%nat) as [st|] eqn:Hst; [|by vm_compute in Hst].
  assert (Hcred : users_have_credentials st).
  { vm_compute in Hst. injection Hst as <-.
    intros u Hu. apply list_elem_of_singleton in Hu. subst u.
    repeat split; by eexists. }
  assert (Hok : stores_ok c2).
  { intros k s Hs.
    destruct (sessions_lookup_Some c2 k s (proj2 Hinv2) Hs)
      as (i & x & _ & Hx & _ & <-).
    exists 0%nat, st. split; [|split; [exact Hst|exact Hcred]].
    destruct i as [|i]; vm_compute in Hx; by simplify_eq. }
  split; [by vm_compute|].
  exact (find_session_sound_and_complete c2 "a@b.c" "h" eq_refl Hinv2 Hok).
Defined.
